(** * YouTube channel dashboard

    A shallow embedding of [src/services/youtubeService.ts] (credential
    rotation, the retrying fetcher, channel resolution, the channel and
    video queries), of [src/utils/helpers.ts] ([formatNumber],
    [formatRelativeTime], [extractChannelId]) and of the handlers of the
    dashboard that keep its settings, its groups and its single-channel
    view ([App.tsx], [ApiKeyManager.tsx], [GroupSettingsModal.tsx]).

    The service is asynchronous but single threaded: every [await] is a
    sequence point, so a call is modelled as a function from the module
    state (key pool, cursor, and the trace of HTTP requests issued so far)
    to a completion and a new state.  The upstream API is an oracle [net]
    that answers each request, possibly depending on the requests already
    made.  A call runs to completion before the next one starts (no
    interleaving of concurrent calls).  Console output is not modelled.

    Payloads are typed after the properties the service reads: an object
    the code reads through may be absent (the read then throws a
    [TypeError]), a string property may be [undefined].  Numbers the code
    adds or divides are doubles.  Date parsing, [parseInt], the conversion
    of a number to a string, [JSON], [trim] and the order in which the
    engine's sort leaves a list that its comparator cannot order are the
    host's and enter as parameters. *)

From Equations Require Import Equations.
From Equations.Prop Require Import Logic.
From Stdlib Require Import String Ascii List Arith ZArith Lia Bool.
From Stdlib Require Import DecimalString.
From Stdlib Require PrimFloat FloatOps SpecFloat Uint63 FloatAxioms.
Import ListNotations.
Local Open Scope string_scope.
Local Open Scope list_scope.
Local Open Scope nat_scope.

Set Implicit Arguments.

(** ** JavaScript values used by the service *)

(** A string-valued property; [None] is [undefined]. *)
Definition jsstring := option string.

(** Truthiness of a string-valued property: [undefined] and the empty
    string are falsy. *)
Definition truthy (s : jsstring) : bool :=
  match s with
  | Some EmptyString => false
  | Some _ => true
  | None => false
  end.

(** [String(x)], as applied by [URLSearchParams] and [join]. *)
Definition jsToString (s : jsstring) : string :=
  match s with Some v => v | None => "undefined" end.

(** [s.includes(sub)] *)
Fixpoint includes (s sub : string) : bool :=
  String.prefix sub s ||
  match s with
  | EmptyString => false
  | String _ rest => includes rest sub
  end.

(** [String(n)] for a natural number. *)
Definition decimal (n : nat) : string := NilEmpty.string_of_uint (Nat.to_uint n).

(** Thrown values: every exception in the service is an [Error] carrying
    a message. *)
Record Error := mkError { message : string }.

Inductive Result (A : Type) : Type :=
| Ok (a : A)
| Throw (e : Error).
Arguments Ok {A} a.
Arguments Throw {A} e.

(** The four error kinds raised by the service itself, with the messages
    of the source. *)
Definition NoCredentialsConfigured : Error :=
  mkError "Please configure at least one YouTube Data API key in Settings.".

Definition AllCredentialsExhausted (poolSize : nat) : Error :=
  mkError ("All " ++ decimal poolSize ++
           " API key(s) failed, likely due to quota limits. Please try again later or add more keys.").

Definition UpstreamRequestFailed (upstream : jsstring) : Error :=
  mkError (if truthy upstream then jsToString upstream
           else "Failed to fetch data from YouTube API.").

Definition ChannelNotFound : Error :=
  mkError "Could not find a YouTube channel for the given identifier.".

(** A property read on [undefined], a call of a missing method. *)
Definition TypeError : Error := mkError "TypeError".

(** ** Upstream payloads, typed as the service reads them *)

Inductive Endpoint := channels | search | videos | playlistItems.

Record Thumbnail := { url : jsstring }.
Record Thumbnails := { high : option Thumbnail; default : option Thumbnail }.

Record ChannelSnippet := {
  channel_title : jsstring;
  channel_description : jsstring;
  channel_customUrl : jsstring;
  channel_publishedAt : jsstring;
  channel_thumbnails : option Thumbnails }.
Record ChannelStatistics := {
  channel_subscriberCount : jsstring;
  channel_videoCount : jsstring;
  channel_viewCount : jsstring }.
Record RelatedPlaylists := { uploads : jsstring }.
Record ContentDetails := { relatedPlaylists : option RelatedPlaylists }.
Record ChannelItem := {
  channel_id : jsstring;
  channel_snippet : option ChannelSnippet;
  channel_statistics : option ChannelStatistics;
  channel_contentDetails : option ContentDetails }.

Record SearchId := { videoId : jsstring }.
Record SearchSnippet := {
  channelId : jsstring;
  search_publishedAt : jsstring;
  search_title : jsstring;
  search_description : jsstring;
  search_thumbnails : option Thumbnails }.
Record SearchItem := { search_id : option SearchId; search_snippet : option SearchSnippet }.

Record VideoSnippet := {
  video_publishedAt : jsstring;
  video_title : jsstring;
  video_description : jsstring;
  video_thumbnails : option Thumbnails }.
Record Statistics := { viewCount : jsstring; likeCount : jsstring; commentCount : jsstring }.
Record VideoItem := {
  video_id : jsstring;
  video_snippet : option VideoSnippet;
  video_statistics : option Statistics }.

Record ResourceId := { resource_videoId : jsstring }.
Record PlaylistSnippet := {
  publishedAt : jsstring;
  title : jsstring;
  description : jsstring;
  thumbnails : option Thumbnails;
  resourceId : option ResourceId }.
Record PlaylistItem := { snippet : option PlaylistSnippet }.

(** Every list endpoint answers [{items, nextPageToken}]. *)
Record ListResponse (I : Type) := { items : option (list I); nextPageToken : jsstring }.

Definition item (e : Endpoint) : Type :=
  match e with
  | channels => ChannelItem
  | search => SearchItem
  | videos => VideoItem
  | playlistItems => PlaylistItem
  end.

Definition body (e : Endpoint) : Type := ListResponse (item e).

(** The error payload [{error: {message, errors: [{reason}]}}]. *)
Record ErrorItem := { reason : jsstring }.
Record ErrorObject := { error_message : jsstring; errors : option (list ErrorItem) }.
Record ErrorData := { error : option ErrorObject }.

(** What one [fetch] can do: reject (transport failure), or resolve to a
    response whose [ok] flag is set or not and whose [json()] resolves or
    rejects. *)
Inductive Response (B : Type) : Type :=
| NetworkFailure (e : Error)
| HttpOk (payload : Result B)
| HttpError (payload : Result ErrorData).
Arguments NetworkFailure {B} e.
Arguments HttpOk {B} payload.
Arguments HttpError {B} payload.

(** [Record<string, string>], in insertion order. *)
Definition Params := list (string * string).

(** [{...params, [k]: v}]: an existing property keeps its position. *)
Fixpoint setParam (k v : string) (params : Params) : Params :=
  match params with
  | [] => [(k, v)]
  | (k', v') :: rest =>
      if String.eqb k' k then (k, v) :: rest else (k', v') :: setParam k v rest
  end.

Record Request := { endpoint : Endpoint; query : Params }.

(** The upstream service: its answer to a request on [e] with the given
    query, after the requests of the trace. *)
Definition Net := list Request -> forall e : Endpoint, Params -> Response (body e).

(** ** Module state *)

Record World := {
  apiKeys : list string;
  currentKeyIndex : nat;
  requests : list Request }.

(** The state of a freshly loaded module. *)
Definition initial : World := {| apiKeys := []; currentKeyIndex := 0; requests := [] |}.

Definition M (A : Type) : Type := World -> Result A * World.

Definition ret {A} (a : A) : M A := fun w => (Ok a, w).
Definition throw {A} (e : Error) : M A := fun w => (Throw e, w).
Definition bind {A B} (m : M A) (k : A -> M B) : M B :=
  fun w => match m w with
           | (Ok a, w') => k a w'
           | (Throw e, w') => (Throw e, w')
           end.
Definition tryCatch {A} (m : M A) (handler : Error -> M A) : M A :=
  fun w => match m w with
           | (Ok a, w') => (Ok a, w')
           | (Throw e, w') => handler e w'
           end.
(** Lifting a pure computation that may throw. *)
Definition lift {A} (r : Result A) : M A := fun w => (r, w).

Declare Scope js_scope.
Delimit Scope js_scope with js.
Notation "x <- m ;; k" := (bind m (fun x => k))
  (at level 61, m at next level, right associativity) : js_scope.
Notation "'try' m 'catch' h" := (tryCatch m h) (at level 62) : js_scope.

(** ** Credential pool *)

Definition setApiKeys (keys : list string) (w : World) : World :=
  {| apiKeys := keys; currentKeyIndex := 0; requests := requests w |}.

Definition getNextApiKey : M jsstring := fun w =>
  if length (apiKeys w) =? 0 then (Throw NoCredentialsConfigured, w)
  else
    let key := nth_error (apiKeys w) (currentKeyIndex w) in
    (Ok key, {| apiKeys := apiKeys w;
                currentKeyIndex := (currentKeyIndex w + 1) mod length (apiKeys w);
                requests := requests w |}).

(** [n] consecutive selections, collecting what each one completes with. *)
Fixpoint selections (n : nat) (w : World) : list (Result jsstring) * World :=
  match n with
  | 0 => ([], w)
  | S n' =>
      let (r, w1) := getNextApiKey w in
      let (rs, w2) := selections n' w1 in
      (r :: rs, w2)
  end.

(** ** The resilient fetcher *)

(** [errorData.error?.errors?.[0]?.reason] *)
Definition errorReason (d : ErrorData) : jsstring :=
  match error d with
  | None => None
  | Some o =>
      match errors o with
      | Some (first :: _) => reason first
      | _ => None
      end
  end.

(** [errorData.error?.message] *)
Definition errorMessage (d : ErrorData) : jsstring :=
  match error d with
  | None => None
  | Some o => error_message o
  end.

(** [reason === 'quotaExceeded' || reason === 'dailyLimitExceeded'] *)
Definition quotaClass (r : jsstring) : bool :=
  match r with
  | Some s => String.eqb s "quotaExceeded" || String.eqb s "dailyLimitExceeded"
  | None => false
  end.

(** How the [try] block of [fetchYouTubeAPI] completes.  A [return] of a
    promise that is not awaited leaves the block: neither the payload of
    [return response.json()] nor the retry of
    [return fetchYouTubeAPI(...)] can reach the [catch]. *)
Inductive Completion (B : Type) : Type :=
| Returned (payload : Result B)
| Delegated
| Thrown (err : Error).
Arguments Returned {B} payload.
Arguments Delegated {B}.
Arguments Thrown {B} err.

Definition tryBlock {B} (poolSize : nat) (response : Response B) : Completion B :=
  match response with
  | NetworkFailure err => Thrown err
  | HttpOk payload => Returned payload
  | HttpError (Throw err) => Thrown err
  | HttpError (Ok errorData) =>
      if quotaClass (errorReason errorData) && (1 <? poolSize)
      then Delegated
      else Thrown (UpstreamRequestFailed (errorMessage errorData))
  end.

(** The request sent with a given key, and the state after sending it. *)
Definition request (e : Endpoint) (params : Params) (apiKey : jsstring) : Request :=
  {| endpoint := e; query := setParam "key" (jsToString apiKey) params |}.

Definition sent (r : Request) (w : World) : World :=
  {| apiKeys := apiKeys w;
     currentKeyIndex := currentKeyIndex w;
     requests := requests w ++ [r] |}.

Section Service.

Variable net : Net.

Equations? fetchYouTubeAPI (e : Endpoint) (params : Params) (attempt : nat) (w : World)
  : Result (body e) * World by wf (length (apiKeys w) - attempt) lt :=
fetchYouTubeAPI e params attempt w
  with inspect ((length (apiKeys w) <=? attempt) && (0 <? length (apiKeys w))) := {
  | exist _ true _ => (Throw (AllCredentialsExhausted (length (apiKeys w))), w)
  | exist _ false Hbound with inspect (getNextApiKey w) := {
    | exist _ (Throw err, w1) _ => (Throw err, w1)
    | exist _ (Ok apiKey, w1) Hkey
        with tryBlock (length (apiKeys w1))
                      (net (requests w1) e (query (request e params apiKey))) := {
      | Returned payload => (payload, sent (request e params apiKey) w1)
      | Delegated => fetchYouTubeAPI e params (attempt + 1) (sent (request e params apiKey) w1)
      | Thrown err =>
          if includes (message err) "API key(s) failed"
          then (Throw err, sent (request e params apiKey) w1)
          else if (1 <? length (apiKeys w1)) && (attempt <? length (apiKeys w1) - 1)
          then fetchYouTubeAPI e params (attempt + 1) (sent (request e params apiKey) w1)
          else (Throw err, sent (request e params apiKey) w1) } } }.
Proof.
  all: unfold getNextApiKey in Hkey;
    destruct (length (apiKeys w) =? 0) eqn:Hempty; [discriminate|];
    injection Hkey as _ <-; apply Nat.eqb_neq in Hempty;
    apply andb_false_iff in Hbound; simpl;
    destruct Hbound as [Hb | Hb];
    [apply Nat.leb_gt in Hb | apply Nat.ltb_ge in Hb]; lia.
Qed.

(** [new Date(s).getTime()] for a string [s]; [None] is [NaN] (an invalid
    date).  Date parsing belongs to the host, so it is a parameter. *)
Variable dateTime : string -> option Z.

(** [new Date(x).getTime()]; [new Date(undefined)] is an invalid date. *)
Definition getTime (x : jsstring) : option Z :=
  match x with
  | Some s => dateTime s
  | None => None
  end.

(** [fetchYouTubeAPI(endpoint, params)], with the default [attempt = 0]. *)
Definition call (e : Endpoint) (params : Params) : M (body e) :=
  fetchYouTubeAPI e params 0.

(** *** Channel resolver *)

Definition usernameParams (channelIdentifier : string) : Params :=
  [("part", "id"); ("forUsername", channelIdentifier)].

Definition channelSearchParams (channelIdentifier : string) : Params :=
  [("part", "snippet"); ("q", channelIdentifier); ("type", "channel")].

(** The [try] block of [resolveChannelId]: [Some id] when it returns,
    [None] when control falls through to the search. *)
Definition resolveByUsername (channelIdentifier : string) : M (option jsstring) :=
  (data <- call channels (usernameParams channelIdentifier) ;;
   match items data with
   | Some (first :: _) => ret (Some (channel_id first))
   | _ => ret None
   end)%js.

Definition resolveBySearch (channelIdentifier : string) : M jsstring :=
  (searchData <- call search (channelSearchParams channelIdentifier) ;;
   match items searchData with
   | Some (first :: _) =>
       match search_snippet first with
       | None => throw TypeError
       | Some s =>
           if truthy (channelId s) then ret (channelId s)
           else throw ChannelNotFound
       end
   | _ => throw ChannelNotFound
   end)%js.

Definition resolveChannelId (channelIdentifier : string) : M jsstring :=
  if String.prefix "UC" channelIdentifier then ret (Some channelIdentifier)
  else
    (found <- (try resolveByUsername channelIdentifier catch (fun _ => ret None)) ;;
     match found with
     | Some id => ret id
     | None => resolveBySearch channelIdentifier
     end)%js.

(** *** Channel statistics *)

(** The object [getChannelStats] returns: upstream decides which of its
    properties are defined. *)
Record ChannelStats := {
  ch_id : jsstring;
  ch_title : jsstring;
  ch_description : jsstring;
  ch_customUrl : jsstring;
  ch_publishedAt : jsstring;
  ch_thumbnailUrl : jsstring;
  ch_subscriberCount : jsstring;
  ch_videoCount : jsstring;
  ch_viewCount : jsstring;
  ch_uploadsPlaylistId : jsstring }.

(** The object literal built from [channelData.items[0]]. *)
Definition channelStatsOfItem (channel : ChannelItem) : Result ChannelStats :=
  match channel_snippet channel with
  | None => Throw TypeError
  | Some s =>
      match channel_thumbnails s with
      | None => Throw TypeError
      | Some t =>
          match high t with
          | None => Throw TypeError
          | Some h =>
              match channel_statistics channel with
              | None => Throw TypeError
              | Some st =>
                  match channel_contentDetails channel with
                  | None => Throw TypeError
                  | Some d =>
                      match relatedPlaylists d with
                      | None => Throw TypeError
                      | Some p =>
                          Ok {| ch_id := channel_id channel;
                                ch_title := channel_title s;
                                ch_description := channel_description s;
                                ch_customUrl := channel_customUrl s;
                                ch_publishedAt := channel_publishedAt s;
                                ch_thumbnailUrl := url h;
                                ch_subscriberCount := channel_subscriberCount st;
                                ch_videoCount := channel_videoCount st;
                                ch_viewCount := channel_viewCount st;
                                ch_uploadsPlaylistId := uploads p |}
                      end
                  end
              end
          end
      end
  end.

Definition statsParams (channelId : jsstring) : Params :=
  [("part", "snippet,statistics,contentDetails"); ("id", jsToString channelId)].

Definition getChannelStats (channelIdentifier : string) : M ChannelStats :=
  (channelId <- resolveChannelId channelIdentifier ;;
   channelData <- call channels (statsParams channelId) ;;
   match items channelData with
   | Some (channel :: _) => lift (channelStatsOfItem channel)
   | _ => throw (mkError "Channel not found.")
   end)%js.

(** *** Video queries *)

Record VideoStat := {
  stat_id : jsstring;
  stat_publishedAt : jsstring;
  stat_title : jsstring;
  stat_description : jsstring;
  stat_thumbnailUrl : jsstring;
  stat_viewCount : jsstring;
  stat_likeCount : jsstring;
  stat_commentCount : jsstring }.

Record VideoPage := { page_videos : list VideoStat; page_nextPageToken : jsstring }.

(** [xs.map(f)] for a callback that may throw. *)
Fixpoint mapM {A B} (f : A -> Result B) (xs : list A) : Result (list B) :=
  match xs with
  | [] => Ok []
  | x :: rest =>
      match f x with
      | Throw e => Throw e
      | Ok y =>
          match mapM f rest with
          | Throw e => Throw e
          | Ok ys => Ok (y :: ys)
          end
      end
  end.

(** [xs.join(',')]: [undefined] elements contribute the empty string. *)
Fixpoint join (xs : list jsstring) : string :=
  match xs with
  | [] => ""
  | [x] => match x with Some s => s | None => "" end
  | x :: rest => (match x with Some s => s | None => "" end) ++ "," ++ join rest
  end.

(** [item => item.id.videoId] *)
Definition searchVideoId (i : SearchItem) : Result jsstring :=
  match search_id i with
  | None => Throw TypeError
  | Some d => Ok (videoId d)
  end.

(** The callback that builds a [VideoStat] from a [videos] item. *)
Definition videoStatOfItem (i : VideoItem) : Result VideoStat :=
  match video_snippet i with
  | None => Throw TypeError
  | Some s =>
      match video_thumbnails s with
      | None => Throw TypeError
      | Some t =>
          match high t with
          | None => Throw TypeError
          | Some h =>
              match video_statistics i with
              | None => Throw TypeError
              | Some st =>
                  Ok {| stat_id := video_id i;
                        stat_publishedAt := video_publishedAt s;
                        stat_title := video_title s;
                        stat_description := video_description s;
                        stat_thumbnailUrl := url h;
                        stat_viewCount := viewCount st;
                        stat_likeCount := likeCount st;
                        stat_commentCount := commentCount st |}
              end
          end
      end
  end.

(** [if (pageToken) params.pageToken = pageToken] *)
Definition withPageToken (pageToken : jsstring) (params : Params) : Params :=
  if truthy pageToken then setParam "pageToken" (jsToString pageToken) params else params.

Definition videoSearchParams (channelId : string) (maxResults : nat) (pageToken : jsstring)
  : Params :=
  withPageToken pageToken
    [("part", "id"); ("channelId", channelId); ("maxResults", decimal maxResults);
     ("order", "date"); ("type", "video")].

Definition getChannelVideos (channelId : string) (maxResults : nat) (pageToken : jsstring)
  : M VideoPage :=
  (searchData <- call search (videoSearchParams channelId maxResults pageToken) ;;
   found <- lift (match items searchData with
                  | None => Throw TypeError
                  | Some l => mapM searchVideoId l
                  end) ;;
   let videoIds := join found in
   if String.eqb videoIds "" then ret {| page_videos := []; page_nextPageToken := None |}
   else
     videosData <- call videos [("part", "snippet,statistics"); ("id", videoIds)] ;;
     videos <- lift (match items videosData with
                     | None => Throw TypeError
                     | Some l => mapM videoStatOfItem l
                     end) ;;
     ret {| page_videos := videos; page_nextPageToken := nextPageToken searchData |})%js.

(** [thumbnails.high?.url || thumbnails.default.url] *)
Definition thumbnailUrl (t : Thumbnails) : Result jsstring :=
  let preferred := match high t with Some h => url h | None => None end in
  if truthy preferred then Ok preferred
  else match default t with
       | None => Throw TypeError
       | Some d => Ok (url d)
       end.

(** The [VideoStat] built from a playlist item's snippet; the counts are
    not available from this endpoint. *)
Definition videoStatOfSnippet (s : PlaylistSnippet) : Result VideoStat :=
  match resourceId s with
  | None => Throw TypeError
  | Some r =>
      match thumbnails s with
      | None => Throw TypeError
      | Some t =>
          match thumbnailUrl t with
          | Throw e => Throw e
          | Ok u =>
              Ok {| stat_id := resource_videoId r;
                    stat_publishedAt := publishedAt s;
                    stat_title := title s;
                    stat_description := description s;
                    stat_thumbnailUrl := u;
                    stat_viewCount := Some "0";
                    stat_likeCount := Some "0";
                    stat_commentCount := Some "0" |}
          end
      end
  end.

(** The comparator of [getOldestVideo], on two snippets, as [sort] uses
    it: a [NaN] difference counts as [+0]. *)
Definition compareSnippets (a b : PlaylistSnippet) : Z :=
  match getTime (publishedAt a), getTime (publishedAt b) with
  | Some ta, Some tb => (ta - tb)%Z
  | _, _ => 0%Z
  end.

Fixpoint insertSorted (x : PlaylistSnippet) (sorted : list PlaylistSnippet)
  : list PlaylistSnippet :=
  match sorted with
  | [] => [x]
  | y :: rest =>
      if (compareSnippets x y <=? 0)%Z then x :: y :: rest
      else y :: insertSorted x rest
  end.

(** The stable ascending sort by the comparator above. *)
Fixpoint stableSort (l : list PlaylistSnippet) : list PlaylistSnippet :=
  match l with
  | [] => []
  | x :: rest => insertSorted x (stableSort rest)
  end.

(** Every publish date of the list parses. *)
Definition datesParse (l : list PlaylistSnippet) : bool :=
  forallb (fun s => match getTime (publishedAt s) with
                    | Some _ => true
                    | None => false
                    end) l.

(** What the engine's [Array.prototype.sort] makes of a list with a date
    that does not parse: the differences with it are [NaN], the comparator
    need not be consistent, and the order is implementation-defined. *)
Variable engineSort : list PlaylistSnippet -> list PlaylistSnippet.

(** [Array.prototype.sort] with the comparator above.  The sort is stable,
    so for dates that all parse its result is determined; otherwise it is
    the engine's. *)
Definition sortSnippets (l : list PlaylistSnippet) : list PlaylistSnippet :=
  if datesParse l then stableSort l else engineSort l.

(** [sortedItems[0].snippet] after [items.sort(...)].  A single item is
    never handed to the comparator; with two or more, every item is, and
    the comparator throws on an item without snippet. *)
Definition oldestSnippet (l : list PlaylistItem) : Result (option PlaylistSnippet) :=
  match l with
  | [] => Ok None
  | [only] => Ok (snippet only)
  | _ =>
      match mapM (fun i => match snippet i with
                           | Some s => Ok s
                           | None => Throw TypeError
                           end) l with
      | Throw e => Throw e
      | Ok snippets => Ok (hd_error (sortSnippets snippets))
      end
  end.

Definition playlistParams (playlistId : string) : Params :=
  [("part", "snippet"); ("playlistId", playlistId); ("maxResults", "50")].

Definition getOldestVideo (playlistId : string) : M (option VideoStat) :=
  (try
     (playlistData <- call playlistItems (playlistParams playlistId) ;;
      match items playlistData with
      | None | Some [] => ret None
      | Some l =>
          first <- lift (oldestSnippet l) ;;
          match first with
          | None => throw TypeError
          | Some s => video <- lift (videoStatOfSnippet s) ;; ret (Some video)
          end
      end)
   catch (fun _ => ret None))%js.

(** [t >= startDateTime && t <= endDateTime]; comparisons with [NaN] are
    false. *)
Definition inRange (startDateTime endDateTime t : option Z) : bool :=
  match startDateTime, endDateTime, t with
  | Some lo, Some hi, Some v => (lo <=? v)%Z && (v <=? hi)%Z
  | _, _, _ => false
  end.

(** The [for ... of data.items] loop: the first item in range, as a
    [VideoStat], or [None] when the page has none. *)
Fixpoint scanPage (startDateTime endDateTime : option Z) (l : list PlaylistItem)
  : Result (option VideoStat) :=
  match l with
  | [] => Ok None
  | i :: rest =>
      match snippet i with
      | None => Throw TypeError
      | Some s =>
          if inRange startDateTime endDateTime (getTime (publishedAt s))
          then match videoStatOfSnippet s with
               | Throw e => Throw e
               | Ok v => Ok (Some v)
               end
          else scanPage startDateTime endDateTime rest
      end
  end.

(** The [do ... while (nextPageToken)] loop.  Upstream decides how many
    pages there are, so the loop takes fuel: one unit per page fetched;
    [None] means the fuel ran out with pages left. *)
Fixpoint pageLoop (fuel : nat) (playlistId : string) (startDateTime endDateTime : option Z)
  (pageToken : jsstring) (w : World) : option (Result (option VideoStat) * World) :=
  match fuel with
  | 0 => None
  | S fuel' =>
      match call playlistItems (withPageToken pageToken (playlistParams playlistId)) w with
      | (Throw e, w1) => Some (Throw e, w1)
      | (Ok data, w1) =>
          match items data with
          | None => Some (Throw TypeError, w1)
          | Some l =>
              match scanPage startDateTime endDateTime l with
              | Throw e => Some (Throw e, w1)
              | Ok (Some v) => Some (Ok (Some v), w1)
              | Ok None =>
                  if truthy (nextPageToken data)
                  then pageLoop fuel' playlistId startDateTime endDateTime
                                (nextPageToken data) w1
                  else Some (Ok None, w1)
              end
          end
      end
  end.

Definition getOldestVideoInRange (fuel : nat) (playlistId : string)
  (startDate endDate : jsstring) (w : World) : option (Result (option VideoStat) * World) :=
  if negb (truthy startDate) || negb (truthy endDate)
  then Some (getOldestVideo playlistId w)
  else pageLoop fuel playlistId (getTime startDate) (getTime endDate) None w.

End Service.

(** ** Number formatting ([src/utils/helpers.ts]) *)

Section Helpers.

(** [parseInt(s, 10)], the host's; [None] is [NaN]. *)
Variable parseInt : string -> option Z.

(** [Number.MAX_SAFE_INTEGER]: up to it every whole number is a double. *)
Definition maxSafeInteger : Z := 9007199254740991.

(** The double holding a whole number; meant for the whole numbers from
    0 to [maxSafeInteger]. *)
Definition toDouble (n : Z) : PrimFloat.float := PrimFloat.of_uint63 (Uint63.of_Z n).

(** [String(n)] for a whole number. *)
Definition decimalZ (n : Z) : string := NilZero.string_of_int (Z.to_int n).

(** The integer [n] with [n / 10] nearest to [m * 2^e], the larger one
    on a tie: [floor (10 * m * 2^e + 1/2)], the divisions by powers of two
    written as shifts. *)
Definition nearestTenths (m : positive) (e : Z) : Z :=
  match e with
  | Zneg p => Z.shiftr (2 * (10 * Z.pos m) + Z.shiftl 1 (Z.pos p)) (Z.pos p + 1)
  | _ => Z.shiftl (10 * Z.pos m) e
  end.

(** A number of tenths written with one decimal. *)
Definition renderTenths (n : Z) : string :=
  decimalZ (n / 10) ++ "." ++ decimalZ (n mod 10).

(** [x.toFixed(1)], from the exact value [m * 2^e] of the double, for
    [x] below [10^21] (from there on [toFixed] switches to the exponent
    notation; no quotient of a safe integer gets there). *)
Definition toFixed1 (x : PrimFloat.float) : string :=
  match FloatOps.Prim2SF x with
  | SpecFloat.S754_nan => "NaN"
  | SpecFloat.S754_infinity s => if s then "-Infinity" else "Infinity"
  | SpecFloat.S754_zero _ => "0.0"
  | SpecFloat.S754_finite s m e =>
      (if s then "-" else "") ++ renderTenths (nearestTenths m e)
  end.

(** [s.replace(/\.0$/, '')] *)
Fixpoint stripDotZero (s : string) : string :=
  match s with
  | EmptyString => EmptyString
  | String c rest =>
      if String.eqb s ".0" then EmptyString else String c (stripDotZero rest)
  end.

(** [formatNumber], on whole numbers (the counts the dashboard shows)
    and on strings. *)
Definition formatNumber (num : Z + string) : string :=
  let number := match num with
                | inl n => Some n
                | inr s => parseInt s
                end in
  match number with
  | None => "0"
  | Some n =>
      if (1000000 <=? n)%Z
      then stripDotZero (toFixed1 (PrimFloat.div (toDouble n) (toDouble 1000000))) ++ "M"
      else if (1000 <=? n)%Z
      then stripDotZero (toFixed1 (PrimFloat.div (toDouble n) (toDouble 1000))) ++ "K"
      else decimalZ n
  end.

End Helpers.

(** The abbreviation the specification describes: the scaled value to one
    decimal place (nearest tenth of [n / unit], computed on the integers),
    without a trailing [.0]. *)
Definition abbreviate (n unit : Z) : string :=
  let tenths := ((2 * 10 * n + unit) / (2 * unit))%Z in
  if (tenths mod 10 =? 0)%Z then decimalZ (tenths / 10)
  else decimalZ (tenths / 10) ++ "." ++ decimalZ (tenths mod 10).

(** ** Vocabulary of the properties *)

(** [w'] is [w] after exactly [n] more requests, all of them to the
    endpoint [e], with the same pool of keys. *)
Definition extends (e : Endpoint) (w w' : World) (n : nat) : Prop :=
  apiKeys w' = apiKeys w /\
  exists new, requests w' = requests w ++ new
              /\ length new = n
              /\ Forall (fun r => endpoint r = e) new.

(** The upstream answers every request with a quota-class rejection. *)
Definition alwaysQuota (net : Net) : Prop :=
  forall trace e q, exists d,
    net trace e q = HttpError (Ok d) /\ quotaClass (errorReason d) = true.

(** The reading of "any other non-success response fails immediately":
    a rejection whose reason is not quota-class ends the call with
    [UpstreamRequestFailed] and that one request. *)
Definition failsImmediately (net : Net) (e : Endpoint) (params : Params) (w : World) : Prop :=
  forall key w1 d,
    getNextApiKey w = (Ok key, w1) ->
    net (requests w1) e (query (request e params key)) = HttpError (Ok d) ->
    quotaClass (errorReason d) = false ->
    fetchYouTubeAPI net e params 0 w
    = (Throw (UpstreamRequestFailed (errorMessage d)), sent (request e params key) w1).

(** The canonical channel-ID shape: 24 characters, starting with [UC]. *)
Definition canonicalShape (identifier : string) : bool :=
  (String.length identifier =? 24) && String.prefix "UC" identifier.

(** The lookup by legacy username found nothing: it failed, or it
    answered without items. *)
Definition noMatch (r : Result (body channels)) : Prop :=
  match r with
  | Throw _ => True
  | Ok data => items data = None \/ items data = Some []
  end.

(** A search answer whose first result carries a channel identifier. *)
Definition firstChannel (data : body search) (id : jsstring) : Prop :=
  exists first rest s,
    items data = Some (first :: rest)
    /\ search_snippet first = Some s
    /\ channelId s = id
    /\ truthy id = true.

(** A search answer with nothing to use: no items, or a first result
    whose snippet has no channel identifier. *)
Definition nothingUsable (data : body search) : Prop :=
  items data = None \/ items data = Some []
  \/ exists first rest s,
       items data = Some (first :: rest)
       /\ search_snippet first = Some s
       /\ truthy (channelId s) = false.

(** Resolution falls back to the search: whenever the username lookup
    finds nothing, the outcome is the first channel of the search, or
    [ChannelNotFound] when the search has nothing to use. *)
Definition fallsBackToSearch (net : Net) (identifier : string) (w : World) : Prop :=
  forall r w1,
    call net channels (usernameParams identifier) w = (r, w1) ->
    noMatch r ->
    forall data w2,
      call net search (channelSearchParams identifier) w1 = (Ok data, w2) ->
      (forall id, firstChannel data id -> resolveChannelId net identifier w = (Ok id, w2))
      /\ (nothingUsable data -> resolveChannelId net identifier w = (Throw ChannelNotFound, w2)).

(** [s] is the first item of the page with the smallest publish
    timestamp: the items before it are younger, those after it are not
    older. *)
Definition firstOldest (dateTime : string -> option Z) (s : PlaylistSnippet)
  (page : list PlaylistSnippet) : Prop :=
  exists before after t,
    page = before ++ s :: after
    /\ getTime dateTime (publishedAt s) = Some t
    /\ (forall s', In s' before ->
          exists t', getTime dateTime (publishedAt s') = Some t' /\ (t < t')%Z)
    /\ (forall s', In s' after ->
          exists t', getTime dateTime (publishedAt s') = Some t' /\ (t <= t')%Z).

(** Every publish date of the page parses. *)
Definition validDates (dateTime : string -> option Z) (page : list PlaylistSnippet) : Prop :=
  Forall (fun s => exists t, getTime dateTime (publishedAt s) = Some t) page.

(** The thumbnail a video is shown with: the URL of the high one when it
    has one, else that of the default one; [None] when there is neither. *)
Definition chosenThumbnail (t : Thumbnails) : option jsstring :=
  match high t with
  | Some h => if truthy (url h) then Some (url h) else option_map url (default t)
  | None => option_map url (default t)
  end.

(** The video reported for an uploads item: its video id, date, title
    and description, the thumbnail chosen, and the three counts at ["0"]. *)
Definition videoOf (s : PlaylistSnippet) (r : ResourceId) (thumbnail : jsstring) : VideoStat :=
  {| stat_id := resource_videoId r;
     stat_publishedAt := publishedAt s;
     stat_title := title s;
     stat_description := description s;
     stat_thumbnailUrl := thumbnail;
     stat_viewCount := Some "0";
     stat_likeCount := Some "0";
     stat_commentCount := Some "0" |}.

(** The reading of "on success with a non-empty first page it returns
    the item with the smallest publish timestamp among that page, with the
    counts reported as 0": whenever the fetch succeeds with items, a video
    comes back, built from an item of the page that no other item
    precedes in time. *)
Definition returnsOldest (net : Net) (dateTime : string -> option Z)
  (engineSort : list PlaylistSnippet -> list PlaylistSnippet)
  (playlistId : string) (w : World) : Prop :=
  forall data w1 first rest,
    call net playlistItems (playlistParams playlistId) w = (Ok data, w1) ->
    items data = Some (first :: rest) ->
    exists i s v,
      In i (first :: rest)
      /\ snippet i = Some s
      /\ (forall i' s' t t',
            In i' (first :: rest) -> snippet i' = Some s' ->
            getTime dateTime (publishedAt s) = Some t ->
            getTime dateTime (publishedAt s') = Some t' ->
            (t <= t')%Z)
      /\ getOldestVideo net dateTime engineSort playlistId w = (Ok (Some v), w1)
      /\ stat_publishedAt v = publishedAt s
      /\ stat_title v = title s
      /\ stat_viewCount v = Some "0"
      /\ stat_likeCount v = Some "0"
      /\ stat_commentCount v = Some "0".





(** [toFixed(1)] of the double [n / 1000] shows [t] tenths. *)
Definition thousandsRoundTo (n t : Z) : bool :=
  match FloatOps.Prim2SF (PrimFloat.div (toDouble n) (toDouble 1000)) with
  | SpecFloat.S754_finite false m e => (nearestTenths m e =? t)%Z
  | _ => false
  end.

(** The same for the [count] numbers from [n] on. *)
Fixpoint checkRun (count : nat) (n t : Z) : bool :=
  match count with
  | 0 => true
  | S c => thousandsRoundTo n t && checkRun c (n + 1) t
  end.

(** For [count] numbers of tenths from [t] on: the 99 whole numbers
    strictly within half a tenth of [t / 10] thousands show [t] tenths. *)
Fixpoint checkTenths (count : nat) (t : Z) : bool :=
  match count with
  | 0 => true
  | S c => checkRun 99 (100 * t - 49) t && checkTenths c (t + 1)
  end.

(** ** Sample upstreams and pools *)

(** An engine that leaves a list it cannot order as it is. *)
Definition asServed (l : list PlaylistSnippet) : list PlaylistSnippet := l.

Definition emptyList (e : Endpoint) : body e := {| items := Some []; nextPageToken := None |}.

Definition rejection (why text : string) : ErrorData :=
  {| error := Some {| error_message := Some text;
                      errors := Some [{| reason := Some why |}] |} |}.

(** Every key is out of quota. *)
Definition quotaNet : Net :=
  fun _ _ _ => HttpError (Ok (rejection "quotaExceeded" "Quota exceeded."))%string.

(** The first request is refused for a reason that has nothing to do with
    quota; later ones succeed. *)
Definition forbiddenOnce : Net :=
  fun trace e _ =>
    match trace with
    | [] => HttpError (Ok (rejection "forbidden" "Access forbidden."))
    | _ => HttpOk (Ok (emptyList e))
    end.

Definition twoKeys : World := setApiKeys ["key-A"; "key-B"] initial.
Definition oneKey : World := setApiKeys ["key-A"] initial.

(** No channel has the username, one channel matches the search. *)
Definition handleNet : Net :=
  fun _ e _ =>
    match e as e0 return Response (body e0) with
    | search =>
        HttpOk (Ok {| items := Some [{| search_id := None;
                                        search_snippet :=
                                          Some {| channelId := Some "UC-found";
                                                  search_publishedAt := None;
                                                  search_title := None;
                                                  search_description := None;
                                                  search_thumbnails := None |} |}];
                      nextPageToken := None |})
    | e0 => HttpOk (Ok (emptyList e0))
    end.

(** Nothing matches, by username or by search. *)
Definition nobodyNet : Net := fun _ e _ => HttpOk (Ok (emptyList e)).

(** Timestamps written as decimal milliseconds, for the examples. *)
Definition millis (s : string) : option Z :=
  option_map (fun u => Z.of_nat (Nat.of_uint u)) (NilEmpty.uint_of_string s).

Definition uploadSnippet (id date : string) : PlaylistSnippet :=
  {| publishedAt := Some date;
     title := Some ("Video " ++ id)%string;
     description := Some "";
     thumbnails := Some {| high := None;
                           default := Some {| url := Some ("thumb/" ++ id)%string |} |};
     resourceId := Some {| resource_videoId := Some id |} |}.

Definition upload (id date : string) : PlaylistItem :=
  {| snippet := Some (uploadSnippet id date) |}.

(** An uploads collection of four videos on one page, not in
    chronological order. *)
Definition uploadsPage : list PlaylistItem :=
  [upload "a" "100"; upload "b" "900"; upload "c" "500"; upload "d" "450"].

Definition uploadsNet : Net :=
  fun _ e _ =>
    match e as e0 return Response (body e0) with
    | playlistItems => HttpOk (Ok {| items := Some uploadsPage; nextPageToken := None |})
    | e0 => HttpOk (Ok (emptyList e0))
    end.

(** The network is down. *)
Definition offlineNet : Net := fun _ _ _ => NetworkFailure (mkError "Failed to fetch").

(** ** Further vocabulary: the trace of one call *)

(** The requests of [n] successive attempts of one call started in [w]:
    attempt [i] carries the key at position [cursor + i], modulo the pool
    size. *)
Definition attemptsTrace (e : Endpoint) (params : Params) (w : World) (n : nat)
  : list Request :=
  map (fun i => request e params
                  (nth_error (apiKeys w)
                             ((currentKeyIndex w + i) mod length (apiKeys w))))
      (seq 0 n).

(** The module state after these [n] attempts. *)
Definition afterAttempts (e : Endpoint) (params : Params) (w : World) (n : nat) : World :=
  {| apiKeys := apiKeys w;
     currentKeyIndex := (currentKeyIndex w + n) mod length (apiKeys w);
     requests := requests w ++ attemptsTrace e params w n |}.

(** The upstream cannot be reached: every [fetch] rejects with [err]. *)
Definition unreachable (net : Net) (err : Error) : Prop :=
  forall trace e q, net trace e q = NetworkFailure err.

(** The invariant of the pool: the cursor points into the pool, or the
    pool is empty and the cursor is 0. *)
Definition poolInvariant (w : World) : Prop :=
  currentKeyIndex w < length (apiKeys w)
  \/ (apiKeys w = [] /\ currentKeyIndex w = 0).

(** [w'] is [w] after at most [bound] more requests, each to one of the
    [allowed] endpoints. *)
Definition costs (allowed : list Endpoint) (w w' : World) (bound : nat) : Prop :=
  exists new,
    requests w' = requests w ++ new
    /\ length new <= bound
    /\ Forall (fun r => In (endpoint r) allowed) new.

(** ** Statistics over a date range ([getChannelStatsForDateRange]) *)

(** [String(n)] for a whole number, [None] being [NaN]. *)
Definition numberToString (n : option Z) : string :=
  match n with
  | Some z => decimalZ z
  | None => "NaN"
  end.

Section DateRange.

Variable net : Net.

(** [new Date(s).toISOString()], the host's: the ISO instant of a date
    string, or the [RangeError] thrown for an invalid date. *)
Variable toISOString : string -> Result string.

(** [parseInt(s, 10)], the host's, as the double it returns ([NaN]
    included). *)
Variable parseInt : string -> PrimFloat.float.

(** [x.toString()] for a number, the host's. *)
Variable toString : PrimFloat.float -> string.

Record RangeStats := { range_viewCount : string; range_videoCount : string }.

(** The running totals: [totalViews], a double, and [totalVideos]. *)
Definition Totals : Type := (PrimFloat.float * nat)%type.

(** [item.statistics.viewCount || '0'] *)
Definition viewsText (st : Statistics) : string :=
  if truthy (viewCount st) then jsToString (viewCount st) else "0".

(** One step of the [forEach]:
    [totalViews += parseInt(item.statistics.viewCount || '0', 10); totalVideos++],
    the addition being that of the doubles. *)
Definition addVideo (acc : Totals) (i : VideoItem) : Result Totals :=
  match video_statistics i with
  | None => Throw TypeError
  | Some st => Ok (PrimFloat.add (fst acc) (parseInt (viewsText st)), S (snd acc))
  end.

(** [videosData.items.forEach(...)] *)
Fixpoint tally (acc : Totals) (l : list VideoItem) : Result Totals :=
  match l with
  | [] => Ok acc
  | i :: rest =>
      match addVideo acc i with
      | Throw e => Throw e
      | Ok acc' => tally acc' rest
      end
  end.

(** The search parameters of one batch. *)
Definition rangeSearchParams (channelId publishedAfter publishedBefore : string)
  (pageToken : jsstring) : Params :=
  withPageToken pageToken
    [("part", "id"); ("channelId", channelId); ("maxResults", "50");
     ("order", "date"); ("type", "video");
     ("publishedAfter", publishedAfter); ("publishedBefore", publishedBefore)].

(** The body of the [do ... while (nextPageToken)] loop after the search
    parameters are built: the search, the hydration when there are ids,
    the totals. *)
Definition rangeBatch (params : Params) (acc : Totals) : M (Totals * jsstring) :=
  (searchData <- call net search params ;;
   found <- lift (match items searchData with
                  | None => Throw TypeError
                  | Some l => mapM searchVideoId l
                  end) ;;
   let videoIds := join found in
   if String.eqb videoIds "" then ret (acc, nextPageToken searchData)
   else
     videosData <- call net videos [("part", "statistics"); ("id", videoIds)] ;;
     acc' <- lift (match items videosData with
                   | None => Throw TypeError
                   | Some l => tally acc l
                   end) ;;
     ret (acc', nextPageToken searchData))%js.

(** The loop, with one unit of fuel per batch; [None] means the fuel ran
    out with batches left. *)
Fixpoint rangeLoop (fuel : nat) (channelId startDate endDate : string) (acc : Totals)
  (pageToken : jsstring) (w : World) : option (Result Totals * World) :=
  match fuel with
  | 0 => None
  | S fuel' =>
      match toISOString startDate with
      | Throw e => Some (Throw e, w)
      | Ok publishedAfter =>
          match toISOString endDate with
          | Throw e => Some (Throw e, w)
          | Ok publishedBefore =>
              match rangeBatch (rangeSearchParams channelId publishedAfter publishedBefore
                                                  pageToken) acc w with
              | (Throw e, w1) => Some (Throw e, w1)
              | (Ok (acc', next), w1) =>
                  if truthy next
                  then rangeLoop fuel' channelId startDate endDate acc' next w1
                  else Some (Ok acc', w1)
              end
          end
      end
  end.

Definition getChannelStatsForDateRange (fuel : nat) (channelId startDate endDate : string)
  (w : World) : option (Result RangeStats * World) :=
  match rangeLoop fuel channelId startDate endDate (toDouble 0, 0) None w with
  | None => None
  | Some (Throw e, w') => Some (Throw e, w')
  | Some (Ok (views, count), w') =>
      Some (Ok {| range_viewCount := toString views;
                  range_videoCount := decimal count |}, w')
  end.

(** *** The newest video of a range ([getNewestVideoInRange]) *)

Definition newestSearchParams (channelId publishedAfter publishedBefore : string) : Params :=
  [("part", "snippet"); ("channelId", channelId); ("maxResults", "1");
   ("order", "date"); ("type", "video");
   ("publishedAfter", publishedAfter); ("publishedBefore", publishedBefore)].

(** The [VideoStat] built from a search result; the counts are not
    available from this endpoint. *)
Definition videoStatOfHit (i : SearchItem) : Result VideoStat :=
  match search_id i with
  | None => Throw TypeError
  | Some d =>
      match search_snippet i with
      | None => Throw TypeError
      | Some s =>
          match search_thumbnails s with
          | None => Throw TypeError
          | Some t =>
              match high t with
              | None => Throw TypeError
              | Some h =>
                  Ok {| stat_id := videoId d;
                        stat_publishedAt := search_publishedAt s;
                        stat_title := search_title s;
                        stat_description := search_description s;
                        stat_thumbnailUrl := url h;
                        stat_viewCount := Some "0";
                        stat_likeCount := Some "0";
                        stat_commentCount := Some "0" |}
              end
          end
      end
  end.

Definition getNewestVideoInRange (channelId : string) (startDate endDate : jsstring)
  : M (option VideoStat) :=
  if negb (truthy startDate) || negb (truthy endDate)
  then (data <- getChannelVideos net channelId 1 None ;;
        ret (hd_error (page_videos data)))%js
  else
    match toISOString (jsToString startDate) with
    | Throw e => throw e
    | Ok publishedAfter =>
        match toISOString (jsToString endDate) with
        | Throw e => throw e
        | Ok publishedBefore =>
            (searchData <- call net search
                             (newestSearchParams channelId publishedAfter publishedBefore) ;;
             match items searchData with
             | Some (first :: _) =>
                 video <- lift (videoStatOfHit first) ;; ret (Some video)
             | _ => ret None
             end)%js
        end
    end.

(** The hydration of a list of ids: nothing and no request when the
    joined ids are empty, else the items of a successful [videos] call. *)
Inductive hydrated : list jsstring -> World -> list VideoItem -> World -> Prop :=
| hydrated_none (ids : list jsstring) (w : World) :
    join ids = "" ->
    hydrated ids w [] w
| hydrated_some (ids : list jsstring) (w w' : World) (videosData : body videos)
    (page : list VideoItem) :
    join ids <> "" ->
    call net videos [("part", "statistics"); ("id", join ids)] w = (Ok videosData, w') ->
    items videosData = Some page ->
    hydrated ids w page w'.

(** The batches upstream delivers from a page token on, each with the
    [videos] items its hydration yields (none when the search page has no
    ids), up to the first search page without a next-page token. *)
Inductive batches (channelId publishedAfter publishedBefore : string)
  : jsstring -> World -> list (list VideoItem) -> World -> Prop :=
| batches_last (token : jsstring) (w w1 w2 : World) (searchData : body search)
    (hits : list SearchItem) (ids : list jsstring) (page : list VideoItem) :
    call net search (rangeSearchParams channelId publishedAfter publishedBefore token) w
    = (Ok searchData, w1) ->
    items searchData = Some hits ->
    mapM searchVideoId hits = Ok ids ->
    hydrated ids w1 page w2 ->
    truthy (nextPageToken searchData) = false ->
    batches channelId publishedAfter publishedBefore token w [page] w2
| batches_next (token : jsstring) (w w1 w2 w' : World) (searchData : body search)
    (hits : list SearchItem) (ids : list jsstring) (page : list VideoItem)
    (pages : list (list VideoItem)) :
    call net search (rangeSearchParams channelId publishedAfter publishedBefore token) w
    = (Ok searchData, w1) ->
    items searchData = Some hits ->
    mapM searchVideoId hits = Ok ids ->
    hydrated ids w1 page w2 ->
    truthy (nextPageToken searchData) = true ->
    batches channelId publishedAfter publishedBefore (nextPageToken searchData) w2 pages w' ->
    batches channelId publishedAfter publishedBefore token w (page :: pages) w'.

(** The views of the items added to [total] one after the other, as
    doubles, in the order of the list (an absent or empty count is read as
    ["0"]); items without statistics add nothing. *)
Definition addViews (total : PrimFloat.float) (l : list VideoItem) : PrimFloat.float :=
  fold_left (fun sum i => match video_statistics i with
                          | Some st => PrimFloat.add sum (parseInt (viewsText st))
                          | None => sum
                          end) l total.

(** The sum from 0. *)
Definition sumViews (l : list VideoItem) : PrimFloat.float := addViews (toDouble 0) l.

End DateRange.

(** A channel with two videos in the range, served as one batch with ids
    followed by an empty last batch; the second video has no view count. *)
Definition rangeHits : list SearchItem :=
  [{| search_id := Some {| videoId := Some "v1" |}; search_snippet := None |};
   {| search_id := Some {| videoId := Some "v2" |}; search_snippet := None |}].

Definition rangeVideos : list VideoItem :=
  [{| video_id := Some "v1"; video_snippet := None;
      video_statistics := Some {| viewCount := Some "1200";
                                  likeCount := None; commentCount := None |} |};
   {| video_id := Some "v2"; video_snippet := None;
      video_statistics := Some {| viewCount := None;
                                  likeCount := None; commentCount := None |} |}].

Definition rangeNet : Net :=
  fun _ e q =>
    match e as e0 return Response (body e0) with
    | search =>
        if existsb (fun kv => String.eqb (fst kv) "pageToken") q
        then HttpOk (Ok {| items := Some []; nextPageToken := None |})
        else HttpOk (Ok {| items := Some rangeHits; nextPageToken := Some "page-2" |})
    | videos => HttpOk (Ok {| items := Some rangeVideos; nextPageToken := None |})
    | e0 => HttpOk (Ok (emptyList e0))
    end.

(** A host that takes every date string for its own ISO instant. *)
Definition sameInstant (s : string) : Result string := Ok s.

(** A host that rejects every date string. *)
Definition invalidDate (s : string) : Result string := Throw (mkError "Invalid time value").

(** ** Identifier extraction ([extractChannelId], [src/utils/helpers.ts]) *)

(** The regular expressions of [extractChannelId] use literals, optional
    parts, character classes repeated a fixed number of times or at least
    once, one capture group and the two anchors. *)
Inductive Regex :=
| Lit (s : string)
| Opt (r : Regex)
| Cat (r1 r2 : Regex)
| Exactly (n : nat) (class : ascii -> bool)
| Many1 (class : ascii -> bool)
| Group (r : Regex)
| Bol
| Eol.

(** The rest of [s] after the literal [lit], when [s] starts with it. *)
Fixpoint dropPrefix (lit s : string) : option string :=
  match lit, s with
  | EmptyString, _ => Some s
  | String a lit', String b s' => if Ascii.eqb a b then dropPrefix lit' s' else None
  | String _ _, EmptyString => None
  end.

(** The rest of [s] after exactly [n] characters of the class. *)
Fixpoint takeExactly (n : nat) (class : ascii -> bool) (s : string) : option string :=
  match n, s with
  | 0, _ => Some s
  | S n', String c s' => if class c then takeExactly n' class s' else None
  | S _, EmptyString => None
  end.

(** [[class]+], greedy: the longest run first, then shorter ones while
    the continuation fails. *)
Fixpoint many1 {A} (class : ascii -> bool) (pos : nat) (s : string)
  (k : nat -> string -> option A) : option A :=
  match s with
  | EmptyString => None
  | String c s' =>
      if class c
      then match many1 class (S pos) s' k with
           | Some a => Some a
           | None => k (S pos) s'
           end
      else None
  end.

(** A backtracking matcher: [run r pos s cap k] matches [r] at position
    [pos], where [s] is the text from [pos] on and [cap] the capture so
    far, and hands the position, the remaining text and the capture to the
    continuation [k]; alternatives are tried in the order of the engine
    (an optional part first with, then without; a repetition from the
    longest). *)
Fixpoint run (r : Regex) (pos : nat) (s : string) (cap : option string)
  (k : nat -> string -> option string -> option (option string)) {struct r}
  : option (option string) :=
  match r with
  | Lit lit =>
      match dropPrefix lit s with
      | Some rest => k (pos + String.length lit) rest cap
      | None => None
      end
  | Opt r' =>
      match run r' pos s cap k with
      | Some m => Some m
      | None => k pos s cap
      end
  | Cat r1 r2 => run r1 pos s cap (fun pos' s' cap' => run r2 pos' s' cap' k)
  | Exactly n class =>
      match takeExactly n class s with
      | Some rest => k (pos + n) rest cap
      | None => None
      end
  | Many1 class => many1 class pos s (fun pos' s' => k pos' s' cap)
  | Group r' =>
      run r' pos s cap (fun pos' s' _ => k pos' s' (Some (substring 0 (pos' - pos) s)))
  | Bol => if pos =? 0 then k pos s cap else None
  | Eol => match s with
           | EmptyString => k pos s cap
           | String _ _ => None
           end
  end.

(** The search of [s.match(r)] from position [pos] on, leftmost start
    first; the result is [match[1]]. *)
Fixpoint matchFrom (r : Regex) (pos : nat) (s : string) : option (option string) :=
  match run r pos s None (fun _ _ cap => Some cap) with
  | Some m => Some m
  | None =>
      match s with
      | EmptyString => None
      | String _ rest => matchFrom r (S pos) rest
      end
  end.

(** [s.match(r)], reduced to its first group: [None] is [null]. *)
Definition regexMatch (r : Regex) (s : string) : option (option string) := matchFrom r 0 s.

Definition inRangeAscii (lo hi c : ascii) : bool :=
  (nat_of_ascii lo <=? nat_of_ascii c) && (nat_of_ascii c <=? nat_of_ascii hi).

(** [[a-zA-Z0-9_-]] *)
Definition idChar (c : ascii) : bool :=
  inRangeAscii "a" "z" c || inRangeAscii "A" "Z" c || inRangeAscii "0" "9" c
  || Ascii.eqb c "_" || Ascii.eqb c "-".

(** [[a-zA-Z0-9_.-]] *)
Definition handleChar (c : ascii) : bool :=
  inRangeAscii "a" "z" c || inRangeAscii "A" "Z" c || inRangeAscii "0" "9" c
  || Ascii.eqb c "_" || Ascii.eqb c "." || Ascii.eqb c "-".

(** [(?:https?:\/\/)?(?:www\.)?] followed by a literal and the group. *)
Definition urlPattern (literal : string) (group : Regex) : Regex :=
  Cat (Opt (Cat (Lit "http") (Cat (Opt (Lit "s")) (Lit "://"))))
      (Cat (Opt (Lit "www."))
           (Cat (Lit literal) (Group group))).

(** The six patterns, in the order of the source. *)
Definition patterns : list Regex :=
  [urlPattern "youtube.com/channel/" (Exactly 24 idChar);
   urlPattern "youtube.com/c/" (Many1 idChar);
   urlPattern "youtube.com/user/" (Many1 idChar);
   urlPattern "youtube.com/@" (Many1 handleChar);
   Cat Bol (Cat (Group (Exactly 24 idChar)) Eol);
   Cat Bol (Cat (Lit "@") (Cat (Group (Many1 handleChar)) Eol))].

(** The [for] loop over the patterns: the first group of the first
    pattern that matches with a non-empty group. *)
Fixpoint firstCapture (ps : list Regex) (s : string) : option string :=
  match ps with
  | [] => None
  | p :: rest =>
      match regexMatch p s with
      | Some (Some c) => if truthy (Some c) then Some c else firstCapture rest s
      | _ => firstCapture rest s
      end
  end.

Section Extraction.

(** [s.trim()], the host's. *)
Variable trim : string -> string.

Definition extractChannelId (input : string) : option string :=
  if String.eqb input "" then None
  else
    let trimmedInput := trim input in
    match firstCapture patterns trimmedInput with
    | Some id => Some id
    | None =>
        if negb (includes trimmedInput "/") && negb (String.prefix "UC" trimmedInput)
        then Some trimmedInput
        else None
    end.

End Extraction.

(** Every character of [s] is in the class. *)
Fixpoint allClass (class : ascii -> bool) (s : string) : bool :=
  match s with
  | EmptyString => true
  | String c s' => class c && allClass class s'
  end.

(** A bare channel id: 24 characters of [[a-zA-Z0-9_-]]. *)
Definition isId24 (s : string) : bool :=
  (String.length s =? 24) && allClass idChar s.

(** The handle of a bare [@handle], when [s] is one. *)
Definition bareHandle (s : string) : option string :=
  match s with
  | String "@" h => if allClass handleChar h && negb (String.eqb h "") then Some h else None
  | _ => None
  end.

(** [s'] is what remains of [s] after some prefix. *)
Definition suffixOf (s' s : string) : Prop := exists pre, s = (pre ++ s')%string.

(** The schemes a channel URL can start with at the first position of the
    text. *)
Definition schemes : list string :=
  [""; "www."; "http://"; "https://"; "http://www."; "https://www."].

(** * The dashboard ([App.tsx] and its components) *)

(** ** Shared types ([types.ts], as [getChannelStats] and [App] build them) *)

Module Types.

Record ChannelStats := {
  id : string;
  title : string;
  description : string;
  customUrl : string;
  publishedAt : string;
  thumbnailUrl : string;
  subscriberCount : string;
  videoCount : string;
  viewCount : string;
  uploadsPlaylistId : string }.

Record ChannelGroup := {
  groupId : string;
  groupName : string;
  channelIds : list string }.

Inductive SortOrder := byDate | byViewCount | byLikeCount.

Inductive View := multi | single | comparison.

End Types.

(** ** Key display ([ApiKeyManager.tsx]) *)

(** [s.substring(from)] *)
Definition substringFrom (from : nat) (s : string) : string :=
  substring from (String.length s - from) s.

Definition maskApiKey (key : string) : string :=
  if String.length key <? 8 then "***"
  else (substring 0 4 key ++ "..." ++ substringFrom (String.length key - 4) key)%string.

(** ** Settings: keys, channels and groups, and their persistence *)

Module Settings.

Import Types.

(** [localStorage]: the last value written under a key is the one read. *)
Definition Storage := list (string * string).

Fixpoint getItem (key : string) (store : Storage) : option string :=
  match store with
  | [] => None
  | (k, v) :: rest => if String.eqb k key then Some v else getItem key rest
  end.

Definition setItem (key value : string) (store : Storage) : Storage :=
  (key, value) :: store.

(** The state variables of [App] that the settings handlers read and
    write, with [localStorage] and the state of the service module. *)
Record State := {
  apiKeysState : list string;
  trackedChannels : list ChannelStats;
  channelGroups : list ChannelGroup;
  videosPerPage : option Z;
  error : string;
  isSettingsOpen : bool;
  isLoading : bool;
  localStorage : Storage;
  service : World }.

(** The component before its mount effect has run. *)
Definition start (storage : Storage) : State :=
  {| apiKeysState := [];
     trackedChannels := [];
     channelGroups := [];
     videosPerPage := Some 12%Z;
     error := "";
     isSettingsOpen := false;
     isLoading := true;
     localStorage := storage;
     service := initial |}.

Definition withKeys (keys : list string) (s : State) : State :=
  {| apiKeysState := keys;
     trackedChannels := trackedChannels s;
     channelGroups := channelGroups s;
     videosPerPage := videosPerPage s;
     error := error s;
     isSettingsOpen := isSettingsOpen s;
     isLoading := isLoading s;
     localStorage := localStorage s;
     service := setApiKeys keys (service s) |}.

Definition setTrackedChannels (cs : list ChannelStats) (s : State) : State :=
  {| apiKeysState := apiKeysState s;
     trackedChannels := cs;
     channelGroups := channelGroups s;
     videosPerPage := videosPerPage s;
     error := error s;
     isSettingsOpen := isSettingsOpen s;
     isLoading := isLoading s;
     localStorage := localStorage s;
     service := service s |}.

Definition setChannelGroups (gs : list ChannelGroup) (s : State) : State :=
  {| apiKeysState := apiKeysState s;
     trackedChannels := trackedChannels s;
     channelGroups := gs;
     videosPerPage := videosPerPage s;
     error := error s;
     isSettingsOpen := isSettingsOpen s;
     isLoading := isLoading s;
     localStorage := localStorage s;
     service := service s |}.

Definition setVideosPerPage (n : option Z) (s : State) : State :=
  {| apiKeysState := apiKeysState s;
     trackedChannels := trackedChannels s;
     channelGroups := channelGroups s;
     videosPerPage := n;
     error := error s;
     isSettingsOpen := isSettingsOpen s;
     isLoading := isLoading s;
     localStorage := localStorage s;
     service := service s |}.

Definition setError (text : string) (s : State) : State :=
  {| apiKeysState := apiKeysState s;
     trackedChannels := trackedChannels s;
     channelGroups := channelGroups s;
     videosPerPage := videosPerPage s;
     error := text;
     isSettingsOpen := isSettingsOpen s;
     isLoading := isLoading s;
     localStorage := localStorage s;
     service := service s |}.

Definition setIsSettingsOpen (b : bool) (s : State) : State :=
  {| apiKeysState := apiKeysState s;
     trackedChannels := trackedChannels s;
     channelGroups := channelGroups s;
     videosPerPage := videosPerPage s;
     error := error s;
     isSettingsOpen := b;
     isLoading := isLoading s;
     localStorage := localStorage s;
     service := service s |}.

Definition setIsLoading (b : bool) (s : State) : State :=
  {| apiKeysState := apiKeysState s;
     trackedChannels := trackedChannels s;
     channelGroups := channelGroups s;
     videosPerPage := videosPerPage s;
     error := error s;
     isSettingsOpen := isSettingsOpen s;
     isLoading := b;
     localStorage := localStorage s;
     service := service s |}.

Definition store (key value : string) (s : State) : State :=
  {| apiKeysState := apiKeysState s;
     trackedChannels := trackedChannels s;
     channelGroups := channelGroups s;
     videosPerPage := videosPerPage s;
     error := error s;
     isSettingsOpen := isSettingsOpen s;
     isLoading := isLoading s;
     localStorage := setItem key value (localStorage s);
     service := service s |}.

(** [localStorage.getItem(key)] where the code tests it for truthiness:
    a missing entry and the empty string are both skipped. *)
Definition saved (key : string) (s : State) : option string :=
  match getItem key (localStorage s) with
  | Some v => if truthy (Some v) then Some v else None
  | None => None
  end.

(** The statements of a [try] block that only change the state: they run
    in order until one throws; the state reached and the error come out. *)
Fixpoint tryAll (steps : list (State -> Result State)) (s : State) : State * option Error :=
  match steps with
  | [] => (s, None)
  | step :: rest =>
      match step s with
      | Ok s' => tryAll rest s'
      | Throw e => (s, Some e)
      end
  end.

(** What the modal hands to [onSave]: [id] is [existingGroup?.id]. *)
Record GroupData := {
  data_id : jsstring;
  data_name : string;
  data_channelIds : list string }.

Section Host.

(** The keys compiled into the application (five in the source). *)
Variable DEFAULT_API_KEYS : list string.

(** [JSON.parse], the host's, at the three types the code reads its
    result at.  For the keys the result is tested with [Array.isArray]:
    [None] is a value that is not an array. *)
Variable parseKeys : string -> Result (option (list string)).
Variable parseChannels : string -> Result (list ChannelStats).
Variable parseGroups : string -> Result (list ChannelGroup).

(** [parseInt(s, 10)]: [None] is [NaN]. *)
Variable parseInt : string -> option Z.

(** [JSON.stringify], at the three types the code applies it to. *)
Variable stringifyKeys : list string -> string.
Variable stringifyChannels : list ChannelStats -> string.
Variable stringifyGroups : list ChannelGroup -> string.

(** [s.trim()] *)
Variable trim : string -> string.

Definition loadKeys (s : State) : Result State :=
  match (match saved "youtubeApiKeys" s with
         | Some savedApiKeys => parseKeys savedApiKeys
         | None => Ok (Some DEFAULT_API_KEYS)
         end) with
  | Throw e => Throw e
  | Ok (Some (key :: keys)) => Ok (withKeys (key :: keys) s)
  | Ok _ => Ok (setIsSettingsOpen true (withKeys DEFAULT_API_KEYS s))
  end.

Definition loadChannels (s : State) : Result State :=
  match saved "youtubeTrackedChannels" s with
  | Some savedChannels =>
      match parseChannels savedChannels with
      | Ok cs => Ok (setTrackedChannels cs s)
      | Throw e => Throw e
      end
  | None => Ok s
  end.

Definition loadGroups (s : State) : Result State :=
  match saved "youtubeChannelGroups" s with
  | Some savedGroups =>
      match parseGroups savedGroups with
      | Ok gs => Ok (setChannelGroups gs s)
      | Throw e => Throw e
      end
  | None => Ok s
  end.

Definition loadVideosPerPage (s : State) : Result State :=
  match saved "youtubeVideosPerPage" s with
  | Some savedVideosPerPage => Ok (setVideosPerPage (parseInt savedVideosPerPage) s)
  | None => Ok s
  end.

(** The mount effect: [try { ... } catch { setError } finally { setIsLoading(false) }]. *)
Definition mount (s : State) : State :=
  let (reached, thrown) := tryAll [loadKeys; loadChannels; loadGroups; loadVideosPerPage] s in
  setIsLoading false
    match thrown with
    | Some _ => setError "Could not load saved settings." reached
    | None => reached
    end.

Definition handleApiKeysChange (newKeys : list string) (s : State) : State :=
  store "youtubeApiKeys" (stringifyKeys newKeys) (withKeys newKeys s).

Definition handleVideosPerPageChange (newValue : option Z) (s : State) : State :=
  store "youtubeVideosPerPage" (numberToString newValue) (setVideosPerPage newValue s).

(** *** [ApiKeyManager]: [newKey] is the text of its input field, the
    pool is the [apiKeys] prop and [onApiKeysChange] is
    [handleApiKeysChange]. *)

Definition handleAddKey (newKey : string) (s : State) : string * State :=
  let trimmedKey := trim newKey in
  if truthy (Some trimmedKey) && negb (existsb (String.eqb trimmedKey) (apiKeysState s))
  then ("", handleApiKeysChange (apiKeysState s ++ [trimmedKey]) s)
  else (newKey, s).

Definition handleRemoveKey (keyToRemove : string) (s : State) : State :=
  handleApiKeysChange (filter (fun k => negb (String.eqb k keyToRemove)) (apiKeysState s)) s.

(** *** Channels and groups *)

Definition withoutChannel (channelId : string) (g : ChannelGroup) : ChannelGroup :=
  {| groupId := groupId g;
     groupName := groupName g;
     channelIds := filter (fun i => negb (String.eqb i channelId)) (channelIds g) |}.

Definition handleRemoveChannel (channelId : string) (s : State) : State :=
  let updatedChannels :=
    filter (fun c => negb (String.eqb (id c) channelId)) (trackedChannels s) in
  let updatedGroups := map (withoutChannel channelId) (channelGroups s) in
  store "youtubeChannelGroups" (stringifyGroups updatedGroups)
    (setChannelGroups updatedGroups
       (store "youtubeTrackedChannels" (stringifyChannels updatedChannels)
          (setTrackedChannels updatedChannels s))).

(** [now] is [Date.now()]. *)
Definition handleSaveGroup (now : nat) (groupData : GroupData) (s : State) : State :=
  let updatedGroups :=
    if truthy (data_id groupData)
    then map (fun g => if String.eqb (groupId g) (jsToString (data_id groupData))
                       then {| groupId := groupId g;
                               groupName := data_name groupData;
                               channelIds := data_channelIds groupData |}
                       else g)
             (channelGroups s)
    else channelGroups s ++ [{| groupId := ("group-" ++ decimal now)%string;
                                groupName := data_name groupData;
                                channelIds := data_channelIds groupData |}] in
  store "youtubeChannelGroups" (stringifyGroups updatedGroups)
    (setChannelGroups updatedGroups s).

Definition handleDeleteGroup (group : string) (s : State) : State :=
  let updatedGroups :=
    filter (fun g => negb (String.eqb (groupId g) group)) (channelGroups s) in
  store "youtubeChannelGroups" (stringifyGroups updatedGroups)
    (setChannelGroups updatedGroups s).

(** *** [GroupSettingsModal] *)

(** [new Set(xs)]: the first occurrences, in order. *)
Fixpoint newSet (xs : list string) : list string :=
  match xs with
  | [] => []
  | x :: rest => x :: filter (fun y => negb (String.eqb y x)) (newSet rest)
  end.

(** The state of the modal: the name typed and the set of selected ids,
    in insertion order. *)
Record Modal := { name : string; selectedChannelIds : list string }.

(** The effect that runs when the modal opens. *)
Definition opened (existingGroup : option ChannelGroup) : Modal :=
  match existingGroup with
  | Some g => {| name := groupName g; selectedChannelIds := newSet (channelIds g) |}
  | None => {| name := ""; selectedChannelIds := [] |}
  end.

Definition handleToggleChannel (channelId : string) (m : Modal) : Modal :=
  {| name := name m;
     selectedChannelIds :=
       if existsb (String.eqb channelId) (selectedChannelIds m)
       then filter (fun i => negb (String.eqb i channelId)) (selectedChannelIds m)
       else selectedChannelIds m ++ [channelId] |}.

(** [handleSave]: what is handed to [onSave], if anything. *)
Definition handleSave (existingGroup : option ChannelGroup) (m : Modal) : option GroupData :=
  if truthy (Some (trim (name m)))
  then Some {| data_id := option_map groupId existingGroup;
               data_name := trim (name m);
               data_channelIds := selectedChannelIds m |}
  else None.

End Host.

(** Every group refers to tracked channels only. *)
Definition groupsTracked (s : State) : Prop :=
  forall g i, In g (channelGroups s) -> In i (channelIds g) ->
              exists c, In c (trackedChannels s) /\ id c = i.

(** The service holds the pool the component shows. *)
Definition serviceInSync (s : State) : Prop :=
  apiKeys (service s) = apiKeysState s /\ currentKeyIndex (service s) = 0.

End Settings.

(** ** The single-channel view ([handleSelectChannel], [handleLoadMore]) *)

Module SingleView.

Import Types.

Record SelectedChannelData := {
  stats : ChannelStats;
  videos : list VideoStat;
  pageToken : jsstring }.

(** The state variables the two handlers write. *)
Record State := {
  view : View;
  selectedChannel : option SelectedChannelData;
  isLoadingVideos : bool;
  isLoadingMore : bool;
  error : string;
  sortOrder : SortOrder }.

(** [err.message || fallback] *)
Definition messageOr (fallback : string) (err : Error) : string :=
  if truthy (Some (message err)) then message err else fallback.

Section Handlers.

Variable net : Net.

(** The values the callbacks close over. *)
Variable trackedChannels : list ChannelStats.
Variable videosPerPage : nat.

Definition handleSelectChannel (channelId : string) (s : State) (w : World) : State * World :=
  match find (fun c => String.eqb (id c) channelId) trackedChannels with
  | None => (s, w)
  | Some found =>
      match getChannelVideos net (id found) videosPerPage None w with
      | (Ok videoData, w') =>
          ({| view := single;
              selectedChannel := Some {| stats := found;
                                         videos := page_videos videoData;
                                         pageToken := page_nextPageToken videoData |};
              isLoadingVideos := false;
              isLoadingMore := isLoadingMore s;
              error := "";
              sortOrder := byDate |}, w')
      | (Throw err, w') =>
          ({| view := multi;
              selectedChannel := None;
              isLoadingVideos := false;
              isLoadingMore := isLoadingMore s;
              error := messageOr "An unknown error occurred." err;
              sortOrder := byDate |}, w')
      end
  end.

Definition handleLoadMore (s : State) (w : World) : State * World :=
  match selectedChannel s with
  | None => (s, w)
  | Some selected =>
      if negb (truthy (pageToken selected)) || isLoadingMore s then (s, w)
      else
        match getChannelVideos net (id (stats selected)) videosPerPage (pageToken selected) w with
        | (Ok videoData, w') =>
            ({| view := view s;
                selectedChannel :=
                  Some {| stats := stats selected;
                          videos := videos selected ++ page_videos videoData;
                          pageToken := page_nextPageToken videoData |};
                isLoadingVideos := isLoadingVideos s;
                isLoadingMore := false;
                error := "";
                sortOrder := sortOrder s |}, w')
        | (Throw err, w') =>
            ({| view := view s;
                selectedChannel := selectedChannel s;
                isLoadingVideos := isLoadingVideos s;
                isLoadingMore := false;
                error := messageOr "An unknown error occurred while loading more videos." err;
                sortOrder := sortOrder s |}, w')
        end
  end.

End Handlers.

End SingleView.

(** Sample states of the dashboard. *)
Definition channelWithId (i : string) : Types.ChannelStats :=
  {| Types.id := i; Types.title := ""; Types.description := ""; Types.customUrl := "";
     Types.publishedAt := ""; Types.thumbnailUrl := ""; Types.subscriberCount := "0";
     Types.videoCount := "0"; Types.viewCount := "0"; Types.uploadsPlaylistId := "" |}.

Definition rivals : Types.ChannelGroup :=
  {| Types.groupId := "group-1"; Types.groupName := "Rivals";
     Types.channelIds := ["UC-a"; "UC-b"] |}.

Definition threeChannels : Settings.State :=
  Settings.setChannelGroups [rivals]
    (Settings.setTrackedChannels (map channelWithId ["UC-a"; "UC-b"; "UC-c"])
       (Settings.start [])).

(** A video as [getChannelVideos] needs it, and the [VideoStat] it gives. *)
Definition videoSample (id views : string) : VideoItem :=
  {| video_id := Some id;
     video_snippet :=
       Some {| video_publishedAt := Some "2024-01-01T00:00:00Z";
               video_title := Some ("Video " ++ id)%string;
               video_description := Some "";
               video_thumbnails :=
                 Some {| high := Some {| url := Some ("thumb/" ++ id)%string |};
                         default := None |} |};
     video_statistics :=
       Some {| viewCount := Some views; likeCount := Some "1"; commentCount := Some "0" |} |}.

Definition videoStatSample (id views : string) : VideoStat :=
  {| stat_id := Some id;
     stat_publishedAt := Some "2024-01-01T00:00:00Z";
     stat_title := Some ("Video " ++ id)%string;
     stat_description := Some "";
     stat_thumbnailUrl := Some ("thumb/" ++ id)%string;
     stat_viewCount := Some views;
     stat_likeCount := Some "1";
     stat_commentCount := Some "0" |}.

(** Every search finds v1 and v2 and announces a further page; the
    videos endpoint knows both. *)
Definition pageNet : Net :=
  fun _ e _ =>
    match e as e0 return Response (body e0) with
    | search => HttpOk (Ok {| items := Some rangeHits; nextPageToken := Some "page-2" |})
    | videos => HttpOk (Ok {| items := Some [videoSample "v1" "10"; videoSample "v2" "20"];
                              nextPageToken := None |})
    | e0 => HttpOk (Ok (emptyList e0))
    end.

(** The page [pageNet] serves. *)
Definition pageSample : VideoPage :=
  {| page_videos := [videoStatSample "v1" "10"; videoStatSample "v2" "20"];
     page_nextPageToken := Some "page-2" |}.

(** A channel shown with one video and a token for more. *)
Definition selectedWithVideo : SingleView.SelectedChannelData :=
  {| SingleView.stats := channelWithId "UC-a";
     SingleView.videos := [videoStatSample "v0" "5"];
     SingleView.pageToken := Some "page-1" |}.

Definition watchingOne : SingleView.State :=
  {| SingleView.view := Types.single;
     SingleView.selectedChannel := Some selectedWithVideo;
     SingleView.isLoadingVideos := false;
     SingleView.isLoadingMore := false;
     SingleView.error := "";
     SingleView.sortOrder := Types.byDate |}.

(** The settings of a session whose rotation has reached the second key. *)
Definition midRotation : Settings.State :=
  {| Settings.apiKeysState := ["key-A"; "key-B"];
     Settings.trackedChannels := [];
     Settings.channelGroups := [];
     Settings.videosPerPage := Some 12%Z;
     Settings.error := "";
     Settings.isSettingsOpen := false;
     Settings.isLoading := false;
     Settings.localStorage := [];
     Settings.service := snd (getNextApiKey twoKeys) |}.

(** ** Relative time ([formatRelativeTime], [src/utils/helpers.ts]) *)

(** The double holding a whole number of either sign, within the safe
    integers. *)
Definition ofZ (z : Z) : PrimFloat.float :=
  if (z <? 0)%Z then PrimFloat.opp (toDouble (- z)) else toDouble z.

(** [Math.floor], from the exact value [m * 2^e] of the double. *)
Definition mathFloor (x : PrimFloat.float) : PrimFloat.float :=
  match FloatOps.Prim2SF x with
  | SpecFloat.S754_finite s m (Zneg p) =>
      let q := Z.shiftr (Z.pos m) (Z.pos p) in
      if s
      then if (Z.shiftl q (Z.pos p) =? Z.pos m)%Z then ofZ (- q) else ofZ (- (q + 1))
      else ofZ q
  | _ => x
  end.

(** The whole number a double holds, when it is finite and whole. *)
Definition wholeValue (x : PrimFloat.float) : option Z :=
  match FloatOps.Prim2SF x with
  | SpecFloat.S754_zero _ => Some 0%Z
  | SpecFloat.S754_finite s m e =>
      let magnitude := match e with
                       | Zneg p => Z.shiftr (Z.pos m) (Z.pos p)
                       | _ => Z.shiftl (Z.pos m) e
                       end in
      Some (if s then (- magnitude)%Z else magnitude)
  | _ => None
  end.

(** [String(x)] as [x + " ... ago"] applies it: for a whole number below
    [10^21] (what [Math.floor] returns here), [NaN] and the infinities. *)
Definition numberString (x : PrimFloat.float) : string :=
  match wholeValue x with
  | Some z => decimalZ z
  | None =>
      match FloatOps.Prim2SF x with
      | SpecFloat.S754_infinity true => "-Infinity"
      | SpecFloat.S754_infinity false => "Infinity"
      | _ => "NaN"
      end
  end.

(** A host [parseInt] for the samples: the digits of a count as a double. *)
Definition countOf (s : string) : PrimFloat.float :=
  match millis s with
  | Some z => ofZ z
  | None => PrimFloat.nan
  end.

(** The cascade of [if (interval > 1)]: the count and the unit shown. *)
Definition relativeParts (seconds : PrimFloat.float) : PrimFloat.float * string :=
  let interval := PrimFloat.div seconds (toDouble 31536000) in
  if PrimFloat.ltb (toDouble 1) interval then (mathFloor interval, " years ago")
  else
    let interval := PrimFloat.div seconds (toDouble 2592000) in
    if PrimFloat.ltb (toDouble 1) interval then (mathFloor interval, " months ago")
    else
      let interval := PrimFloat.div seconds (toDouble 86400) in
      if PrimFloat.ltb (toDouble 1) interval then (mathFloor interval, " days ago")
      else
        let interval := PrimFloat.div seconds (toDouble 3600) in
        if PrimFloat.ltb (toDouble 1) interval then (mathFloor interval, " hours ago")
        else
          let interval := PrimFloat.div seconds (toDouble 60) in
          if PrimFloat.ltb (toDouble 1) interval then (mathFloor interval, " minutes ago")
          else (mathFloor seconds, " seconds ago").

Section RelativeTime.

(** [new Date().getTime()] and [new Date(s).getTime()], the host's: the
    second is [NaN] for a text that is no date. *)
Variable now : PrimFloat.float.
Variable dateTime : string -> PrimFloat.float.

(** [Math.floor((now.getTime() - date.getTime()) / 1000)] *)
Definition ageInSeconds (dateString : string) : PrimFloat.float :=
  mathFloor (PrimFloat.div (PrimFloat.sub now (dateTime dateString)) (toDouble 1000)).

Definition formatRelativeTime (dateString : string) : string :=
  let (count, unit) := relativeParts (ageInSeconds dateString) in
  (numberString count ++ unit)%string.

End RelativeTime.

(** The label for an age of [s] seconds, up to one day. *)
Definition ageLabel (s : Z) : Z * string :=
  if (s <=? 60)%Z then (s, " seconds ago")
  else if (s <=? 3600)%Z then ((s / 60)%Z, " minutes ago")
  else ((s / 3600)%Z, " hours ago").

(** The cascade gives this label at [s] seconds. *)
Definition labelCheck (s : Z) : bool :=
  let (count, unit) := relativeParts (ofZ s) in
  match wholeValue count with
  | Some v => (v =? fst (ageLabel s))%Z && String.eqb unit (snd (ageLabel s))
  | None => false
  end.

(** The same for the [count] ages from [s] on. *)
Fixpoint checkAges (count : nat) (s : Z) : bool :=
  match count with
  | 0 => true
  | S c => labelCheck s && checkAges c (s + 1)
  end.

(** The other operations of the service let the failure of a fetch
    through: when the fetch throws, the operation throws the same error,
    in the state the fetcher left.  This is stated for the search lookup
    of the resolver (the failure of its username lookup leads to that
    search, never to [null]), for both fetches of [getChannelStats] and of
    [getChannelVideos], and for the first fetch of the paged operations.
    Only [getOldestVideoInRange] without a range answers as
    [getOldestVideo] does, being that very call. *)
Definition othersPropagate (net : Net) (dateTime : string -> option Z)
  (engineSort : list PlaylistSnippet -> list PlaylistSnippet)
  (toISOString : string -> Result string) (parseInt : string -> PrimFloat.float)
  (toString : PrimFloat.float -> string) (w : World) : Prop :=
  (* resolveChannelId: the search lookup *)
  (forall identifier r w1 err w2,
     String.prefix "UC" identifier = false ->
     call net channels (usernameParams identifier) w = (r, w1) ->
     noMatch r ->
     call net search (channelSearchParams identifier) w1 = (Throw err, w2) ->
     resolveChannelId net identifier w = (Throw err, w2))
  (* getChannelStats: the resolution and the channels fetch *)
  /\ (forall identifier err w1,
        resolveChannelId net identifier w = (Throw err, w1) ->
        getChannelStats net identifier w = (Throw err, w1))
  /\ (forall identifier id w1 err w2,
        resolveChannelId net identifier w = (Ok id, w1) ->
        call net channels (statsParams id) w1 = (Throw err, w2) ->
        getChannelStats net identifier w = (Throw err, w2))
  (* getChannelVideos: the search and the hydration *)
  /\ (forall channelId maxResults pageToken err w1,
        call net search (videoSearchParams channelId maxResults pageToken) w = (Throw err, w1) ->
        getChannelVideos net channelId maxResults pageToken w = (Throw err, w1))
  /\ (forall channelId maxResults pageToken searchData w1 hits ids err w2,
        call net search (videoSearchParams channelId maxResults pageToken) w
        = (Ok searchData, w1) ->
        items searchData = Some hits ->
        mapM searchVideoId hits = Ok ids ->
        join ids <> ""%string ->
        call net videos [("part", "snippet,statistics"); ("id", join ids)]%string w1
        = (Throw err, w2) ->
        getChannelVideos net channelId maxResults pageToken w = (Throw err, w2))
  (* getChannelStatsForDateRange: the search of the first batch *)
  /\ (forall fuel channelId startDate endDate publishedAfter publishedBefore err w1,
        toISOString startDate = Ok publishedAfter ->
        toISOString endDate = Ok publishedBefore ->
        call net search (rangeSearchParams channelId publishedAfter publishedBefore None) w
        = (Throw err, w1) ->
        getChannelStatsForDateRange net toISOString parseInt toString (S fuel) channelId
          startDate endDate w
        = Some (Throw err, w1))
  (* getNewestVideoInRange: the page of one video, or the search *)
  /\ (forall channelId startDate endDate err w1,
        negb (truthy startDate) || negb (truthy endDate) = true ->
        getChannelVideos net channelId 1 None w = (Throw err, w1) ->
        getNewestVideoInRange net toISOString channelId startDate endDate w = (Throw err, w1))
  /\ (forall channelId startDate endDate publishedAfter publishedBefore err w1,
        truthy startDate = true -> truthy endDate = true ->
        toISOString (jsToString startDate) = Ok publishedAfter ->
        toISOString (jsToString endDate) = Ok publishedBefore ->
        call net search (newestSearchParams channelId publishedAfter publishedBefore) w
        = (Throw err, w1) ->
        getNewestVideoInRange net toISOString channelId startDate endDate w = (Throw err, w1))
  (* getOldestVideoInRange: its own pages with a range, getOldestVideo without *)
  /\ (forall fuel playlistId startDate endDate err w1,
        truthy startDate = true -> truthy endDate = true ->
        call net playlistItems (playlistParams playlistId) w = (Throw err, w1) ->
        getOldestVideoInRange net dateTime engineSort (S fuel) playlistId startDate endDate w
        = Some (Throw err, w1))
  /\ (forall fuel playlistId startDate endDate,
        negb (truthy startDate) || negb (truthy endDate) = true ->
        getOldestVideoInRange net dateTime engineSort fuel playlistId startDate endDate w
        = Some (getOldestVideo net dateTime engineSort playlistId w)).

(** An uploads collection whose only video is private: upstream lists
    it with an empty thumbnails object. *)
Definition privateUpload : PlaylistItem :=
  {| snippet := Some {| publishedAt := Some "100";
                        title := Some "Private video";
                        description := Some "This video is private.";
                        thumbnails := Some {| high := None; default := None |};
                        resourceId := Some {| resource_videoId := Some "p" |} |} |}.

Definition privateNet : Net :=
  fun _ e _ =>
    match e as e0 return Response (body e0) with
    | playlistItems => HttpOk (Ok {| items := Some [privateUpload]; nextPageToken := None |})
    | e0 => HttpOk (Ok (emptyList e0))
    end.

(** * Properties *)

Unset Implicit Arguments.

(** ** Credential pool *)

Lemma getNextApiKey_at (pre post : list string) (k : string) (reqs : list Request) :
  getNextApiKey {| apiKeys := pre ++ k :: post; currentKeyIndex := length pre; requests := reqs |}
  = (Ok (Some k),
     {| apiKeys := pre ++ k :: post;
        currentKeyIndex := (length pre + 1) mod length (pre ++ k :: post);
        requests := reqs |}).
Proof.
  unfold getNextApiKey; simpl.
  destruct (length (pre ++ k :: post) =? 0) eqn:E.
  - apply Nat.eqb_eq in E. rewrite length_app in E. simpl in E. lia.
  - rewrite nth_error_app2, Nat.sub_diag by lia. reflexivity.
Qed.

Lemma selections_from (post pre : list string) (reqs : list Request) :
  post <> [] ->
  selections (length post)
    {| apiKeys := pre ++ post; currentKeyIndex := length pre; requests := reqs |}
  = (map (fun k => Ok (Some k)) post,
     {| apiKeys := pre ++ post; currentKeyIndex := 0; requests := reqs |}).
Proof.
  revert pre. induction post as [|k post IH]; intros pre Hne; [contradiction|].
  cbn [length selections map]. rewrite getNextApiKey_at.
  destruct post as [|k' post].
  - simpl. rewrite length_app. simpl. rewrite Nat.Div0.mod_same. reflexivity.
  - assert (Hmod : (length pre + 1) mod length (pre ++ k :: k' :: post) = length (pre ++ [k])).
    { rewrite !length_app. simpl. apply Nat.mod_small. lia. }
    rewrite Hmod.
    replace (pre ++ k :: k' :: post) with ((pre ++ [k]) ++ k' :: post)
      by (rewrite <- app_assoc; reflexivity).
    rewrite IH by discriminate. reflexivity.
Qed.

Lemma selections_snoc (n : nat) (w : World) :
  selections (n + 1) w
  = (fst (selections n w) ++ [fst (getNextApiKey (snd (selections n w)))],
     snd (getNextApiKey (snd (selections n w)))).
Proof.
  revert w. induction n as [|n IH]; intros w; simpl.
  - destruct (getNextApiKey w); reflexivity.
  - destruct (getNextApiKey w) as [r w1]. rewrite IH.
    destruct (selections n w1) as [rs w2]. reflexivity.
Qed.

(** C3. On a freshly configured pool [k :: ks] of size [N], the first [N]
    selections return the credentials in insertion order, each position
    once, and selection [N+1] returns the first credential again; on an
    empty pool a selection throws [NoCredentialsConfigured] and changes
    nothing. *)
Theorem round_robin_selection :
  (forall (k : string) (ks : list string) (w : World),
     let keys := k :: ks in
     fst (selections (length keys) (setApiKeys keys w)) = map (fun c => Ok (Some c)) keys
     /\ fst (selections (length keys + 1) (setApiKeys keys w))
        = map (fun c => Ok (Some c)) (keys ++ [k]))
  /\ (forall (cursor : nat) (reqs : list Request),
        let empty := {| apiKeys := []; currentKeyIndex := cursor; requests := reqs |} in
        getNextApiKey empty = (Throw NoCredentialsConfigured, empty)).
Proof.
  split.
  - intros k ks w keys.
    assert (Hsel : selections (length keys) (setApiKeys keys w)
                   = (map (fun c => Ok (Some c)) keys,
                      {| apiKeys := keys; currentKeyIndex := 0; requests := requests w |})).
    { apply (selections_from keys [] (requests w)). discriminate. }
    split; [rewrite Hsel; reflexivity|].
    rewrite selections_snoc, Hsel. subst keys. simpl.
    rewrite map_app. reflexivity.
  - reflexivity.
Qed.

(** ** The resilient fetcher *)

(** The body of [fetchYouTubeAPI], one call deep. *)
Lemma fetchYouTubeAPI_eq (net : Net) (e : Endpoint) (params : Params) (attempt : nat) (w : World) :
  fetchYouTubeAPI net e params attempt w =
  if (length (apiKeys w) <=? attempt) && (0 <? length (apiKeys w))
  then (Throw (AllCredentialsExhausted (length (apiKeys w))), w)
  else
    match getNextApiKey w with
    | (Throw err, w1) => (Throw err, w1)
    | (Ok apiKey, w1) =>
        let w2 := sent (request e params apiKey) w1 in
        match tryBlock (length (apiKeys w1))
                       (net (requests w1) e (query (request e params apiKey))) with
        | Returned payload => (payload, w2)
        | Delegated => fetchYouTubeAPI net e params (attempt + 1) w2
        | Thrown err =>
            if includes (message err) "API key(s) failed" then (Throw err, w2)
            else if (1 <? length (apiKeys w1)) && (attempt <? length (apiKeys w1) - 1)
            then fetchYouTubeAPI net e params (attempt + 1) w2
            else (Throw err, w2)
        end
    end.
Proof.
  funelim (fetchYouTubeAPI net e params attempt w);
    repeat match goal with
           | H : ?b = _ |- context [if ?b then _ else _] => rewrite H
           | H : getNextApiKey ?v = _ |- context [getNextApiKey ?v] => rewrite H
           | H : tryBlock ?n ?r = _ |- context [tryBlock ?n ?r] => rewrite H
           end;
    reflexivity.
Qed.

Lemma getNextApiKey_Ok (w w1 : World) (key : jsstring) :
  getNextApiKey w = (Ok key, w1) ->
  apiKeys w1 = apiKeys w /\ length (apiKeys w) <> 0 /\ requests w1 = requests w.
Proof.
  unfold getNextApiKey.
  destruct (length (apiKeys w) =? 0) eqn:E; [discriminate|].
  intros [= _ <-]. apply Nat.eqb_neq in E. auto.
Qed.

Lemma getNextApiKey_nonempty (w : World) :
  length (apiKeys w) <> 0 ->
  exists key w1, getNextApiKey w = (Ok key, w1)
                 /\ apiKeys w1 = apiKeys w /\ requests w1 = requests w.
Proof.
  intros Hne. unfold getNextApiKey.
  destruct (length (apiKeys w) =? 0) eqn:E.
  - apply Nat.eqb_eq in E. contradiction.
  - eexists _, _. split; [reflexivity|]. split; reflexivity.
Qed.

Lemma quota_exhaustion_from (net : Net) (e : Endpoint) (params : Params) :
  alwaysQuota net ->
  forall (remaining attempt : nat) (w : World),
    2 <= length (apiKeys w) ->
    attempt + remaining = length (apiKeys w) ->
    exists w',
      fetchYouTubeAPI net e params attempt w
      = (Throw (AllCredentialsExhausted (length (apiKeys w))), w')
      /\ extends e w w' remaining.
Proof.
  intros Hquota. induction remaining as [|remaining IH]; intros attempt w Hsize Hsum.
  - rewrite fetchYouTubeAPI_eq.
    replace (length (apiKeys w) <=? attempt) with true by (symmetry; apply Nat.leb_le; lia).
    replace (0 <? length (apiKeys w)) with true by (symmetry; apply Nat.ltb_lt; lia).
    simpl. exists w. split; [reflexivity|]. split; [reflexivity|].
    exists []. rewrite app_nil_r. auto.
  - rewrite fetchYouTubeAPI_eq.
    replace (length (apiKeys w) <=? attempt) with false by (symmetry; apply Nat.leb_gt; lia).
    simpl andb. cbv iota.
    destruct (getNextApiKey_nonempty w) as (key & w1 & -> & Hkeys & Hreqs); [lia|].
    destruct (Hquota (requests w1) e (query (request e params key))) as (d & -> & Hd).
    unfold tryBlock. rewrite Hd, Hkeys.
    replace (1 <? length (apiKeys w)) with true by (symmetry; apply Nat.ltb_lt; lia).
    simpl andb. cbv iota.
    destruct (IH (attempt + 1) (sent (request e params key) w1)) as (w' & Hcall & Hk' & new & Hnew & Hlen & Hall).
    { simpl. rewrite Hkeys. exact Hsize. }
    { simpl. rewrite Hkeys. lia. }
    simpl in Hcall, Hk', Hnew. rewrite Hkeys in Hcall, Hk'. rewrite Hreqs in Hnew.
    exists w'. split; [exact Hcall|]. split; [exact Hk'|].
    exists (request e params key :: new). split; [|split].
    + rewrite Hnew, <- app_assoc. reflexivity.
    + simpl. rewrite Hlen. reflexivity.
    + constructor; [reflexivity | exact Hall].
Qed.

(** C1. With a pool of [N >= 2] credentials and an upstream that rejects
    every request for a quota-class reason, one call fails with
    [AllCredentialsExhausted N] after exactly [N] requests. *)
Theorem quota_exhaustion (net : Net) (e : Endpoint) (params : Params) (w : World) :
  2 <= length (apiKeys w) ->
  alwaysQuota net ->
  exists w',
    fetchYouTubeAPI net e params 0 w
    = (Throw (AllCredentialsExhausted (length (apiKeys w))), w')
    /\ extends e w w' (length (apiKeys w)).
Proof.
  intros Hsize Hquota.
  apply (quota_exhaustion_from net e params Hquota (length (apiKeys w)) 0 w Hsize).
  reflexivity.
Qed.

Lemma quota_exhaustion_two_keys :
  exists w',
    fetchYouTubeAPI quotaNet search [] 0 twoKeys
    = (Throw (AllCredentialsExhausted 2), w')
    /\ extends search twoKeys w' 2.
Proof.
  apply (quota_exhaustion quotaNet search [] twoKeys).
  - simpl. lia.
  - intros trace e q. eexists. split; reflexivity.
Defined.

(** The exhaustion error reports the pool size. *)
Lemma exhaustion_message_two_keys :
  message (AllCredentialsExhausted 2)
  = "All 2 API key(s) failed, likely due to quota limits. Please try again later or add more keys.".
Proof. reflexivity. Qed.

(** With two keys, a "forbidden" rejection of the first request is caught
    by the fetcher's own handler and the call is retried with the second
    key: two requests, and here a success. *)
Lemma nonquota_rejection_retried :
  fetchYouTubeAPI forbiddenOnce channels [] 0 twoKeys
  = (Ok (emptyList channels),
     {| apiKeys := ["key-A"; "key-B"];
        currentKeyIndex := 0;
        requests := [request channels [] (Some "key-A");
                     request channels [] (Some "key-B")] |})
  /\ ~ failsImmediately forbiddenOnce channels [] twoKeys.
Proof.
  split.
  - reflexivity.
  - intros Hclaim.
    specialize (Hclaim (Some "key-A") _ (rejection "forbidden" "Access forbidden.")
                       eq_refl eq_refl eq_refl).
    vm_compute in Hclaim. discriminate.
Qed.

(** C2, as the code has it.  A rejection whose reason is not quota-class
    is raised inside the [try] block and so reaches the [catch]: the call
    fails with [UpstreamRequestFailed] and no further request when the
    pool has one credential or this was the last attempt allowed (or the
    message is the fetcher's own exhaustion message); with attempts left
    it is retried with the next credential. *)
Theorem nonquota_rejection (net : Net) (e : Endpoint) (params : Params)
  (attempt : nat) (w w1 : World) (key : jsstring) (d : ErrorData) :
  attempt < length (apiKeys w) ->
  getNextApiKey w = (Ok key, w1) ->
  net (requests w1) e (query (request e params key)) = HttpError (Ok d) ->
  quotaClass (errorReason d) = false ->
  let err := UpstreamRequestFailed (errorMessage d) in
  let w2 := sent (request e params key) w1 in
  (length (apiKeys w) = 1 \/ attempt = length (apiKeys w) - 1 ->
   fetchYouTubeAPI net e params attempt w = (Throw err, w2))
  /\ (includes (message err) "API key(s) failed" = true ->
      fetchYouTubeAPI net e params attempt w = (Throw err, w2))
  /\ (attempt + 1 < length (apiKeys w) ->
      includes (message err) "API key(s) failed" = false ->
      fetchYouTubeAPI net e params attempt w = fetchYouTubeAPI net e params (attempt + 1) w2).
Proof.
  intros Hattempt Hkey Hresp Hreason err w2.
  pose proof (getNextApiKey_Ok _ _ _ Hkey) as (Hkeys & _ & _).
  assert (Hstep : fetchYouTubeAPI net e params attempt w
                  = if includes (message err) "API key(s) failed" then (Throw err, w2)
                    else if (1 <? length (apiKeys w)) && (attempt <? length (apiKeys w) - 1)
                         then fetchYouTubeAPI net e params (attempt + 1) w2
                         else (Throw err, w2)).
  { rewrite fetchYouTubeAPI_eq.
    replace (length (apiKeys w) <=? attempt) with false by (symmetry; apply Nat.leb_gt; lia).
    simpl andb. cbv iota. rewrite Hkey. cbv zeta.
    rewrite Hresp. unfold tryBlock. rewrite Hreason. simpl andb. cbv iota.
    rewrite Hkeys. reflexivity. }
  rewrite Hstep. repeat split.
  - intros Hlast. destruct (includes (message err) "API key(s) failed"); [reflexivity|].
    replace ((1 <? length (apiKeys w)) && (attempt <? length (apiKeys w) - 1)) with false;
      [reflexivity|].
    symmetry. apply andb_false_iff.
    destruct Hlast as [Hone | Hlast];
      [left; apply Nat.ltb_ge | right; apply Nat.ltb_ge]; lia.
  - intros ->. reflexivity.
  - intros Hleft ->.
    replace (1 <? length (apiKeys w)) with true by (symmetry; apply Nat.ltb_lt; lia).
    replace (attempt <? length (apiKeys w) - 1) with true by (symmetry; apply Nat.ltb_lt; lia).
    reflexivity.
Qed.

Lemma nonquota_rejection_examples :
  fetchYouTubeAPI forbiddenOnce channels [] 0 oneKey
  = (Throw (mkError "Access forbidden."),
     {| apiKeys := ["key-A"]; currentKeyIndex := 0;
        requests := [request channels [] (Some "key-A")] |})
  /\ fetchYouTubeAPI forbiddenOnce channels [] 0 twoKeys
     = fetchYouTubeAPI forbiddenOnce channels [] (0 + 1)
         {| apiKeys := ["key-A"; "key-B"]; currentKeyIndex := 1;
            requests := [request channels [] (Some "key-A")] |}.
Proof.
  split.
  - apply (proj1 (nonquota_rejection forbiddenOnce channels [] 0 oneKey
                    {| apiKeys := ["key-A"]; currentKeyIndex := 0; requests := [] |}
                    (Some "key-A") (rejection "forbidden" "Access forbidden.")
                    ltac:(simpl; lia) eq_refl eq_refl eq_refl)).
    left. reflexivity.
  - apply (proj2 (proj2 (nonquota_rejection forbiddenOnce channels [] 0 twoKeys
                    {| apiKeys := ["key-A"; "key-B"]; currentKeyIndex := 1; requests := [] |}
                    (Some "key-A") (rejection "forbidden" "Access forbidden.")
                    ltac:(simpl; lia) eq_refl eq_refl eq_refl))).
    + simpl. lia.
    + reflexivity.
Defined.

(** ** Channel resolver *)

Lemma resolve_prefixed (net : Net) (identifier : string) (w : World) :
  String.prefix "UC" identifier = true ->
  resolveChannelId net identifier w = (Ok (Some identifier), w).
Proof.
  intros Hprefix. unfold resolveChannelId. rewrite Hprefix. reflexivity.
Qed.

(** C4. An identifier of the canonical shape is returned unchanged, and
    the module state is untouched: no request is issued and no credential
    is taken, whatever the upstream would answer. *)
Theorem resolve_canonical (net : Net) (identifier : string) (w : World) :
  canonicalShape identifier = true ->
  resolveChannelId net identifier w = (Ok (Some identifier), w)
  /\ requests (snd (resolveChannelId net identifier w)) = requests w.
Proof.
  intros Hshape. apply andb_true_iff in Hshape as [_ Hprefix].
  rewrite (resolve_prefixed net identifier w Hprefix). split; reflexivity.
Qed.

Lemma resolve_canonical_example :
  resolveChannelId quotaNet "UCxxxxxxxxxxxxxxxxxxxxxx" twoKeys
  = (Ok (Some "UCxxxxxxxxxxxxxxxxxxxxxx"), twoKeys)
  /\ requests (snd (resolveChannelId quotaNet "UCxxxxxxxxxxxxxxxxxxxxxx" twoKeys))
     = requests twoKeys.
Proof.
  apply (resolve_canonical quotaNet "UCxxxxxxxxxxxxxxxxxxxxxx" twoKeys).
  reflexivity.
Defined.

(** C10. The fast path takes every identifier that starts with [UC],
    whatever its length or its other characters. *)
Theorem resolve_any_UC_prefix (net : Net) (identifier : string) (w : World) :
  String.prefix "UC" identifier = true ->
  resolveChannelId net identifier w = (Ok (Some identifier), w).
Proof.
  exact (resolve_prefixed net identifier w).
Qed.

Lemma resolve_short_UC_example :
  resolveChannelId quotaNet "UCabcd" twoKeys = (Ok (Some "UCabcd"), twoKeys).
Proof.
  apply (resolve_any_UC_prefix quotaNet "UCabcd" twoKeys). reflexivity.
Defined.

(** An identifier can start with [UC] without having the canonical
    shape; it is then returned as it is, and neither lookup is made. *)
Lemma short_UC_identifier_not_searched :
  canonicalShape "UCabcd" = false
  /\ resolveChannelId handleNet "UCabcd" oneKey = (Ok (Some "UCabcd"), oneKey)
  /\ ~ fallsBackToSearch handleNet "UCabcd" oneKey.
Proof.
  split; [reflexivity|]. split; [reflexivity|].
  intros Hclaim.
  destruct (Hclaim _ _ eq_refl (or_intror eq_refl) _ _ eq_refl) as [Hfound _].
  specialize (Hfound (Some "UC-found")).
  assert (Hfirst : firstChannel
                     {| items := Some [{| search_id := None;
                                          search_snippet :=
                                          Some {| channelId := Some "UC-found";
                                                  search_publishedAt := None;
                                                  search_title := None;
                                                  search_description := None;
                                                  search_thumbnails := None |} |}];
                        nextPageToken := None |} (Some "UC-found")).
  { eexists _, _, _. repeat split; reflexivity. }
  specialize (Hfound Hfirst). vm_compute in Hfound. discriminate.
Qed.

(** C5, as the code has it.  For an identifier that does not start with
    [UC]: when the username lookup fails or answers without items, the
    outcome is that of the search, its first channel identifier or
    [ChannelNotFound]. *)
Theorem resolve_fallback (net : Net) (identifier : string) (w : World) :
  String.prefix "UC" identifier = false ->
  fallsBackToSearch net identifier w.
Proof.
  intros Hprefix r w1 Hlookup Hnone data w2 Hsearch.
  assert (Hstep : resolveChannelId net identifier w = resolveBySearch net identifier w1).
  { unfold resolveChannelId. rewrite Hprefix.
    unfold bind, tryCatch, resolveByUsername, bind. rewrite Hlookup.
    destruct r as [found | err]; [|reflexivity].
    destruct Hnone as [-> | ->]; reflexivity. }
  rewrite Hstep. unfold resolveBySearch, bind. rewrite Hsearch. split.
  - intros id (first & rest & s & -> & Hs & <- & Hid). rewrite Hs, Hid. reflexivity.
  - intros [-> | [-> | (first & rest & s & -> & Hs & Hid)]]; try reflexivity.
    rewrite Hs, Hid. reflexivity.
Qed.

Lemma resolve_fallback_example :
  resolveChannelId handleNet "SomeHandle" oneKey
  = (Ok (Some "UC-found"),
     {| apiKeys := ["key-A"]; currentKeyIndex := 0;
        requests := [request channels (usernameParams "SomeHandle") (Some "key-A");
                     request search (channelSearchParams "SomeHandle") (Some "key-A")] |})
  /\ resolveChannelId nobodyNet "SomeHandle" oneKey
     = (Throw ChannelNotFound,
        {| apiKeys := ["key-A"]; currentKeyIndex := 0;
           requests := [request channels (usernameParams "SomeHandle") (Some "key-A");
                        request search (channelSearchParams "SomeHandle") (Some "key-A")] |}).
Proof.
  split.
  - destruct (resolve_fallback handleNet "SomeHandle" oneKey eq_refl
                _ _ eq_refl (or_intror eq_refl) _ _ eq_refl) as [Hfound _].
    apply Hfound. eexists _, _, _. repeat split; reflexivity.
  - destruct (resolve_fallback nobodyNet "SomeHandle" oneKey eq_refl
                _ _ eq_refl (or_intror eq_refl) _ _ eq_refl) as [_ Hnone].
    apply Hnone. right. left. reflexivity.
Defined.

(** ** Video queries *)

(** The requests of one call go to the endpoint of the call, and the pool
    keeps its keys. *)
Lemma fetchYouTubeAPI_extends (net : Net) (e : Endpoint) (params : Params)
  (attempt : nat) (w : World) :
  exists n, extends e w (snd (fetchYouTubeAPI net e params attempt w)) n.
Proof.
  funelim (fetchYouTubeAPI net e params attempt w);
    try match goal with
        | H : getNextApiKey _ = (Ok _, _) |- _ =>
            destruct (getNextApiKey_Ok _ _ _ H) as (Hkeys & _ & Hreqs)
        end.
  - exists 0. split; [reflexivity|]. exists []. rewrite app_nil_r. auto.
  - exists 0. unfold getNextApiKey in *.
    destruct (length (apiKeys w) =? 0); [|discriminate].
    match goal with H : (_, _) = (_, _) |- _ => injection H as _ <- end.
    split; [reflexivity|]. exists []. rewrite app_nil_r. auto.
  - exists 1. split; [exact Hkeys|]. simpl. rewrite Hreqs.
    exists [request e params apiKey]. auto.
  - match goal with
    | IH : exists n, extends _ _ _ n |- _ => destruct IH as (n & Hk & new & Hnew & Hlen & Hall)
    end.
    simpl in Hk, Hnew. exists (S n). split; [congruence|].
    exists (request e params apiKey :: new). rewrite Hnew, Hreqs, <- app_assoc.
    simpl. auto.
  - destruct (includes (message err) "API key(s) failed").
    + exists 1. split; [exact Hkeys|]. simpl. rewrite Hreqs.
      exists [request e params apiKey]. auto.
    + destruct ((1 <? length (apiKeys w1)) && (attempt <? length (apiKeys w1) - 1)).
      * match goal with
        | IH : exists n, extends _ _ _ n |- _ => destruct IH as (n & Hk & new & Hnew & Hlen & Hall)
        end.
        simpl in Hk, Hnew. exists (S n). split; [congruence|].
        exists (request e params apiKey :: new). rewrite Hnew, Hreqs, <- app_assoc.
        simpl. auto.
      * exists 1. split; [exact Hkeys|]. simpl. rewrite Hreqs.
        exists [request e params apiKey]. auto.
Qed.

(** C6. When the search of [getChannelVideos] answers with no items, the
    operation returns an empty page without a next-page token, and none
    of the requests it made is a request to the [videos] endpoint. *)
Theorem empty_search_no_hydration (net : Net) (channelId : string) (maxResults : nat)
  (pageToken : jsstring) (w w1 : World) (searchData : body search) :
  call net search (videoSearchParams channelId maxResults pageToken) w = (Ok searchData, w1) ->
  items searchData = Some [] ->
  getChannelVideos net channelId maxResults pageToken w
  = (Ok {| page_videos := []; page_nextPageToken := None |}, w1)
  /\ exists new,
       requests (snd (getChannelVideos net channelId maxResults pageToken w))
       = requests w ++ new
       /\ Forall (fun r => endpoint r <> videos) new.
Proof.
  intros Hsearch Hitems.
  assert (Hrun : getChannelVideos net channelId maxResults pageToken w
                 = (Ok {| page_videos := []; page_nextPageToken := None |}, w1)).
  { unfold getChannelVideos, bind, lift. rewrite Hsearch, Hitems. reflexivity. }
  split; [exact Hrun|]. rewrite Hrun. simpl snd.
  destruct (fetchYouTubeAPI_extends net search
              (videoSearchParams channelId maxResults pageToken) 0 w)
    as (n & _ & new & Hnew & _ & Hall).
  unfold call in Hsearch. rewrite Hsearch in Hnew. simpl in Hnew.
  exists new. split; [exact Hnew|].
  eapply Forall_impl; [|exact Hall]. intros r Hr. rewrite Hr. discriminate.
Qed.

Lemma empty_search_example :
  getChannelVideos nobodyNet "UC-channel" 10 None oneKey
  = (Ok {| page_videos := []; page_nextPageToken := None |},
     sent (request search (videoSearchParams "UC-channel" 10 None) (Some "key-A")) oneKey)
  /\ exists new,
       requests (snd (getChannelVideos nobodyNet "UC-channel" 10 None oneKey))
       = requests oneKey ++ new
       /\ Forall (fun r => endpoint r <> videos) new.
Proof.
  apply (empty_search_no_hydration nobodyNet "UC-channel" 10 None oneKey _ (emptyList search)).
  - reflexivity.
  - reflexivity.
Defined.

Section OldestVideo.

Variable net : Net.
Variable dateTime : string -> option Z.
Variable engineSort : list PlaylistSnippet -> list PlaylistSnippet.
Variable toISOString : string -> Result string.
Variable parseInt : string -> PrimFloat.float.
Variable toString : PrimFloat.float -> string.

Lemma datesParse_valid (page : list PlaylistSnippet) :
  validDates dateTime page -> datesParse dateTime page = true.
Proof.
  intros Hvalid. apply forallb_forall. intros s Hs.
  destruct (proj1 (Forall_forall _ _) Hvalid s Hs) as [t ->]. reflexivity.
Qed.

Lemma stableSort_head (x : PlaylistSnippet) (rest : list PlaylistSnippet) :
  hd_error (stableSort dateTime (x :: rest))
  = match hd_error (stableSort dateTime rest) with
    | None => Some x
    | Some m => if (compareSnippets dateTime x m <=? 0)%Z then Some x else Some m
    end.
Proof.
  cbn [stableSort]. destruct (stableSort dateTime rest) as [|m tail]; [reflexivity|].
  cbn [insertSorted hd_error]. destruct (compareSnippets dateTime x m <=? 0)%Z; reflexivity.
Qed.

Lemma stableSort_first_oldest (page : list PlaylistSnippet) :
  page <> [] ->
  validDates dateTime page ->
  exists s, hd_error (stableSort dateTime page) = Some s /\ firstOldest dateTime s page.
Proof.
  induction page as [|x rest IH]; intros Hne Hvalid; [contradiction|].
  inversion Hvalid as [|? ? [tx Hx] Hrest]; subst.
  rewrite stableSort_head.
  destruct rest as [|y rest].
  - exists x. split; [reflexivity|]. exists [], [], tx.
    repeat split; auto; intros s' [].
  - destruct (IH ltac:(discriminate) Hrest) as (m & Hhd & before & after & tm & Hpage & Hm & Hb & Ha).
    rewrite Hhd. unfold compareSnippets. rewrite Hx, Hm.
    destruct (tx - tm <=? 0)%Z eqn:Hcmp.
    + apply Z.leb_le in Hcmp. exists x. split; [reflexivity|].
      exists [], (y :: rest), tx. split; [reflexivity|]. split; [exact Hx|].
      split; [intros s' []|].
      intros s' Hs'. rewrite Hpage in Hs'. apply in_app_iff in Hs' as [Hs' | [<- | Hs']].
      * destruct (Hb s' Hs') as (t' & Ht' & Hlt). exists t'. split; [exact Ht' | lia].
      * exists tm. split; [exact Hm | lia].
      * destruct (Ha s' Hs') as (t' & Ht' & Hle). exists t'. split; [exact Ht' | lia].
    + apply Z.leb_gt in Hcmp. exists m. split; [reflexivity|].
      exists (x :: before), after, tm. split; [rewrite Hpage; reflexivity|].
      split; [exact Hm|]. split; [|exact Ha].
      intros s' [<- | Hs'].
      * exists tx. split; [exact Hx | lia].
      * exact (Hb s' Hs').
Qed.

Lemma firstOldest_unique (s s' : PlaylistSnippet) (page : list PlaylistSnippet) :
  firstOldest dateTime s page -> firstOldest dateTime s' page -> s = s'.
Proof.
  intros (b1 & a1 & t1 & Hp1 & Ht1 & Hb1 & Ha1) (b2 & a2 & t2 & Hp2 & Ht2 & Hb2 & Ha2).
  subst page. revert b2 Hp2 Hb2.
  induction b1 as [|x b1 IH]; intros [|y b2] Hp2 Hb2; cbn [app] in Hp2.
  - injection Hp2 as Heq _. exact Heq.
  - injection Hp2 as <- Hrest.
    destruct (Hb2 s (or_introl eq_refl)) as (t & Ht & Hlt).
    assert (Hin : In s' a1) by (rewrite Hrest; apply in_elt).
    destruct (Ha1 s' Hin) as (t' & Ht' & Hle).
    rewrite Ht1 in Ht. rewrite Ht2 in Ht'. injection Ht as <-. injection Ht' as <-. lia.
  - injection Hp2 as -> Hrest.
    destruct (Hb1 s' (or_introl eq_refl)) as (t & Ht & Hlt).
    assert (Hin : In s a2) by (rewrite <- Hrest; apply in_elt).
    destruct (Ha2 s Hin) as (t' & Ht' & Hle).
    rewrite Ht2 in Ht. rewrite Ht1 in Ht'. injection Ht as <-. injection Ht' as <-. lia.
  - injection Hp2 as <- Hrest.
    apply (IH (fun s0 H => Hb1 s0 (or_intror H)) b2 Hrest (fun s0 H => Hb2 s0 (or_intror H))).
Qed.

Lemma mapM_snippets (l : list PlaylistItem) (page : list PlaylistSnippet) :
  map snippet l = map Some page ->
  mapM (fun i => match snippet i with
                 | Some s => Ok s
                 | None => Throw TypeError
                 end) l = Ok page.
Proof.
  revert page. induction l as [|i l IH]; intros [|s page] Hmap; try discriminate.
  - reflexivity.
  - simpl in Hmap. injection Hmap as Hi Hl. simpl. rewrite Hi, (IH page Hl). reflexivity.
Qed.

Lemma mapM_snippets_missing (l : list PlaylistItem) (i : PlaylistItem) :
  In i l -> snippet i = None ->
  mapM (fun i => match snippet i with
                 | Some s => Ok s
                 | None => Throw TypeError
                 end) l = Throw TypeError.
Proof.
  intros Hin Hnone. induction l as [|j l IH]; [contradiction|].
  cbn [mapM]. destruct Hin as [-> | Hin].
  - rewrite Hnone. reflexivity.
  - rewrite (IH Hin). destruct (snippet j); reflexivity.
Qed.

Lemma oldestSnippet_first (l : list PlaylistItem) (page : list PlaylistSnippet) :
  l <> [] ->
  map snippet l = map Some page ->
  validDates dateTime page ->
  exists s, oldestSnippet dateTime engineSort l = Ok (Some s) /\ firstOldest dateTime s page.
Proof.
  intros Hne Hmap Hvalid.
  assert (Hpage : page <> []) by (intros ->; destruct l; [contradiction|discriminate]).
  destruct (stableSort_first_oldest page Hpage Hvalid) as (s & Hhd & Hold).
  exists s. split; [|exact Hold].
  destruct l as [|i [|j l]]; [contradiction| |].
  - destruct page as [|s0 [|? ?]]; try discriminate.
    simpl in Hmap. injection Hmap as Hi. simpl in Hhd. injection Hhd as <-.
    simpl. rewrite Hi. reflexivity.
  - unfold oldestSnippet, sortSnippets.
    rewrite (mapM_snippets _ _ Hmap), (datesParse_valid _ Hvalid), Hhd. reflexivity.
Qed.

Lemma oldestSnippet_missing (l : list PlaylistItem) (i : PlaylistItem) :
  In i l -> snippet i = None ->
  oldestSnippet dateTime engineSort l = Ok None
  \/ oldestSnippet dateTime engineSort l = Throw TypeError.
Proof.
  intros Hin Hnone. destruct l as [|a [|b l]]; [contradiction| |].
  - destruct Hin as [-> | []]. left. simpl. rewrite Hnone. reflexivity.
  - right. unfold oldestSnippet. rewrite (mapM_snippets_missing _ _ Hin Hnone). reflexivity.
Qed.

Lemma videoStatOfSnippet_built (s : PlaylistSnippet) (r : ResourceId) (t : Thumbnails)
  (u : jsstring) :
  resourceId s = Some r ->
  thumbnails s = Some t ->
  chosenThumbnail t = Some u ->
  videoStatOfSnippet s = Ok (videoOf s r u).
Proof.
  intros Hr Ht Hu. unfold videoStatOfSnippet, thumbnailUrl. rewrite Hr, Ht.
  unfold chosenThumbnail in Hu.
  destruct (high t) as [h|].
  - destruct (truthy (url h)); [injection Hu as <-; reflexivity|].
    destruct (default t); [injection Hu as <-; reflexivity | discriminate].
  - cbn [truthy]. destruct (default t); [injection Hu as <-; reflexivity | discriminate].
Qed.

Lemma videoStatOfSnippet_fails (s : PlaylistSnippet) :
  resourceId s = None
  \/ thumbnails s = None
  \/ (exists t, thumbnails s = Some t /\ chosenThumbnail t = None) ->
  videoStatOfSnippet s = Throw TypeError.
Proof.
  unfold videoStatOfSnippet, thumbnailUrl, chosenThumbnail.
  intros [-> | [Ht | (t & Ht & Hu)]]; [reflexivity | |].
  - rewrite Ht. destruct (resourceId s); reflexivity.
  - rewrite Ht. destruct (resourceId s); [|reflexivity].
    destruct (high t) as [h|].
    + destruct (truthy (url h)); [discriminate|].
      destruct (default t); [discriminate | reflexivity].
    + cbn [truthy]. destruct (default t); [discriminate | reflexivity].
Qed.

Lemma videoStatOfSnippet_counts (s : PlaylistSnippet) (v : VideoStat) :
  videoStatOfSnippet s = Ok v ->
  stat_viewCount v = Some "0" /\ stat_likeCount v = Some "0" /\ stat_commentCount v = Some "0".
Proof.
  unfold videoStatOfSnippet.
  destruct (resourceId s); [|discriminate].
  destruct (thumbnails s) as [t|]; [|discriminate].
  destruct (thumbnailUrl t); [|discriminate].
  intros [= <-]. repeat split.
Qed.

(** What [getOldestVideo] makes of a successful fetch. *)
Lemma getOldestVideo_fetched (playlistId : string) (w w1 : World) (data : body playlistItems) :
  call net playlistItems (playlistParams playlistId) w = (Ok data, w1) ->
  getOldestVideo net dateTime engineSort playlistId w
  = (match items data with
     | None | Some [] => Ok None
     | Some l =>
         match oldestSnippet dateTime engineSort l with
         | Ok (Some s) =>
             match videoStatOfSnippet s with
             | Ok video => Ok (Some video)
             | Throw _ => Ok None
             end
         | _ => Ok None
         end
     end, w1).
Proof.
  intros Hcall. unfold getOldestVideo, tryCatch, bind, lift, ret, throw. rewrite Hcall.
  destruct (items data) as [[|i l]|]; try reflexivity.
  destruct (oldestSnippet dateTime engineSort (i :: l)) as [[s|]|]; try reflexivity.
  destruct (videoStatOfSnippet s); reflexivity.
Qed.

Lemma others_propagate (w : World) :
  othersPropagate net dateTime engineSort toISOString parseInt toString w.
Proof.
  unfold othersPropagate.
  split; [|split; [|split; [|split; [|split; [|split; [|split; [|split; [|split]]]]]]]].
  - intros identifier r w1 err w2 Hprefix Hlookup Hnone Hsearch.
    unfold resolveChannelId. rewrite Hprefix.
    unfold bind, tryCatch, resolveByUsername, resolveBySearch, bind. rewrite Hlookup.
    destruct r as [data | err0]; cbn in Hnone |- *.
    + destruct Hnone as [-> | ->]; cbn; rewrite Hsearch; reflexivity.
    + rewrite Hsearch. reflexivity.
  - intros identifier err w1 Hresolve. unfold getChannelStats, bind. rewrite Hresolve.
    reflexivity.
  - intros identifier id w1 err w2 Hresolve Hfetch. unfold getChannelStats, bind.
    rewrite Hresolve, Hfetch. reflexivity.
  - intros channelId maxResults pageToken err w1 Hsearch.
    unfold getChannelVideos, bind. rewrite Hsearch. reflexivity.
  - intros channelId maxResults pageToken searchData w1 hits ids err w2
           Hsearch Hhits Hids Hjoin Hvideos.
    unfold getChannelVideos, bind, lift. rewrite Hsearch, Hhits, Hids.
    replace (String.eqb (join ids) "") with false by (symmetry; apply String.eqb_neq; exact Hjoin).
    rewrite Hvideos. reflexivity.
  - intros fuel channelId startDate endDate publishedAfter publishedBefore err w1
           Hstart Hend Hsearch.
    unfold getChannelStatsForDateRange. cbn [rangeLoop]. rewrite Hstart, Hend.
    unfold rangeBatch, bind. rewrite Hsearch. reflexivity.
  - intros channelId startDate endDate err w1 Hnone Hpage.
    unfold getNewestVideoInRange. rewrite Hnone. unfold bind. rewrite Hpage. reflexivity.
  - intros channelId startDate endDate publishedAfter publishedBefore err w1
           Hs He Hstart Hend Hsearch.
    unfold getNewestVideoInRange. rewrite Hs, He, Hstart, Hend. cbn [negb orb].
    unfold bind. rewrite Hsearch. reflexivity.
  - intros fuel playlistId startDate endDate err w1 Hs He Hcall.
    unfold getOldestVideoInRange. rewrite Hs, He. cbn [negb orb pageLoop].
    unfold withPageToken. cbn [truthy]. rewrite Hcall. reflexivity.
  - intros fuel playlistId startDate endDate Hnone.
    unfold getOldestVideoInRange. rewrite Hnone. reflexivity.
Qed.

(** The original reading of C8 fails on a page whose only video is
    private: the fetch succeeds, the page is not empty, its date parses,
    and [getOldestVideo] answers [null], the missing thumbnail having
    thrown inside the same [try]. *)
Lemma oldest_video_null_on_success :
  call privateNet playlistItems (playlistParams "PL-uploads") oneKey
  = (Ok {| items := Some [privateUpload]; nextPageToken := None |},
     sent (request playlistItems (playlistParams "PL-uploads") (Some "key-A")) oneKey)
  /\ getOldestVideo privateNet millis asServed "PL-uploads" oneKey
     = (Ok None, sent (request playlistItems (playlistParams "PL-uploads") (Some "key-A")) oneKey)
  /\ ~ returnsOldest privateNet millis asServed "PL-uploads" oneKey.
Proof.
  split; [reflexivity|]. split; [reflexivity|].
  intros Hclaim.
  destruct (Hclaim _ _ _ _ eq_refl eq_refl) as (i & s & v & _ & _ & _ & Hresult & _).
  vm_compute in Hresult. discriminate.
Qed.

(** C8, as the code has it.  [getOldestVideo] never throws: when its
    fetch fails it returns [null], and so it does when anything throws
    after a successful fetch, an item without snippet for one.  When the
    fetch succeeds with a non-empty page whose items all have a snippet
    with a date that parses, the re-sort puts first the first item with the
    smallest publish timestamp, and the result is the video of that item,
    with its video id, date, title, description, the thumbnail chosen and
    the counts at ["0"], provided the item has a resource id and a
    thumbnail; without them the result is [null].  The counts of a
    returned video are always ["0"].  The boundary is [getOldestVideo]'s
    alone: the other operations let the failure of their fetch through. *)
Theorem oldest_video_degrades_to_null (playlistId : string) (w : World) :
  (exists v w', getOldestVideo net dateTime engineSort playlistId w = (Ok v, w'))
  /\ (forall err w1,
        call net playlistItems (playlistParams playlistId) w = (Throw err, w1) ->
        getOldestVideo net dateTime engineSort playlistId w = (Ok None, w1))
  /\ (forall data w1 l i,
        call net playlistItems (playlistParams playlistId) w = (Ok data, w1) ->
        items data = Some l ->
        In i l -> snippet i = None ->
        getOldestVideo net dateTime engineSort playlistId w = (Ok None, w1))
  /\ (forall data w1 l page,
        call net playlistItems (playlistParams playlistId) w = (Ok data, w1) ->
        items data = Some l ->
        l <> [] ->
        map snippet l = map Some page ->
        validDates dateTime page ->
        (exists s, firstOldest dateTime s page)
        /\ forall s,
             firstOldest dateTime s page ->
             (forall r t u,
                resourceId s = Some r -> thumbnails s = Some t -> chosenThumbnail t = Some u ->
                getOldestVideo net dateTime engineSort playlistId w
                = (Ok (Some (videoOf s r u)), w1))
             /\ (resourceId s = None
                 \/ thumbnails s = None
                 \/ (exists t, thumbnails s = Some t /\ chosenThumbnail t = None) ->
                 getOldestVideo net dateTime engineSort playlistId w = (Ok None, w1)))
  /\ (forall v w',
        getOldestVideo net dateTime engineSort playlistId w = (Ok (Some v), w') ->
        stat_viewCount v = Some "0" /\ stat_likeCount v = Some "0"
        /\ stat_commentCount v = Some "0")
  /\ othersPropagate net dateTime engineSort toISOString parseInt toString w.
Proof.
  split; [|split; [|split; [|split; [|split]]]].
  - destruct (call net playlistItems (playlistParams playlistId) w) as [[data | err] w1] eqn:Hcall.
    + rewrite (getOldestVideo_fetched _ _ _ _ Hcall).
      destruct (items data) as [[|a l]|]; try (eexists _, _; reflexivity).
      destruct (oldestSnippet dateTime engineSort (a :: l)) as [[s|]|];
        try (eexists _, _; reflexivity).
      destruct (videoStatOfSnippet s); eexists _, _; reflexivity.
    + unfold getOldestVideo, tryCatch, bind. rewrite Hcall. eexists _, _. reflexivity.
  - intros err w1 Hcall. unfold getOldestVideo, tryCatch, bind. rewrite Hcall. reflexivity.
  - intros data w1 l i Hcall Hitems Hin Hnone.
    rewrite (getOldestVideo_fetched _ _ _ _ Hcall), Hitems.
    destruct l as [|a l]; [reflexivity|].
    destruct (oldestSnippet_missing (a :: l) i Hin Hnone) as [-> | ->]; reflexivity.
  - intros data w1 l page Hcall Hitems Hne Hmap Hvalid.
    destruct (oldestSnippet_first l page Hne Hmap Hvalid) as (s0 & Hfirst & Hold).
    split; [exists s0; exact Hold|].
    intros s Hs. rewrite (firstOldest_unique s s0 page Hs Hold).
    rewrite (getOldestVideo_fetched _ _ _ _ Hcall), Hitems.
    destruct l as [|a l]; [contradiction|]. rewrite Hfirst. split.
    + intros r t u Hr Ht Hu. rewrite (videoStatOfSnippet_built s0 r t u Hr Ht Hu). reflexivity.
    + intros Hmissing. rewrite (videoStatOfSnippet_fails s0 Hmissing). reflexivity.
  - intros v w'.
    destruct (call net playlistItems (playlistParams playlistId) w) as [[data | err] w1] eqn:Hcall.
    + rewrite (getOldestVideo_fetched _ _ _ _ Hcall).
      destruct (items data) as [[|a l]|]; try discriminate.
      destruct (oldestSnippet dateTime engineSort (a :: l)) as [[s|]|]; try discriminate.
      destruct (videoStatOfSnippet s) as [video|] eqn:Hvideo; [|discriminate].
      intros [= <- _]. exact (videoStatOfSnippet_counts s video Hvideo).
    + unfold getOldestVideo, tryCatch, bind. rewrite Hcall. discriminate.
  - apply others_propagate.
Qed.

End OldestVideo.

Section OldestVideoInRange.

Variable net : Net.
Variable dateTime : string -> option Z.
Variable engineSort : list PlaylistSnippet -> list PlaylistSnippet.







End OldestVideoInRange.

(** The sample collection: uploads a, b, c, d at 100, 900, 500, 450. *)




(** On the sample collection [getOldestVideo] picks upload a, the range
    query upload c although d is in range too and older. *)
Lemma oldest_video_sample :
  fst (getOldestVideo uploadsNet millis asServed "PL-uploads" oneKey)
  = Ok (Some {| stat_id := Some "a";
                stat_publishedAt := Some "100";
                stat_title := Some "Video a";
                stat_description := Some "";
                stat_thumbnailUrl := Some "thumb/a";
                stat_viewCount := Some "0";
                stat_likeCount := Some "0";
                stat_commentCount := Some "0" |}).
Proof. reflexivity. Qed.

Lemma oldest_video_example :
  getOldestVideo offlineNet millis asServed "PL-uploads" oneKey
  = (Ok None, sent (request playlistItems (playlistParams "PL-uploads") (Some "key-A")) oneKey)
  /\ getOldestVideo uploadsNet millis asServed "PL-uploads" oneKey
     = (Ok (Some {| stat_id := Some "a";
                    stat_publishedAt := Some "100";
                    stat_title := Some "Video a";
                    stat_description := Some "";
                    stat_thumbnailUrl := Some "thumb/a";
                    stat_viewCount := Some "0";
                    stat_likeCount := Some "0";
                    stat_commentCount := Some "0" |}),
        sent (request playlistItems (playlistParams "PL-uploads") (Some "key-A")) oneKey).
Proof.
  split.
  - apply (proj1 (proj2 (oldest_video_degrades_to_null offlineNet millis asServed
                           sameInstant countOf numberString "PL-uploads" oneKey))
             (mkError "Failed to fetch")).
    reflexivity.
  - destruct (proj1 (proj2 (proj2 (proj2 (oldest_video_degrades_to_null uploadsNet millis
                                            asServed sameInstant countOf numberString
                                            "PL-uploads" oneKey))))
                {| items := Some uploadsPage; nextPageToken := None |}
                (sent (request playlistItems (playlistParams "PL-uploads") (Some "key-A")) oneKey)
                uploadsPage
                [uploadSnippet "a" "100"; uploadSnippet "b" "900";
                 uploadSnippet "c" "500"; uploadSnippet "d" "450"])
      as [_ Holdest].
    + reflexivity.
    + reflexivity.
    + discriminate.
    + reflexivity.
    + repeat constructor; eexists; reflexivity.
    + refine (proj1 (Holdest (uploadSnippet "a" "100") _)
                {| resource_videoId := Some "a" |}
                {| high := None; default := Some {| url := Some "thumb/a" |} |}
                (Some "thumb/a") eq_refl eq_refl eq_refl).
      exists [], [uploadSnippet "b" "900"; uploadSnippet "c" "500"; uploadSnippet "d" "450"],
             100%Z.
      split; [reflexivity|]. split; [reflexivity|]. split; [intros s' []|].
      intros s' [<- | [<- | [<- | []]]]; [exists 900%Z | exists 500%Z | exists 450%Z];
        (split; [reflexivity | lia]).
Defined.

(** ** Number formatting *)

Lemma checkRun_sound (count : nat) (t : Z) :
  forall n,
    checkRun count n t = true ->
    forall k, (n <= k < n + Z.of_nat count)%Z -> thousandsRoundTo k t = true.
Proof.
  induction count as [|count IH]; intros n Hall k Hk; [lia|].
  cbn [checkRun] in Hall. apply andb_true_iff in Hall as [Hn Hrest].
  destruct (Z.eq_dec k n) as [-> | Hne]; [exact Hn|].
  apply (IH (n + 1)%Z Hrest). lia.
Qed.

Lemma checkTenths_sound (count : nat) :
  forall t0,
    checkTenths count t0 = true ->
    forall t, (t0 <= t < t0 + Z.of_nat count)%Z ->
    forall n, (100 * t - 49 <= n <= 100 * t + 49)%Z -> thousandsRoundTo n t = true.
Proof.
  induction count as [|count IH]; intros t0 Hall t Ht n Hn; [lia|].
  cbn [checkTenths] in Hall. apply andb_true_iff in Hall as [Hrun Hrest].
  destruct (Z.eq_dec t t0) as [-> | Hne].
  - apply (checkRun_sound 99 t0 _ Hrun). lia.
  - apply (IH (t0 + 1)%Z Hrest t); lia.
Qed.

(** Every number of tenths from 1.0 to 100.0, checked on the doubles. *)
Lemma thousands_checked : checkTenths (Z.to_nat 991) 10 = true.
Proof. vm_compute. reflexivity. Qed.

Lemma thousands_round_to_nearest (n : Z) :
  (1000 <= n < 100000)%Z ->
  (n mod 100 <> 50)%Z ->
  thousandsRoundTo n ((n + 50) / 100) = true.
Proof.
  intros Hn Htie.
  pose proof (Z.div_mod (n + 50) 100 ltac:(lia)) as Hdiv.
  pose proof (Z.mod_pos_bound (n + 50) 100 ltac:(lia)) as Hmod.
  assert (Hnot : ((n + 50) mod 100 <> 0)%Z).
  { intros H0. apply Htie.
    replace n with (50 + ((n + 50) / 100 - 1) * 100)%Z by lia.
    rewrite Z.mod_add by lia. reflexivity. }
  apply (checkTenths_sound (Z.to_nat 991) 10 thousands_checked); lia.
Qed.

Lemma stripDotZero_digits (u : Decimal.uint) (rest : string) :
  stripDotZero (NilEmpty.string_of_uint u ++ rest)
  = (NilEmpty.string_of_uint u ++ stripDotZero rest)%string.
Proof.
  induction u; simpl; [reflexivity | rewrite IHu; reflexivity ..].
Qed.

Lemma stripDotZero_decimalZ (a : Z) (rest : string) :
  (0 <= a)%Z ->
  stripDotZero (decimalZ a ++ rest) = (decimalZ a ++ stripDotZero rest)%string.
Proof.
  intros Ha. unfold decimalZ. destruct a as [|p|p]; [reflexivity| |lia].
  simpl. unfold NilZero.string_of_uint.
  destruct (Pos.to_uint p) eqn:Hu; try (rewrite <- Hu; apply stripDotZero_digits).
  reflexivity.
Qed.

(** Dropping [.0] from a number of tenths. *)
Lemma stripDotZero_tenths (t : Z) :
  (0 <= t)%Z ->
  stripDotZero (renderTenths t)
  = if (t mod 10 =? 0)%Z then decimalZ (t / 10) else renderTenths t.
Proof.
  intros Ht. unfold renderTenths.
  rewrite stripDotZero_decimalZ by (apply Z.div_pos; lia).
  pose proof (Z.mod_pos_bound t 10 ltac:(lia)) as Hd.
  assert (Hcases : (t mod 10 = 0 \/ t mod 10 = 1 \/ t mod 10 = 2 \/ t mod 10 = 3
                    \/ t mod 10 = 4 \/ t mod 10 = 5 \/ t mod 10 = 6 \/ t mod 10 = 7
                    \/ t mod 10 = 8 \/ t mod 10 = 9)%Z) by lia.
  repeat (destruct Hcases as [-> | Hcases]); try rewrite Hcases; simpl;
    try reflexivity.
  induction (decimalZ (t / 10)) as [|c d IH]; simpl; [|rewrite IH]; reflexivity.
Qed.

Lemma thousands_nearest_tenth (parseInt : string -> option Z) (n : Z) :
  (1000 <= n < 100000)%Z ->
  (n mod 100 <> 50)%Z ->
  formatNumber parseInt (inl n) = (abbreviate n 1000 ++ "K")%string.
Proof.
  intros Hn Htie.
  pose proof (thousands_round_to_nearest n Hn Htie) as Hround.
  unfold thousandsRoundTo in Hround. unfold formatNumber.
  replace (1000000 <=? n)%Z with false by (symmetry; apply Z.leb_gt; lia).
  replace (1000 <=? n)%Z with true by (symmetry; apply Z.leb_le; lia).
  unfold toFixed1.
  destruct (FloatOps.Prim2SF (PrimFloat.div (toDouble n) (toDouble 1000)))
    as [| | |[|] m e]; try discriminate.
  apply Z.eqb_eq in Hround. rewrite Hround. cbn [append].
  unfold abbreviate.
  replace ((2 * 10 * n + 1000) / (2 * 1000))%Z with ((n + 50) / 100)%Z.
  2: { replace (2 * 10 * n + 1000)%Z with ((n + 50) * 20)%Z by lia.
       replace (2 * 1000)%Z with (100 * 20)%Z by lia.
       rewrite Z.div_mul_cancel_r by lia. reflexivity. }
  rewrite stripDotZero_tenths by (apply Z.div_pos; lia).
  destruct ((n + 50) / 100 mod 10 =? 0)%Z; reflexivity.
Qed.

(** C9. [formatNumber] maps 999 to ["999"], 1500 to ["1.5K"] and 2000000
    to ["2M"].  Below 1000 the result is the plain decimal string; from
    1000 on it is the number of thousands, from 1000000 on the number of
    millions, to one decimal place ([toFixed(1)] of the quotient computed
    on doubles) without a trailing [.0], followed by [K] or [M].  Up to
    100000 that decimal is checked to be the nearest tenth, whenever the
    number is not exactly halfway between two tenths of a thousand. *)
Theorem format_number (parseInt : string -> option Z) :
  formatNumber parseInt (inl 999%Z) = "999"
  /\ formatNumber parseInt (inl 1500%Z) = "1.5K"
  /\ formatNumber parseInt (inl 2000000%Z) = "2M"
  /\ (forall n : Z, (- maxSafeInteger <= n < 1000)%Z ->
        formatNumber parseInt (inl n) = decimalZ n)
  /\ (forall n : Z, (1000 <= n < 1000000)%Z ->
        formatNumber parseInt (inl n)
        = (stripDotZero (toFixed1 (PrimFloat.div (toDouble n) (toDouble 1000))) ++ "K")%string)
  /\ (forall n : Z, (1000000 <= n <= maxSafeInteger)%Z ->
        formatNumber parseInt (inl n)
        = (stripDotZero (toFixed1 (PrimFloat.div (toDouble n) (toDouble 1000000))) ++ "M")%string)
  /\ (forall n : Z, (1000 <= n < 100000)%Z -> (n mod 100 <> 50)%Z ->
        formatNumber parseInt (inl n) = (abbreviate n 1000 ++ "K")%string).
Proof.
  split; [reflexivity|]. split; [reflexivity|]. split; [reflexivity|].
  split; [|split; [|split]].
  - intros n Hn. unfold formatNumber.
    replace (1000000 <=? n)%Z with false by (symmetry; apply Z.leb_gt; lia).
    replace (1000 <=? n)%Z with false by (symmetry; apply Z.leb_gt; lia).
    reflexivity.
  - intros n Hn. unfold formatNumber.
    replace (1000000 <=? n)%Z with false by (symmetry; apply Z.leb_gt; lia).
    replace (1000 <=? n)%Z with true by (symmetry; apply Z.leb_le; lia).
    reflexivity.
  - intros n Hn. unfold formatNumber.
    replace (1000000 <=? n)%Z with true by (symmetry; apply Z.leb_le; lia).
    reflexivity.
  - intros n Hn Htie. exact (thousands_nearest_tenth parseInt n Hn Htie).
Qed.

Lemma format_number_examples :
  formatNumber (fun _ => None) (inl 999%Z) = decimalZ 999
  /\ formatNumber (fun _ => None) (inl 1049%Z) = "1K"
  /\ formatNumber (fun _ => None) (inl 2000000%Z)
     = (stripDotZero (toFixed1 (PrimFloat.div (toDouble 2000000) (toDouble 1000000))) ++ "M")%string
  /\ formatNumber (fun _ => None) (inl 1500%Z)
     = (stripDotZero (toFixed1 (PrimFloat.div (toDouble 1500) (toDouble 1000))) ++ "K")%string.
Proof.
  pose proof (format_number (fun _ => None)) as (_ & _ & _ & Hsmall & Hk & Hm & Hnear).
  split; [apply Hsmall; unfold maxSafeInteger; lia|].
  split; [apply (Hnear 1049%Z); [lia | vm_compute; discriminate]|].
  split; [apply Hm; unfold maxSafeInteger; lia | apply Hk; lia].
Defined.

(** * Further properties of the service *)

(** ** One call of the fetcher *)

Lemma attemptsTrace_step (e : Endpoint) (params : Params) (w : World) (n : nat) :
  currentKeyIndex w < length (apiKeys w) ->
  afterAttempts e params
    (sent (request e params (nth_error (apiKeys w) (currentKeyIndex w)))
          {| apiKeys := apiKeys w;
             currentKeyIndex := (currentKeyIndex w + 1) mod length (apiKeys w);
             requests := requests w |}) n
  = afterAttempts e params w (S n).
Proof.
  intros Hc. unfold afterAttempts, attemptsTrace, sent. cbn [apiKeys currentKeyIndex requests].
  f_equal.
  - rewrite Nat.Div0.add_mod_idemp_l. f_equal. lia.
  - rewrite <- app_assoc. f_equal. cbn [seq map app].
    rewrite Nat.add_0_r, (Nat.mod_small _ _ Hc). f_equal.
    rewrite <- seq_shift, map_map. apply map_ext. intros i.
    rewrite Nat.Div0.add_mod_idemp_l. do 3 f_equal. lia.
Qed.

Lemma getNextApiKey_cursor (w : World) :
  length (apiKeys w) <> 0 ->
  getNextApiKey w
  = (Ok (nth_error (apiKeys w) (currentKeyIndex w)),
     {| apiKeys := apiKeys w;
        currentKeyIndex := (currentKeyIndex w + 1) mod length (apiKeys w);
        requests := requests w |}).
Proof.
  intros Hne. unfold getNextApiKey.
  destruct (length (apiKeys w) =? 0) eqn:E; [|reflexivity].
  apply Nat.eqb_eq in E. contradiction.
Qed.

(** From any attempt of the retry loop on, the requests still made are the
    next ones of the rotation. *)
Lemma fetch_attempts_from (net : Net) (e : Endpoint) (params : Params) :
  forall remaining attempt w,
    currentKeyIndex w < length (apiKeys w) ->
    attempt + remaining = length (apiKeys w) ->
    exists n, n <= remaining /\ (0 < remaining -> 1 <= n)
              /\ snd (fetchYouTubeAPI net e params attempt w)
                 = afterAttempts e params w n.
Proof.
  induction remaining as [|remaining IH]; intros attempt w Hc Hsum.
  - exists 0. split; [lia|]. split; [lia|].
    rewrite fetchYouTubeAPI_eq.
    replace (length (apiKeys w) <=? attempt) with true by (symmetry; apply Nat.leb_le; lia).
    replace (0 <? length (apiKeys w)) with true by (symmetry; apply Nat.ltb_lt; lia).
    simpl. unfold afterAttempts, attemptsTrace. simpl.
    rewrite Nat.add_0_r, (Nat.mod_small _ _ Hc), app_nil_r. destruct w; reflexivity.
  - assert (Hstep : forall n', n' <= remaining ->
               snd (fetchYouTubeAPI net e params (attempt + 1)
                      (sent (request e params (nth_error (apiKeys w) (currentKeyIndex w)))
                            {| apiKeys := apiKeys w;
                               currentKeyIndex := (currentKeyIndex w + 1) mod length (apiKeys w);
                               requests := requests w |}))
               = afterAttempts e params
                   (sent (request e params (nth_error (apiKeys w) (currentKeyIndex w)))
                         {| apiKeys := apiKeys w;
                            currentKeyIndex := (currentKeyIndex w + 1) mod length (apiKeys w);
                            requests := requests w |}) n' ->
               exists n, n <= S remaining /\ (0 < S remaining -> 1 <= n)
                         /\ snd (fetchYouTubeAPI net e params (attempt + 1)
                                   (sent (request e params (nth_error (apiKeys w) (currentKeyIndex w)))
                                         {| apiKeys := apiKeys w;
                                            currentKeyIndex := (currentKeyIndex w + 1) mod length (apiKeys w);
                                            requests := requests w |}))
                            = afterAttempts e params w n).
    { intros n' Hn' Heq. exists (S n'). split; [lia|]. split; [lia|].
      rewrite Heq. apply attemptsTrace_step. exact Hc. }
    assert (Hone : exists n, n <= S remaining /\ (0 < S remaining -> 1 <= n)
                     /\ sent (request e params (nth_error (apiKeys w) (currentKeyIndex w)))
                          {| apiKeys := apiKeys w;
                             currentKeyIndex := (currentKeyIndex w + 1) mod length (apiKeys w);
                             requests := requests w |}
                        = afterAttempts e params w n).
    { exists 1. split; [lia|]. split; [lia|].
      unfold afterAttempts, attemptsTrace, sent. simpl.
      rewrite Nat.add_0_r, (Nat.mod_small _ _ Hc). reflexivity. }
    destruct (IH (attempt + 1)
                (sent (request e params (nth_error (apiKeys w) (currentKeyIndex w)))
                      {| apiKeys := apiKeys w;
                         currentKeyIndex := (currentKeyIndex w + 1) mod length (apiKeys w);
                         requests := requests w |}))
      as (n' & Hn' & _ & Hrec).
    { simpl. apply Nat.mod_upper_bound. lia. }
    { simpl. lia. }
    rewrite fetchYouTubeAPI_eq.
    replace (length (apiKeys w) <=? attempt) with false by (symmetry; apply Nat.leb_gt; lia).
    simpl andb. cbv iota.
    rewrite getNextApiKey_cursor by lia. cbv zeta.
    destruct (tryBlock _ _) as [payload | | err].
    + exact Hone.
    + exact (Hstep n' Hn' Hrec).
    + destruct (includes (message err) "API key(s) failed"); [exact Hone|].
      destruct (_ && _); [exact (Hstep n' Hn' Hrec) | exact Hone].
Qed.

Lemma fetch_keeps_invariant (net : Net) (e : Endpoint) (params : Params) (w : World) :
  poolInvariant w -> poolInvariant (snd (fetchYouTubeAPI net e params 0 w)).
Proof.
  intros [Hc | [Hnil Hzero]].
  - destruct (fetch_attempts_from net e params (length (apiKeys w)) 0 w Hc eq_refl)
      as (n & _ & _ & ->).
    left. simpl. apply Nat.mod_upper_bound. lia.
  - rewrite fetchYouTubeAPI_eq. unfold getNextApiKey. rewrite Hnil. simpl.
    right. auto.
Qed.

(** X1. A call that runs alone, no other call of the service taking a
    key between its attempts, and that starts with a valid cursor makes,
    whatever upstream answers, between one and [N] requests ([N] the pool
    size), attempt [i] with the key at position [cursor + i] modulo [N],
    and leaves the cursor advanced by the number of requests made.  (In
    this development a call runs to its end before the next one starts;
    calls that overlap share the cursor, and which keys one of them uses
    then depends on the others.) *)
Theorem fetch_rotates_keys (net : Net) (e : Endpoint) (params : Params) (w : World) :
  currentKeyIndex w < length (apiKeys w) ->
  exists n,
    1 <= n <= length (apiKeys w)
    /\ snd (fetchYouTubeAPI net e params 0 w) = afterAttempts e params w n.
Proof.
  intros Hc.
  destruct (fetch_attempts_from net e params (length (apiKeys w)) 0 w Hc eq_refl)
    as (n & Hle & Hpos & Heq).
  exists n. split; [split; [apply Hpos; lia | exact Hle] | exact Heq].
Qed.

Lemma fetch_rotates_keys_example :
  exists n,
    1 <= n <= 2
    /\ snd (fetchYouTubeAPI forbiddenOnce channels [] 0 twoKeys)
       = afterAttempts channels [] twoKeys n.
Proof.
  apply (fetch_rotates_keys forbiddenOnce channels [] twoKeys). simpl. lia.
Defined.

(** X2. The cursor stays inside the pool: the invariant holds in the
    initial state and after [setApiKeys], and [getNextApiKey] and
    [fetchYouTubeAPI] keep it, whatever upstream answers. *)
Theorem pool_invariant_kept :
  poolInvariant initial
  /\ (forall keys w, poolInvariant (setApiKeys keys w))
  /\ (forall w, poolInvariant w -> poolInvariant (snd (getNextApiKey w)))
  /\ (forall net e params w,
        poolInvariant w -> poolInvariant (snd (fetchYouTubeAPI net e params 0 w))).
Proof.
  split; [right; split; reflexivity|].
  split.
  { intros [|k keys] w; [right; split; reflexivity | left; simpl; lia]. }
  split.
  - intros w [Hc | [Hnil Hzero]].
    + rewrite getNextApiKey_cursor by lia. left. simpl.
      apply Nat.mod_upper_bound. lia.
    + unfold getNextApiKey. rewrite Hnil. simpl. right. auto.
  - intros net e params w. apply fetch_keeps_invariant.
Qed.

Lemma pool_invariant_example :
  poolInvariant (snd (getNextApiKey twoKeys))
  /\ poolInvariant (snd (fetchYouTubeAPI quotaNet search [] 0 twoKeys)).
Proof.
  destruct pool_invariant_kept as (_ & Hset & Hnext & Hfetch).
  split; [apply Hnext | apply Hfetch]; apply Hset.
Defined.

Lemma unreachable_from (net : Net) (err : Error) (e : Endpoint) (params : Params) :
  unreachable net err ->
  includes (message err) "API key(s) failed" = false ->
  forall remaining attempt w,
    currentKeyIndex w < length (apiKeys w) ->
    attempt + S remaining = length (apiKeys w) ->
    fetchYouTubeAPI net e params attempt w
    = (Throw err, afterAttempts e params w (S remaining)).
Proof.
  intros Hnet Hmsg. induction remaining as [|remaining IH]; intros attempt w Hc Hsum;
    rewrite fetchYouTubeAPI_eq;
    (replace (length (apiKeys w) <=? attempt) with false by (symmetry; apply Nat.leb_gt; lia));
    simpl andb; cbv iota;
    rewrite getNextApiKey_cursor by lia; cbv zeta;
    rewrite Hnet; cbn [tryBlock]; rewrite Hmsg; cbn [apiKeys].
  - replace (attempt <? length (apiKeys w) - 1) with false by (symmetry; apply Nat.ltb_ge; lia).
    rewrite andb_false_r. f_equal.
    unfold afterAttempts, attemptsTrace, sent. simpl.
    rewrite Nat.add_0_r, (Nat.mod_small _ _ Hc). reflexivity.
  - replace (1 <? length (apiKeys w)) with true by (symmetry; apply Nat.ltb_lt; lia).
    replace (attempt <? length (apiKeys w) - 1) with true by (symmetry; apply Nat.ltb_lt; lia).
    simpl andb. cbv iota.
    rewrite IH.
    + f_equal. apply attemptsTrace_step. exact Hc.
    + simpl. apply Nat.mod_upper_bound. lia.
    + simpl. lia.
Qed.

(** X3. When upstream cannot be reached, with an error whose message
    does not contain ["API key(s) failed"], a call that runs alone (no
    other call of the service taking a key between its attempts) tries
    every key of the pool once, [N] requests in rotation order, and then
    re-raises the transport error itself, not the exhaustion error. *)
Theorem transport_failure_tries_every_key (net : Net) (err : Error) (e : Endpoint)
  (params : Params) (w : World) :
  unreachable net err ->
  includes (message err) "API key(s) failed" = false ->
  currentKeyIndex w < length (apiKeys w) ->
  fetchYouTubeAPI net e params 0 w
  = (Throw err, afterAttempts e params w (length (apiKeys w))).
Proof.
  intros Hnet Hmsg Hc.
  pose proof (unreachable_from net err e params Hnet Hmsg
                (length (apiKeys w) - 1) 0 w Hc) as H.
  replace (S (length (apiKeys w) - 1)) with (length (apiKeys w)) in H by lia.
  apply H. reflexivity.
Qed.

Lemma transport_failure_example :
  fetchYouTubeAPI offlineNet search [] 0 twoKeys
  = (Throw (mkError "Failed to fetch"), afterAttempts search [] twoKeys 2).
Proof.
  apply (transport_failure_tries_every_key offlineNet (mkError "Failed to fetch")
           search [] twoKeys).
  - intros trace e q. reflexivity.
  - reflexivity.
  - simpl. lia.
Defined.

(** X4. With a single key a call makes exactly one request, and a
    quota-class rejection comes back as [UpstreamRequestFailed] with the
    upstream message: the exhaustion error needs a second key. *)
Theorem single_key_quota_rejection (net : Net) (e : Endpoint) (params : Params)
  (w : World) (d : ErrorData) :
  length (apiKeys w) = 1 ->
  currentKeyIndex w = 0 ->
  net (requests w) e (query (request e params (nth_error (apiKeys w) 0))) = HttpError (Ok d) ->
  quotaClass (errorReason d) = true ->
  fetchYouTubeAPI net e params 0 w
  = (Throw (UpstreamRequestFailed (errorMessage d)), afterAttempts e params w 1).
Proof.
  intros Hone Hzero Hresp Hquota.
  assert (Hafter : sent (request e params (nth_error (apiKeys w) 0))
                     {| apiKeys := apiKeys w; currentKeyIndex := 0; requests := requests w |}
                   = afterAttempts e params w 1).
  { unfold afterAttempts, attemptsTrace, sent. simpl. rewrite Hzero, Hone. reflexivity. }
  rewrite fetchYouTubeAPI_eq, Hone. simpl andb. cbv iota.
  rewrite getNextApiKey_cursor by lia. rewrite Hzero, Hone. cbv zeta. cbn [apiKeys requests].
  rewrite Hresp. cbn [tryBlock]. rewrite Hquota, Hone. simpl andb. cbv iota.
  change (0 + 1) with 1. change (1 mod 1) with 0.
  rewrite Hafter. change (1 <? 1) with false. cbv iota.
  destruct (includes (message (UpstreamRequestFailed (errorMessage d))) "API key(s) failed");
    reflexivity.
Qed.

Lemma single_key_quota_example :
  fetchYouTubeAPI quotaNet search [] 0 oneKey
  = (Throw (mkError "Quota exceeded."), afterAttempts search [] oneKey 1).
Proof.
  apply (single_key_quota_rejection quotaNet search [] oneKey
           (rejection "quotaExceeded" "Quota exceeded.")); reflexivity.
Defined.

(** ** Cost and configuration errors of the operations *)

Lemma call_cost (net : Net) (e : Endpoint) (params : Params) (w : World) :
  poolInvariant w ->
  exists new,
    requests (snd (call net e params w)) = requests w ++ new
    /\ length new <= length (apiKeys w)
    /\ Forall (fun r => endpoint r = e) new
    /\ apiKeys (snd (call net e params w)) = apiKeys w
    /\ poolInvariant (snd (call net e params w)).
Proof.
  intros Hinv. unfold call.
  assert (Hkept : poolInvariant (snd (fetchYouTubeAPI net e params 0 w)))
    by (apply fetch_keeps_invariant; exact Hinv).
  destruct Hinv as [Hc | [Hnil Hzero]].
  - destruct (fetch_attempts_from net e params (length (apiKeys w)) 0 w Hc eq_refl)
      as (n & Hn & _ & Heq).
    rewrite Heq in *. exists (attemptsTrace e params w n).
    split; [reflexivity|]. unfold attemptsTrace.
    split; [rewrite length_map, length_seq; exact Hn|].
    split; [|split; [reflexivity | exact Hkept]].
    apply Forall_forall. intros r Hr. apply in_map_iff in Hr as (i & <- & _). reflexivity.
  - exists []. revert Hkept. rewrite fetchYouTubeAPI_eq. unfold getNextApiKey.
    rewrite Hnil. simpl. intros Hkept. rewrite app_nil_r. repeat split; auto.
Qed.

Lemma costs_one (e : Endpoint) (allowed : list Endpoint) (w w1 : World) (new : list Request)
  (bound : nat) :
  In e allowed ->
  requests w1 = requests w ++ new ->
  length new <= bound ->
  Forall (fun r => endpoint r = e) new ->
  costs allowed w w1 bound.
Proof.
  intros Hin Hreq Hlen Hall. exists new. split; [exact Hreq|]. split; [exact Hlen|].
  eapply Forall_impl; [|exact Hall]. intros r ->. exact Hin.
Qed.

Lemma costs_two (e1 e2 : Endpoint) (allowed : list Endpoint) (w w1 w2 : World)
  (new1 new2 : list Request) (bound : nat) :
  In e1 allowed -> In e2 allowed ->
  requests w1 = requests w ++ new1 ->
  requests w2 = requests w1 ++ new2 ->
  length new1 <= bound -> length new2 <= bound ->
  Forall (fun r => endpoint r = e1) new1 ->
  Forall (fun r => endpoint r = e2) new2 ->
  costs allowed w w2 (2 * bound).
Proof.
  intros Hin1 Hin2 Hreq1 Hreq2 Hlen1 Hlen2 Hall1 Hall2.
  exists (new1 ++ new2). split; [rewrite Hreq2, Hreq1, app_assoc; reflexivity|].
  split; [rewrite length_app; lia|].
  apply Forall_app. split; (eapply Forall_impl; [|eassumption]); intros r ->; assumption.
Qed.

Lemma getChannelVideos_cost (net : Net) (channelId : string) (maxResults : nat)
  (pageToken : jsstring) (w : World) :
  poolInvariant w ->
  costs [search; videos] w (snd (getChannelVideos net channelId maxResults pageToken w))
        (2 * length (apiKeys w)).
Proof.
  intros Hinv. unfold getChannelVideos, bind, lift.
  destruct (call_cost net search (videoSearchParams channelId maxResults pageToken) w Hinv)
    as (new1 & Hreq1 & Hlen1 & Hall1 & Hkeys1 & Hinv1).
  destruct (call net search (videoSearchParams channelId maxResults pageToken) w) as [r1 w1].
  simpl in Hreq1, Hkeys1, Hinv1.
  assert (Hfirst : costs [search; videos] w w1 (2 * length (apiKeys w))).
  { apply (costs_one search _ w w1 new1); simpl; auto. lia. }
  destruct r1 as [sd | err]; [|exact Hfirst].
  destruct (match items sd with
            | Some l => mapM searchVideoId l
            | None => Throw TypeError
            end) as [found | err]; [|exact Hfirst].
  destruct (String.eqb (join found) ""); [exact Hfirst|].
  destruct (call_cost net videos [("part", "snippet,statistics"); ("id", join found)] w1 Hinv1)
    as (new2 & Hreq2 & Hlen2 & Hall2 & _ & _).
  rewrite Hkeys1 in Hlen2.
  destruct (call net videos [("part", "snippet,statistics"); ("id", join found)] w1)
    as [r2 w2].
  simpl in Hreq2.
  assert (Hboth : costs [search; videos] w w2 (2 * length (apiKeys w))).
  { apply (costs_two search videos _ w w1 w2 new1 new2); simpl; auto. }
  destruct r2 as [vd | err]; [|exact Hboth].
  destruct (match items vd with
            | Some l => mapM videoStatOfItem l
            | None => Throw TypeError
            end); exact Hboth.
Qed.

(** X5. The number of requests of an operation is bounded by the pool
    size [N]: resolving an identifier costs at most [2N] requests, all to
    [channels] or [search]; a page of videos at most [2N], all to [search]
    or [videos]; the oldest video at most [N], all to [playlistItems]. *)
Theorem operations_bounded_cost (net : Net) (dateTime : string -> option Z)
  (engineSort : list PlaylistSnippet -> list PlaylistSnippet) (w : World) :
  poolInvariant w ->
  (forall identifier,
     costs [channels; search] w (snd (resolveChannelId net identifier w))
           (2 * length (apiKeys w)))
  /\ (forall channelId maxResults pageToken,
        costs [search; videos] w
              (snd (getChannelVideos net channelId maxResults pageToken w))
              (2 * length (apiKeys w)))
  /\ (forall playlistId,
        costs [playlistItems] w (snd (getOldestVideo net dateTime engineSort playlistId w))
              (length (apiKeys w))).
Proof.
  intros Hinv.
  assert (Hnone : forall allowed bound, costs allowed w w bound).
  { intros allowed bound. exists []. rewrite app_nil_r. split; [reflexivity|].
    split; [simpl; lia | constructor]. }
  split; [|split].
  - intros identifier. unfold resolveChannelId.
    destruct (String.prefix "UC" identifier); [apply Hnone|].
    unfold bind, tryCatch, resolveByUsername, bind.
    destruct (call_cost net channels (usernameParams identifier) w Hinv)
      as (new1 & Hreq1 & Hlen1 & Hall1 & Hkeys1 & Hinv1).
    destruct (call net channels (usernameParams identifier) w) as [r1 w1].
    simpl in Hreq1, Hkeys1, Hinv1.
    assert (Hsearch : costs [channels; search] w
                        (snd (resolveBySearch net identifier w1)) (2 * length (apiKeys w))).
    { unfold resolveBySearch, bind.
      destruct (call_cost net search (channelSearchParams identifier) w1 Hinv1)
        as (new2 & Hreq2 & Hlen2 & Hall2 & _ & _).
      rewrite Hkeys1 in Hlen2.
      destruct (call net search (channelSearchParams identifier) w1) as [r2 w2].
      simpl in Hreq2.
      assert (Hboth : costs [channels; search] w w2 (2 * length (apiKeys w))).
      { apply (costs_two channels search _ w w1 w2 new1 new2); simpl; auto. }
      destruct r2 as [data | err]; [|exact Hboth].
      destruct (items data) as [[|first rest]|]; try exact Hboth.
      destruct (search_snippet first) as [s|]; [|exact Hboth].
      destruct (truthy (channelId s)); exact Hboth. }
    assert (Hlookup : costs [channels; search] w w1 (2 * length (apiKeys w))).
    { apply (costs_one channels _ w w1 new1); simpl; auto. lia. }
    destruct r1 as [data | err]; [|exact Hsearch].
    destruct (items data) as [[|first rest]|]; simpl; try exact Hsearch. exact Hlookup.
  - intros channelId maxResults pageToken. apply getChannelVideos_cost. exact Hinv.
  - intros playlistId. unfold getOldestVideo, tryCatch, bind, lift.
    destruct (call_cost net playlistItems (playlistParams playlistId) w Hinv)
      as (new1 & Hreq1 & Hlen1 & Hall1 & _ & _).
    destruct (call net playlistItems (playlistParams playlistId) w) as [r1 w1].
    simpl in Hreq1.
    assert (Hfirst : costs [playlistItems] w w1 (length (apiKeys w))).
    { apply (costs_one playlistItems _ w w1 new1); simpl; auto. }
    destruct r1 as [data | err]; [|exact Hfirst].
    destruct (items data) as [[|i l]|]; try exact Hfirst.
    destruct (oldestSnippet dateTime engineSort (i :: l)) as [[s|]|]; try exact Hfirst.
    destruct (videoStatOfSnippet s); exact Hfirst.
Qed.

Lemma operations_bounded_cost_example :
  costs [channels; search] twoKeys (snd (resolveChannelId quotaNet "SomeHandle" twoKeys)) 4
  /\ costs [playlistItems] twoKeys (snd (getOldestVideo quotaNet millis asServed "PL-uploads" twoKeys)) 2.
Proof.
  destruct (operations_bounded_cost quotaNet millis asServed twoKeys) as (Hresolve & _ & Holdest).
  - left. simpl. lia.
  - split; [apply Hresolve | apply Holdest].
Defined.

(** X6. With no key configured nothing is ever requested: the fetcher,
    the resolver (off its fast path), the video page and the range query
    fail with [NoCredentialsConfigured] in the unchanged state, whereas
    [getOldestVideo] answers [null], hiding the configuration error. *)
Theorem no_keys_no_requests (net : Net) (dateTime : string -> option Z)
  (engineSort : list PlaylistSnippet -> list PlaylistSnippet) (w : World) :
  apiKeys w = [] ->
  (forall e params attempt,
     fetchYouTubeAPI net e params attempt w = (Throw NoCredentialsConfigured, w))
  /\ (forall identifier,
        String.prefix "UC" identifier = false ->
        resolveChannelId net identifier w = (Throw NoCredentialsConfigured, w))
  /\ (forall channelId maxResults pageToken,
        getChannelVideos net channelId maxResults pageToken w
        = (Throw NoCredentialsConfigured, w))
  /\ (forall playlistId, getOldestVideo net dateTime engineSort playlistId w = (Ok None, w))
  /\ (forall fuel playlistId startDate endDate,
        truthy startDate = true -> truthy endDate = true ->
        getOldestVideoInRange net dateTime engineSort (S fuel) playlistId startDate endDate w
        = Some (Throw NoCredentialsConfigured, w)).
Proof.
  intros Hnil.
  assert (Hfetch : forall e params attempt,
             fetchYouTubeAPI net e params attempt w = (Throw NoCredentialsConfigured, w)).
  { intros e params attempt. rewrite fetchYouTubeAPI_eq. unfold getNextApiKey.
    rewrite Hnil. simpl. reflexivity. }
  split; [exact Hfetch|]. split; [|split; [|split]].
  - intros identifier Hprefix. unfold resolveChannelId. rewrite Hprefix.
    unfold bind, tryCatch, resolveByUsername, resolveBySearch, bind, call.
    rewrite Hfetch. cbn. rewrite Hfetch. reflexivity.
  - intros channelId maxResults pageToken. unfold getChannelVideos, bind, call.
    rewrite Hfetch. reflexivity.
  - intros playlistId. unfold getOldestVideo, tryCatch, bind, call.
    rewrite Hfetch. reflexivity.
  - intros fuel playlistId startDate endDate Hs He.
    unfold getOldestVideoInRange. rewrite Hs, He. cbn [negb orb pageLoop].
    unfold call. rewrite Hfetch. reflexivity.
Qed.

Lemma no_keys_example :
  resolveChannelId handleNet "SomeHandle" initial = (Throw NoCredentialsConfigured, initial)
  /\ getChannelVideos handleNet "UC-channel" 12 None initial
     = (Throw NoCredentialsConfigured, initial)
  /\ getOldestVideo uploadsNet millis asServed "PL-uploads" initial = (Ok None, initial)
  /\ getOldestVideoInRange uploadsNet millis asServed 1 "PL-uploads" (Some "400") (Some "600")
       initial
     = Some (Throw NoCredentialsConfigured, initial).
Proof.
  destruct (no_keys_no_requests handleNet millis asServed initial eq_refl)
    as (_ & Hresolve & Hpage & _).
  destruct (no_keys_no_requests uploadsNet millis asServed initial eq_refl)
    as (_ & _ & _ & Holdest & Hrange).
  split; [apply Hresolve; reflexivity|]. split; [apply Hpage|].
  split; [apply Holdest | apply Hrange; reflexivity].
Defined.

(** ** Statistics over a date range *)

Section DateRangeProperties.

Variable net : Net.
Variable toISOString : string -> Result string.
Variable parseInt : string -> PrimFloat.float.
Variable toString : PrimFloat.float -> string.

Lemma tally_app (acc : Totals) (l1 l2 : list VideoItem) :
  tally parseInt acc (l1 ++ l2)
  = match tally parseInt acc l1 with
    | Ok acc' => tally parseInt acc' l2
    | Throw e => Throw e
    end.
Proof.
  revert acc. induction l1 as [|i l1 IH]; intros acc; [reflexivity|]. simpl.
  destruct (addVideo parseInt acc i); [apply IH | reflexivity].
Qed.

Lemma tally_totals (l : list VideoItem) :
  Forall (fun i => video_statistics i <> None) l ->
  forall acc,
    tally parseInt acc l = Ok (addViews parseInt (fst acc) l, snd acc + length l).
Proof.
  induction 1 as [|i l Hi _ IH]; intros [total count]; simpl.
  - rewrite Nat.add_0_r. reflexivity.
  - unfold addVideo, addViews. cbn [fold_left].
    destruct (video_statistics i) as [st|]; [|contradiction].
    rewrite IH. cbn [fst snd length]. unfold addViews. do 2 f_equal. lia.
Qed.

Lemma rangeLoop_batches (channelId startDate endDate publishedAfter publishedBefore : string)
  (token : jsstring) (w w' : World) (pages : list (list VideoItem)) :
  toISOString startDate = Ok publishedAfter ->
  toISOString endDate = Ok publishedBefore ->
  batches net channelId publishedAfter publishedBefore token w pages w' ->
  forall acc,
  exists w'',
    (forall fuel, length pages <= fuel ->
       rangeLoop net toISOString parseInt fuel channelId startDate endDate acc token w
       = Some (tally parseInt acc (concat pages), w''))
    /\ (forall totals, tally parseInt acc (concat pages) = Ok totals -> w'' = w').
Proof.
  intros Hstart Hend.
  induction 1 as [token w w1 w2 searchData hits ids page Hsearch Hhits Hids Hhyd Hlast
                 | token w w1 w2 w' searchData hits ids page pages
                     Hsearch Hhits Hids Hhyd Hmore Hrest IH];
    intros acc.
  - cbn [item] in Hlast. cbn [concat]. rewrite app_nil_r.
    destruct Hhyd as [ids w1 Hjoin | ids w1 w2 videosData page Hjoin Hvideos Hitems].
    + exists w1. split; [|reflexivity].
      intros [|fuel] Hfuel; [simpl in Hfuel; lia|].
      cbn [rangeLoop]. rewrite Hstart, Hend. unfold rangeBatch, bind, lift.
      rewrite Hsearch, Hhits, Hids, Hjoin. simpl. rewrite Hlast. reflexivity.
    + apply String.eqb_neq in Hjoin.
      destruct (tally parseInt acc page) as [acc'|err] eqn:Htally.
      * exists w2. split; [|reflexivity].
        intros [|fuel] Hfuel; [simpl in Hfuel; lia|].
        cbn [rangeLoop]. rewrite Hstart, Hend. unfold rangeBatch, bind, lift.
        rewrite Hsearch, Hhits, Hids, Hjoin, Hvideos, Hitems, Htally. simpl.
        rewrite Hlast. reflexivity.
      * exists w2. split; [|discriminate].
        intros [|fuel] Hfuel; [simpl in Hfuel; lia|].
        cbn [rangeLoop]. rewrite Hstart, Hend. unfold rangeBatch, bind, lift.
        rewrite Hsearch, Hhits, Hids, Hjoin, Hvideos, Hitems, Htally. reflexivity.
  - cbn [item] in Hmore. cbn [concat]. rewrite tally_app.
    destruct Hhyd as [ids w1 Hjoin | ids w1 w2 videosData page Hjoin Hvideos Hitems].
    + destruct (IH acc) as (w'' & Hloop & Hfinal). exists w''. split; [|exact Hfinal].
      intros [|fuel] Hfuel; [simpl in Hfuel; lia|].
      cbn [rangeLoop]. rewrite Hstart, Hend. unfold rangeBatch, bind, lift.
      rewrite Hsearch, Hhits, Hids, Hjoin. simpl. rewrite Hmore.
      apply Hloop. simpl in Hfuel. lia.
    + apply String.eqb_neq in Hjoin.
      destruct (tally parseInt acc page) as [acc'|err] eqn:Htally.
      * destruct (IH acc') as (w'' & Hloop & Hfinal). exists w''. split; [|exact Hfinal].
        intros [|fuel] Hfuel; [simpl in Hfuel; lia|].
        cbn [rangeLoop]. rewrite Hstart, Hend. unfold rangeBatch, bind, lift.
        rewrite Hsearch, Hhits, Hids, Hjoin, Hvideos, Hitems, Htally. simpl.
        rewrite Hmore. apply Hloop. simpl in Hfuel. lia.
      * exists w2. split; [|discriminate].
        intros [|fuel] Hfuel; [simpl in Hfuel; lia|].
        cbn [rangeLoop]. rewrite Hstart, Hend. unfold rangeBatch, bind, lift.
        rewrite Hsearch, Hhits, Hids, Hjoin, Hvideos, Hitems, Htally. reflexivity.
Qed.

(** X7. Over the batches upstream delivers for a date range,
    [getChannelStatsForDateRange] reports the number of hydrated video
    items of all batches, and their view counts (an absent count being
    ["0"]) added up from 0 in the order of delivery, with the addition of
    the doubles; a batch without ids adds nothing. *)
Theorem range_totals (channelId startDate endDate publishedAfter publishedBefore : string)
  (w w' : World) (pages : list (list VideoItem)) :
  toISOString startDate = Ok publishedAfter ->
  toISOString endDate = Ok publishedBefore ->
  batches net channelId publishedAfter publishedBefore None w pages w' ->
  Forall (fun i => video_statistics i <> None) (concat pages) ->
  forall fuel, length pages <= fuel ->
    getChannelStatsForDateRange net toISOString parseInt toString fuel channelId
      startDate endDate w
    = Some (Ok {| range_viewCount := toString (sumViews parseInt (concat pages));
                  range_videoCount := decimal (length (concat pages)) |}, w').
Proof.
  intros Hstart Hend Hbatches Hstats fuel Hfuel.
  destruct (rangeLoop_batches channelId startDate endDate _ _ None w w' pages
              Hstart Hend Hbatches (toDouble 0, 0)) as (w'' & Hloop & Hfinal).
  unfold getChannelStatsForDateRange. rewrite (Hloop fuel Hfuel).
  pose proof (tally_totals (concat pages) Hstats (toDouble 0, 0)) as Htally.
  rewrite Htally in *. rewrite (Hfinal _ eq_refl). reflexivity.
Qed.

(** X8. An invalid start or end date makes
    [getChannelStatsForDateRange] throw the host's [RangeError] before
    anything is requested. *)
Theorem range_invalid_date (channelId startDate endDate : string) (w : World)
  (err : Error) (fuel : nat) :
  toISOString startDate = Throw err
  \/ (exists publishedAfter, toISOString startDate = Ok publishedAfter)
     /\ toISOString endDate = Throw err ->
  getChannelStatsForDateRange net toISOString parseInt toString (S fuel) channelId
    startDate endDate w
  = Some (Throw err, w).
Proof.
  unfold getChannelStatsForDateRange. cbn [rangeLoop].
  intros [-> | [[publishedAfter ->] ->]]; reflexivity.
Qed.

End DateRangeProperties.

Lemma range_totals_example :
  let w1 := afterAttempts search
              (rangeSearchParams "UC-channel" "2024-01-01" "2024-02-01" None) oneKey 1 in
  let w2 := afterAttempts videos [("part", "statistics"); ("id", "v1,v2")] w1 1 in
  let w3 := afterAttempts search
              (rangeSearchParams "UC-channel" "2024-01-01" "2024-02-01" (Some "page-2"))
              w2 1 in
  getChannelStatsForDateRange rangeNet sameInstant countOf numberString 2 "UC-channel"
    "2024-01-01" "2024-02-01" oneKey
  = Some (Ok {| range_viewCount := "1200"; range_videoCount := "2" |}, w3).
Proof.
  intros w1 w2 w3.
  refine (range_totals rangeNet sameInstant countOf numberString
            "UC-channel" "2024-01-01" "2024-02-01"
            "2024-01-01" "2024-02-01" oneKey w3
            [rangeVideos; []] eq_refl eq_refl _ _ 2 (le_n 2)).
  - apply (@batches_next rangeNet "UC-channel" "2024-01-01" "2024-02-01" None oneKey
             w1 w2 w3 {| items := Some rangeHits; nextPageToken := Some "page-2" |}
             rangeHits [Some "v1"; Some "v2"] rangeVideos [[]]);
      try reflexivity.
    + apply (@hydrated_some rangeNet [Some "v1"; Some "v2"] w1 w2
               {| items := Some rangeVideos; nextPageToken := None |} rangeVideos);
        try reflexivity.
      discriminate.
    + apply (@batches_last rangeNet "UC-channel" "2024-01-01" "2024-02-01" (Some "page-2")
               w2 w3 w3 {| items := Some []; nextPageToken := None |} [] [] []);
        try reflexivity.
      apply hydrated_none. reflexivity.
  - repeat constructor; discriminate.
Defined.

Lemma range_invalid_date_example :
  getChannelStatsForDateRange rangeNet invalidDate countOf numberString 1
    "UC-channel" "soon" "later" oneKey
  = Some (Throw (mkError "Invalid time value"), oneKey).
Proof.
  apply (range_invalid_date rangeNet invalidDate countOf numberString
           "UC-channel" "soon" "later" oneKey).
  left. reflexivity.
Defined.

(** ** Identifier extraction *)

Lemma append_empty_r (s : string) : (s ++ "")%string = s.
Proof. induction s as [|c s IH]; simpl; [|rewrite IH]; reflexivity. Qed.

Lemma append_assoc (a b c : string) : ((a ++ b) ++ c)%string = (a ++ (b ++ c))%string.
Proof. induction a as [|x a IH]; simpl; [|rewrite IH]; reflexivity. Qed.

Lemma length_append (a b : string) :
  String.length (a ++ b) = String.length a + String.length b.
Proof. induction a as [|x a IH]; simpl; [|rewrite IH]; reflexivity. Qed.

Lemma substring_taken (taken rest : string) :
  substring 0 (String.length taken) (taken ++ rest) = taken.
Proof.
  induction taken as [|c taken IH]; simpl.
  - destruct rest; reflexivity.
  - rewrite IH. reflexivity.
Qed.

Lemma suffixOf_refl (s : string) : suffixOf s s.
Proof. exists ""%string. reflexivity. Qed.

Lemma suffixOf_trans (a b c : string) : suffixOf a b -> suffixOf b c -> suffixOf a c.
Proof.
  intros [p ->] [q ->]. exists (q ++ p)%string. rewrite append_assoc. reflexivity.
Qed.

Lemma suffixOf_app (pre s : string) : suffixOf s (pre ++ s).
Proof. exists pre. reflexivity. Qed.

Lemma suffixOf_tail (c : ascii) (s' s : string) : suffixOf s' s -> suffixOf s' (String c s).
Proof. intros [p ->]. exists (String c p). reflexivity. Qed.

Lemma dropPrefix_spec (lit s rest : string) :
  dropPrefix lit s = Some rest -> s = (lit ++ rest)%string.
Proof.
  revert s. induction lit as [|a lit IH]; intros s; simpl.
  - intros [= ->]. reflexivity.
  - destruct s as [|b s]; [discriminate|].
    destruct (Ascii.eqb_spec a b) as [->|]; [|discriminate].
    intros H. rewrite (IH s H). reflexivity.
Qed.

Lemma dropPrefix_app (lit rest : string) : dropPrefix lit (lit ++ rest) = Some rest.
Proof.
  induction lit as [|a lit IH]; simpl; [reflexivity|].
  rewrite Ascii.eqb_refl. exact IH.
Qed.

Lemma takeExactly_spec (class : ascii -> bool) (n : nat) :
  forall s rest,
    takeExactly n class s = Some rest ->
    exists taken, s = (taken ++ rest)%string
                  /\ String.length taken = n
                  /\ allClass class taken = true.
Proof.
  induction n as [|n IH]; intros s rest; simpl.
  - intros [= ->]. exists ""%string. auto.
  - destruct s as [|c s]; [discriminate|].
    destruct (class c) eqn:Hc; [|discriminate].
    intros H. destruct (IH s rest H) as (taken & -> & Hlen & Hall).
    exists (String c taken). simpl. rewrite Hc, Hlen, Hall. auto.
Qed.

Lemma takeExactly_app (class : ascii -> bool) (taken rest : string) :
  allClass class taken = true ->
  takeExactly (String.length taken) class (taken ++ rest) = Some rest.
Proof.
  induction taken as [|c taken IH]; simpl; [destruct rest; reflexivity|].
  intros H. apply andb_true_iff in H as [-> Hall]. exact (IH Hall).
Qed.

Lemma many1_reaches {A} (class : ascii -> bool) (k : nat -> string -> option A) (a : A) :
  forall s pos,
    many1 class pos s k = Some a ->
    exists taken rest,
      s = (taken ++ rest)%string
      /\ taken <> ""%string
      /\ allClass class taken = true
      /\ k (pos + String.length taken) rest = Some a.
Proof.
  induction s as [|c s IH]; intros pos; simpl; [discriminate|].
  destruct (class c) eqn:Hc; [|discriminate].
  destruct (many1 class (S pos) s k) as [a'|] eqn:Hmore.
  - intros [= ->]. destruct (IH (S pos) Hmore) as (taken & rest & -> & _ & Hall & Hk).
    exists (String c taken), rest. simpl. rewrite Hc, Hall.
    repeat split; [discriminate|]. rewrite <- Hk. f_equal. lia.
  - intros Hk. exists (String c ""), s. simpl. rewrite Hc.
    repeat split; [discriminate|]. rewrite <- Hk. f_equal. lia.
Qed.

(** The longest run wins when the continuation accepts it. *)
Lemma many1_longest {A} (class : ascii -> bool) (k : nat -> string -> option A) (a : A)
  (rest : string) :
  match rest with
  | EmptyString => True
  | String c _ => class c = false
  end ->
  forall taken pos,
    taken <> ""%string ->
    allClass class taken = true ->
    k (pos + String.length taken) rest = Some a ->
    many1 class pos (taken ++ rest) k = Some a.
Proof.
  intros Hrest. induction taken as [|c taken IH]; intros pos Hne Hall Hk; [contradiction|].
  simpl in *. apply andb_true_iff in Hall as [-> Hall].
  destruct taken as [|c' taken].
  - simpl in *. replace (pos + 1) with (S pos) in Hk by lia.
    destruct rest as [|r rest]; simpl; [exact Hk|]. rewrite Hrest. exact Hk.
  - rewrite (IH (S pos)); [reflexivity | discriminate | exact Hall |].
    rewrite <- Hk. f_equal. simpl. lia.
Qed.

(** The continuation of a match only ever sees what remains of the text. *)
Lemma run_reaches (r : Regex) :
  forall pos s cap k m,
    run r pos s cap k = Some m ->
    exists pos' s' cap', suffixOf s' s /\ k pos' s' cap' = Some m.
Proof.
  induction r as [lit | r IH | r1 IH1 r2 IH2 | n class | class | r IH | | ];
    intros pos s cap k m; simpl.
  - destruct (dropPrefix lit s) as [rest|] eqn:Hdrop; [|discriminate].
    intros Hk. apply dropPrefix_spec in Hdrop as ->.
    eexists _, _, _. split; [apply suffixOf_app | exact Hk].
  - destruct (run r pos s cap k) as [m'|] eqn:Hrun.
    + intros [= ->]. exact (IH _ _ _ _ _ Hrun).
    + intros Hk. eexists _, _, _. split; [apply suffixOf_refl | exact Hk].
  - intros Hrun. destruct (IH1 _ _ _ _ _ Hrun) as (pos1 & s1 & cap1 & Hs1 & Hrun2).
    destruct (IH2 _ _ _ _ _ Hrun2) as (pos2 & s2 & cap2 & Hs2 & Hk).
    eexists _, _, _. split; [exact (suffixOf_trans _ _ _ Hs2 Hs1) | exact Hk].
  - destruct (takeExactly n class s) as [rest|] eqn:Htake; [|discriminate].
    intros Hk. destruct (takeExactly_spec _ _ _ _ Htake) as (taken & -> & _ & _).
    eexists _, _, _. split; [apply suffixOf_app | exact Hk].
  - intros Hrun. destruct (many1_reaches _ _ _ _ _ Hrun) as (taken & rest & -> & _ & _ & Hk).
    eexists _, _, _. split; [apply suffixOf_app | exact Hk].
  - intros Hrun. destruct (IH _ _ _ _ _ Hrun) as (pos' & s' & cap' & Hs' & Hk).
    eexists _, _, _. split; [exact Hs' | exact Hk].
  - destruct (pos =? 0); [|discriminate].
    intros Hk. eexists _, _, _. split; [apply suffixOf_refl | exact Hk].
  - destruct s; [|discriminate].
    intros Hk. eexists _, _, _. split; [apply suffixOf_refl | exact Hk].
Qed.

(** What a group around a class repetition captures. *)
Lemma run_group_class (g : Regex) (class : ascii -> bool) (n : nat) :
  g = Exactly (S n) class \/ g = Many1 class ->
  forall pos s cap k m,
    run (Group g) pos s cap k = Some m ->
    exists taken rest,
      s = (taken ++ rest)%string
      /\ taken <> ""%string
      /\ allClass class taken = true
      /\ k (pos + String.length taken) rest (Some taken) = Some m.
Proof.
  intros [-> | ->] pos s cap k m; cbn [run].
  - destruct (takeExactly (S n) class s) as [rest|] eqn:Htake; [|discriminate].
    destruct (takeExactly_spec _ _ _ _ Htake) as (taken & -> & Hlen & Hall).
    intros Hk. exists taken, rest.
    split; [reflexivity|]. split; [destruct taken; [discriminate Hlen | discriminate]|].
    split; [exact Hall|].
    rewrite Hlen. replace (pos + S n - pos) with (String.length taken) in Hk by lia.
    rewrite substring_taken in Hk. exact Hk.
  - intros Hrun. destruct (many1_reaches _ _ _ _ _ Hrun) as (taken & rest & -> & Hne & Hall & Hk).
    exists taken, rest. split; [reflexivity|]. split; [exact Hne|]. split; [exact Hall|].
    replace (pos + String.length taken - pos) with (String.length taken) in Hk by lia.
    rewrite substring_taken in Hk. exact Hk.
Qed.

Lemma run_cat (r1 r2 : Regex) pos s cap k :
  run (Cat r1 r2) pos s cap k
  = run r1 pos s cap (fun pos' s' cap' => run r2 pos' s' cap' k).
Proof. reflexivity. Qed.

Lemma run_opt (r : Regex) pos s cap k :
  run (Opt r) pos s cap k
  = match run r pos s cap k with
    | Some m => Some m
    | None => k pos s cap
    end.
Proof. reflexivity. Qed.

Lemma run_lit (lit : string) pos s cap k :
  run (Lit lit) pos s cap k
  = match dropPrefix lit s with
    | Some rest => k (pos + String.length lit) rest cap
    | None => None
    end.
Proof. reflexivity. Qed.

Lemma url_run_capture (literal : string) (g : Regex) (class : ascii -> bool) (n : nat) :
  g = Exactly (S n) class \/ g = Many1 class ->
  forall s pos m,
    run (urlPattern literal g) pos s None (fun _ _ cap => Some cap) = Some m ->
    exists c rest,
      m = Some c /\ c <> ""%string /\ allClass class c = true
      /\ suffixOf (literal ++ c ++ rest) s.
Proof.
  intros Hg s pos m Hrun. unfold urlPattern in Hrun. rewrite run_cat in Hrun.
  destruct (run_reaches _ _ _ _ _ _ Hrun) as (p1 & s1 & c1 & Hs1 & Hrun1).
  rewrite run_cat in Hrun1.
  destruct (run_reaches _ _ _ _ _ _ Hrun1) as (p2 & s2 & c2 & Hs2 & Hrun2).
  rewrite run_cat, run_lit in Hrun2.
  destruct (dropPrefix literal s2) as [rest|] eqn:Hdrop; [|discriminate].
  apply dropPrefix_spec in Hdrop as ->.
  destruct (run_group_class g class n Hg _ _ _ _ _ Hrun2)
    as (taken & rest' & -> & Hne & Hall & [= <-]).
  exists taken, rest'. repeat split; auto.
  exact (suffixOf_trans _ _ _ Hs2 Hs1).
Qed.

(** A URL pattern captures a non-empty run of its class, found right after
    an occurrence of its literal. *)
Lemma url_capture (literal : string) (g : Regex) (class : ascii -> bool) (n : nat) :
  g = Exactly (S n) class \/ g = Many1 class ->
  forall s pos m,
    matchFrom (urlPattern literal g) pos s = Some m ->
    exists c rest,
      m = Some c /\ c <> ""%string /\ allClass class c = true
      /\ suffixOf (literal ++ c ++ rest) s.
Proof.
  intros Hg. induction s as [|x s IH]; intros pos m; cbn [matchFrom];
    destruct (run (urlPattern literal g) pos _ None (fun _ _ cap => Some cap)) as [m'|] eqn:Hrun;
    try discriminate.
  - intros [= ->]. exact (url_run_capture literal g class n Hg _ _ _ Hrun).
  - intros [= ->]. exact (url_run_capture literal g class n Hg _ _ _ Hrun).
  - intros Hlater. destruct (IH _ _ Hlater) as (c & rest & Hm & Hne & Hall & Hsuf).
    exists c, rest. repeat split; auto. apply suffixOf_tail. exact Hsuf.
Qed.

Lemma prefix_app (lit rest : string) : String.prefix lit (lit ++ rest) = true.
Proof.
  induction lit as [|a lit IH]; simpl; [destruct rest; reflexivity|].
  destruct (ascii_dec a a); [exact IH | contradiction].
Qed.

Lemma prefix_app_l (sub a c : string) :
  String.prefix sub a = true -> String.prefix sub (a ++ c) = true.
Proof.
  revert a. induction sub as [|x sub IH]; intros a; simpl;
    [intros _; destruct (a ++ c)%string; reflexivity|].
  destruct a as [|y a]; [discriminate|]. simpl.
  destruct (ascii_dec x y); [apply IH | discriminate].
Qed.

Lemma includes_app_l (a c sub : string) :
  includes a sub = true -> includes (a ++ c) sub = true.
Proof.
  induction a as [|y a IH]; simpl.
  - rewrite orb_false_r. intros H. destruct sub; [|discriminate].
    destruct c; reflexivity.
  - intros H. apply orb_true_iff in H as [H | H]; apply orb_true_iff.
    + left. exact (prefix_app_l sub (String y a) c H).
    + right. exact (IH H).
Qed.

Lemma includes_app_r (a b sub : string) :
  includes b sub = true -> includes (a ++ b) sub = true.
Proof.
  intros H. induction a as [|y a IH]; simpl; [exact H|].
  rewrite IH. apply orb_true_r.
Qed.

Lemma includes_suffix (s' s sub : string) :
  suffixOf s' s -> includes s' sub = true -> includes s sub = true.
Proof. intros [pre ->]. apply includes_app_r. Qed.

Lemma includes_self_prefix (lit rest : string) : includes (lit ++ rest) lit = true.
Proof.
  pose proof (prefix_app lit rest) as H.
  destruct (lit ++ rest)%string; cbn [includes]; rewrite H; reflexivity.
Qed.

Lemma allClass_without (class : ascii -> bool) (x : ascii) (s : string) :
  class x = false ->
  allClass class s = true ->
  includes s (String x "") = false.
Proof.
  intros Hx. induction s as [|c s IH]; simpl; [reflexivity|].
  intros H. apply andb_true_iff in H as [Hc Hall]. rewrite (IH Hall), orb_false_r.
  destruct (ascii_dec x c) as [<-|]; [congruence | reflexivity].
Qed.

(** A text without [/] matches none of the URL patterns. *)
Lemma url_needs_slash (literal : string) (g : Regex) (class : ascii -> bool) (n : nat)
  (s : string) :
  g = Exactly (S n) class \/ g = Many1 class ->
  includes literal "/" = true ->
  includes s "/" = false ->
  regexMatch (urlPattern literal g) s = None.
Proof.
  intros Hg Hlit Hs. unfold regexMatch.
  destruct (matchFrom (urlPattern literal g) 0 s) as [m|] eqn:Hmatch; [|reflexivity].
  destruct (url_capture literal g class n Hg _ _ _ Hmatch) as (c & rest & _ & _ & _ & Hsuf).
  rewrite (includes_suffix _ _ "/" Hsuf) in Hs; [discriminate|].
  apply includes_app_l. exact Hlit.
Qed.

Lemma run_bol pos s cap k :
  run Bol pos s cap k = if pos =? 0 then k pos s cap else None.
Proof. reflexivity. Qed.

Lemma matchFrom_bol (r : Regex) (s : string) :
  forall pos, 0 < pos -> matchFrom (Cat Bol r) pos s = None.
Proof.
  induction s as [|c s IH]; intros pos Hpos; cbn [matchFrom];
    rewrite run_cat, run_bol;
    (replace (pos =? 0) with false by (symmetry; apply Nat.eqb_neq; lia));
    [reflexivity | apply IH; lia].
Qed.

Lemma regexMatch_anchored (r : Regex) (s : string) :
  regexMatch (Cat Bol r) s = run r 0 s None (fun _ _ cap => Some cap).
Proof.
  unfold regexMatch.
  destruct s as [|c s]; cbn [matchFrom]; rewrite run_cat, run_bol; cbn [Nat.eqb];
    destruct (run r 0 _ None (fun _ _ cap => Some cap)); try reflexivity.
  apply matchFrom_bol. lia.
Qed.

Lemma regexMatch_id24 (s : string) :
  regexMatch (Cat Bol (Cat (Group (Exactly 24 idChar)) Eol)) s
  = if isId24 s then Some (Some s) else None.
Proof.
  rewrite regexMatch_anchored. cbn [run].
  unfold isId24.
  destruct ((String.length s =? 24) && allClass idChar s) eqn:His.
  - apply andb_true_iff in His as [Hlen Hall]. apply Nat.eqb_eq in Hlen.
    pose proof (takeExactly_app idChar s "" Hall) as Htake.
    rewrite append_empty_r, Hlen in Htake. rewrite Htake.
    pose proof (substring_taken s "") as Hsub. rewrite append_empty_r, Hlen in Hsub.
    cbn [Nat.add Nat.sub]. rewrite Hsub. reflexivity.
  - destruct (takeExactly 24 idChar s) as [rest|] eqn:Htake; [|reflexivity].
    destruct rest as [|c rest]; [|reflexivity].
    destruct (takeExactly_spec _ _ _ _ Htake) as (taken & -> & Hlen & Hall).
    rewrite append_empty_r, Hlen, Hall in His. discriminate.
Qed.

Lemma many1_whole {A} (class : ascii -> bool) (f : nat -> A) :
  forall h pos,
    many1 class pos h (fun p s' => match s' with
                                   | EmptyString => Some (f p)
                                   | String _ _ => None
                                   end)
    = if allClass class h && negb (String.eqb h "")
      then Some (f (pos + String.length h))
      else None.
Proof.
  induction h as [|c h IH]; intros pos; cbn [many1 allClass]; [reflexivity|].
  destruct (class c); [|reflexivity]. rewrite IH. cbn [andb String.eqb negb].
  destruct h as [|c' h].
  - cbn. do 2 f_equal. lia.
  - cbn [String.eqb negb]. rewrite andb_true_r.
    destruct (allClass class (String c' h)); [|reflexivity].
    do 2 f_equal. cbn [String.length]. lia.
Qed.

Lemma regexMatch_handle (s : string) :
  regexMatch (Cat Bol (Cat (Lit "@") (Cat (Group (Many1 handleChar)) Eol))) s
  = match bareHandle s with
    | Some h => Some (Some h)
    | None => None
    end.
Proof.
  rewrite regexMatch_anchored, run_cat, run_lit.
  destruct s as [|c h]; [reflexivity|]. cbn [dropPrefix bareHandle].
  destruct (Ascii.eqb_spec "@" c) as [<-|Hc].
  - cbn [run].
    rewrite (many1_whole handleChar (fun p => Some (substring 0 (p - (0 + String.length "@")) h))).
    destruct (allClass handleChar h && negb (String.eqb h "")); [|reflexivity].
    cbn [String.length Nat.add].
    replace (S (String.length h) - 1) with (String.length h) by lia.
    pose proof (substring_taken h "") as Hsub. rewrite append_empty_r in Hsub.
    rewrite Hsub. reflexivity.
  - destruct c as [[] [] [] [] [] [] [] []]; try reflexivity. contradiction.
Qed.

Lemma firstCapture_slashfree (t : string) :
  includes t "/" = false ->
  firstCapture patterns t
  = if isId24 t then Some t else bareHandle t.
Proof.
  intros Hslash. unfold patterns. cbn [firstCapture].
  rewrite (url_needs_slash "youtube.com/channel/" _ idChar 23 t (or_introl eq_refl) eq_refl Hslash).
  rewrite (url_needs_slash "youtube.com/c/" _ idChar 0 t (or_intror eq_refl) eq_refl Hslash).
  rewrite (url_needs_slash "youtube.com/user/" _ idChar 0 t (or_intror eq_refl) eq_refl Hslash).
  rewrite (url_needs_slash "youtube.com/@" _ handleChar 0 t (or_intror eq_refl) eq_refl Hslash).
  rewrite regexMatch_id24, regexMatch_handle.
  destruct (isId24 t) eqn:His.
  - unfold isId24 in His. apply andb_true_iff in His as [Hlen _]. apply Nat.eqb_eq in Hlen.
    destruct t; [discriminate Hlen | reflexivity].
  - unfold bareHandle. destruct t as [|c h]; [reflexivity|].
    destruct c as [[] [] [] [] [] [] [] []]; try reflexivity.
    destruct (allClass handleChar h && negb (String.eqb h "")) eqn:Hh; [|reflexivity].
    apply andb_true_iff in Hh as [_ Hne]. destruct h; [discriminate Hne | reflexivity].
Qed.

Section ExtractionProperties.

Variable trim : string -> string.

(** X9. On input whose trimmed text has no [/], [extractChannelId] is
    decided by shape: 24 characters of [[a-zA-Z0-9_-]] are returned as they
    are, whatever they start with; a well-formed [@handle] loses its [@];
    anything else is returned unchanged unless it starts with [UC], in
    which case it is rejected. *)
Theorem extract_bare_input (input : string) :
  input <> ""%string ->
  includes (trim input) "/" = false ->
  extractChannelId trim input
  = if isId24 (trim input) then Some (trim input)
    else match bareHandle (trim input) with
         | Some handle => Some handle
         | None => if String.prefix "UC" (trim input) then None else Some (trim input)
         end.
Proof.
  intros Hne Hslash. unfold extractChannelId.
  replace (String.eqb input "") with false by (symmetry; apply String.eqb_neq; exact Hne).
  rewrite (firstCapture_slashfree _ Hslash), Hslash.
  destruct (isId24 (trim input)); [reflexivity|].
  destruct (bareHandle (trim input)); [reflexivity|].
  destruct (String.prefix "UC" (trim input)); reflexivity.
Qed.

End ExtractionProperties.

Lemma truthy_nonempty (c : string) : c <> ""%string -> truthy (Some c) = true.
Proof. destruct c; [contradiction | reflexivity]. Qed.

(** What the loop returns was captured by one of the patterns, and is a
    non-empty run of the pattern's class. *)
Lemma firstCapture_class (t id : string) :
  firstCapture patterns t = Some id ->
  id <> ""%string /\ (allClass idChar id = true \/ allClass handleChar id = true).
Proof.
  unfold patterns. cbn [firstCapture].
  repeat match goal with
  | |- context [regexMatch (urlPattern ?lit ?g) t] =>
      let H := fresh "Hmatch" in
      destruct (regexMatch (urlPattern lit g) t) as [[c|]|] eqn:H;
      [ let Hc := fresh in
        (assert (Hc : c <> ""%string /\ (allClass idChar c = true \/ allClass handleChar c = true))
          by (first
               [ destruct (url_capture lit g idChar 23 (or_introl eq_refl) _ _ _ H)
                   as (c' & rest & [= <-] & Hne & Hall & _)
               | destruct (url_capture lit g idChar 0 (or_intror eq_refl) _ _ _ H)
                   as (c' & rest & [= <-] & Hne & Hall & _)
               | destruct (url_capture lit g handleChar 0 (or_intror eq_refl) _ _ _ H)
                   as (c' & rest & [= <-] & Hne & Hall & _) ];
              split; [exact Hne | auto]));
        rewrite (truthy_nonempty c (proj1 Hc)); intros [= <-]; exact Hc
      | | ]
  end;
  rewrite regexMatch_id24, regexMatch_handle;
  (destruct (isId24 t) eqn:His;
   [ unfold isId24 in His; apply andb_true_iff in His as [Hlen Hall];
     apply Nat.eqb_eq in Hlen;
     destruct t; [discriminate Hlen|]; cbn [truthy]; intros [= <-];
     split; [discriminate | left; exact Hall]
   | ]);
  (destruct t as [|x h]; cbn [bareHandle firstCapture]; [discriminate|];
   destruct x as [[] [] [] [] [] [] [] []]; cbn [firstCapture]; try discriminate;
   destruct (allClass handleChar h && negb (String.eqb h "")) eqn:Hh;
   cbn [firstCapture]; [|discriminate];
   apply andb_true_iff in Hh as [Hall Hne];
   destruct h; [discriminate Hne|]; cbn [truthy]; intros [= <-];
   split; [discriminate | right; exact Hall]).
Qed.

Lemma run_id_group (id post : string) (pos : nat) :
  isId24 id = true ->
  run (Group (Exactly 24 idChar)) pos (id ++ post) None (fun _ _ cap => Some cap)
  = Some (Some id).
Proof.
  unfold isId24. intros His. apply andb_true_iff in His as [Hlen Hall].
  apply Nat.eqb_eq in Hlen. cbn [run].
  pose proof (takeExactly_app idChar id post Hall) as Htake. rewrite Hlen in Htake.
  rewrite Htake. replace (pos + 24 - pos) with (String.length id) by lia.
  rewrite substring_taken. reflexivity.
Qed.

Lemma run_handle_group (handle post : string) (pos : nat) :
  handle <> ""%string ->
  allClass handleChar handle = true ->
  match post with
  | EmptyString => True
  | String c _ => handleChar c = false
  end ->
  run (Group (Many1 handleChar)) pos (handle ++ post) None (fun _ _ cap => Some cap)
  = Some (Some handle).
Proof.
  intros Hne Hall Hpost. cbn [run].
  apply (many1_longest handleChar _ _ post Hpost handle pos Hne Hall).
  replace (pos + String.length handle - pos) with (String.length handle) by lia.
  rewrite substring_taken. reflexivity.
Qed.

(** At the first position of the text, each of the schemes leads the URL
    patterns to the group. *)
Lemma url_run_channel (scheme tail : string) (m : option string) :
  In scheme schemes ->
  (forall pos, run (Group (Exactly 24 idChar)) pos tail None (fun _ _ cap => Some cap) = Some m) ->
  run (urlPattern "youtube.com/channel/" (Exactly 24 idChar)) 0
      (scheme ++ "youtube.com/channel/" ++ tail) None (fun _ _ cap => Some cap)
  = Some m.
Proof.
  intros Hin Hgroup. unfold urlPattern.
  unfold schemes in Hin. cbn [In] in Hin.
  repeat (destruct Hin as [<- | Hin]); try contradiction;
    repeat (rewrite ?run_cat, ?run_lit, ?run_opt;
            cbn [append dropPrefix Ascii.eqb Bool.eqb]);
    rewrite ?Hgroup; reflexivity.
Qed.

Lemma url_run_handle (scheme tail : string) (m : option string) :
  In scheme schemes ->
  (forall pos, run (Group (Many1 handleChar)) pos tail None (fun _ _ cap => Some cap) = Some m) ->
  run (urlPattern "youtube.com/@" (Many1 handleChar)) 0
      (scheme ++ "youtube.com/@" ++ tail) None (fun _ _ cap => Some cap)
  = Some m.
Proof.
  intros Hin Hgroup. unfold urlPattern.
  unfold schemes in Hin. cbn [In] in Hin.
  repeat (destruct Hin as [<- | Hin]); try contradiction;
    repeat (rewrite ?run_cat, ?run_lit, ?run_opt;
            cbn [append dropPrefix Ascii.eqb Bool.eqb]);
    rewrite ?Hgroup; reflexivity.
Qed.

Lemma matchFrom_first (r : Regex) (s : string) (m : option string) :
  run r 0 s None (fun _ _ cap => Some cap) = Some m ->
  regexMatch r s = Some m.
Proof. intros H. unfold regexMatch. destruct s; cbn [matchFrom]; rewrite H; reflexivity. Qed.

(** A text in which a literal does not occur matches no URL pattern built
    on it. *)
Lemma url_needs_literal (literal : string) (g : Regex) (class : ascii -> bool) (n : nat)
  (s : string) :
  g = Exactly (S n) class \/ g = Many1 class ->
  includes s literal = false ->
  regexMatch (urlPattern literal g) s = None.
Proof.
  intros Hg Hs. unfold regexMatch.
  destruct (matchFrom (urlPattern literal g) 0 s) as [m|] eqn:Hmatch; [|reflexivity].
  destruct (url_capture literal g class n Hg _ _ _ Hmatch) as (c & rest & _ & _ & _ & Hsuf).
  rewrite (includes_suffix _ _ literal Hsuf) in Hs; [discriminate|].
  apply includes_self_prefix.
Qed.

Section ExtractionResults.

Variable trim : string -> string.

(** X10. Whatever [extractChannelId] returns contains no [/]: it is a
    run of pattern characters or the whole slash-free text. *)
Theorem extract_result_has_no_slash (input id : string) :
  extractChannelId trim input = Some id ->
  includes id "/" = false.
Proof.
  unfold extractChannelId. destruct (String.eqb input ""); [discriminate|].
  destruct (firstCapture patterns (trim input)) as [c|] eqn:Hfirst.
  - intros [= <-]. destruct (firstCapture_class _ _ Hfirst) as [_ [Hall | Hall]].
    + exact (allClass_without idChar "/" c eq_refl Hall).
    + exact (allClass_without handleChar "/" c eq_refl Hall).
  - destruct (includes (trim input) "/") eqn:Hslash; [discriminate|].
    destruct (String.prefix "UC" (trim input)); [discriminate|].
    intros [= <-]. exact Hslash.
Qed.

(** X11. A [/channel/] URL at the start of the trimmed text, with any of
    the schemes, yields the 24 characters after [/channel/], whatever
    follows them. *)
Theorem extract_channel_url (input scheme id post : string) :
  input <> ""%string ->
  In scheme schemes ->
  isId24 id = true ->
  trim input = (scheme ++ "youtube.com/channel/" ++ id ++ post)%string ->
  extractChannelId trim input = Some id.
Proof.
  intros Hne Hscheme His Htrim. unfold extractChannelId.
  replace (String.eqb input "") with false by (symmetry; apply String.eqb_neq; exact Hne).
  rewrite Htrim. unfold patterns. cbn [firstCapture].
  rewrite (matchFrom_first _ _ (Some id)
             (url_run_channel scheme (id ++ post) (Some id) Hscheme
                (fun pos => run_id_group id post pos His))).
  rewrite truthy_nonempty; [reflexivity|].
  intros ->. discriminate His.
Qed.

(** X12. A handle URL at the start of the trimmed text yields the handle:
    the longest run of [[a-zA-Z0-9_.-]] after [youtube.com/@], provided
    the text holds none of the literals of the three earlier patterns. *)
Theorem extract_handle_url (input scheme handle post : string) :
  input <> ""%string ->
  In scheme schemes ->
  handle <> ""%string ->
  allClass handleChar handle = true ->
  match post with
  | EmptyString => True
  | String c _ => handleChar c = false
  end ->
  trim input = (scheme ++ "youtube.com/@" ++ handle ++ post)%string ->
  includes (trim input) "youtube.com/channel/" = false ->
  includes (trim input) "youtube.com/c/" = false ->
  includes (trim input) "youtube.com/user/" = false ->
  extractChannelId trim input = Some handle.
Proof.
  intros Hne Hscheme Hhandle Hall Hpost Htrim Hchannel Hcustom Huser.
  unfold extractChannelId.
  replace (String.eqb input "") with false by (symmetry; apply String.eqb_neq; exact Hne).
  unfold patterns. cbn [firstCapture].
  rewrite (url_needs_literal _ _ idChar 23 _ (or_introl eq_refl) Hchannel).
  rewrite (url_needs_literal _ _ idChar 0 _ (or_intror eq_refl) Hcustom).
  rewrite (url_needs_literal _ _ idChar 0 _ (or_intror eq_refl) Huser).
  rewrite Htrim.
  rewrite (matchFrom_first _ _ (Some handle)
             (url_run_handle scheme (handle ++ post) (Some handle) Hscheme
                (fun pos => run_handle_group handle post pos Hhandle Hall Hpost))).
  rewrite (truthy_nonempty _ Hhandle). reflexivity.
Qed.

End ExtractionResults.

Lemma extract_bare_input_example :
  extractChannelId (fun s => s) "UCabcd" = None
  /\ extractChannelId (fun s => s) "@Google" = Some "Google"
  /\ extractChannelId (fun s => s) "MrBeast" = Some "MrBeast".
Proof.
  split; [|split].
  - rewrite (extract_bare_input (fun s => s) "UCabcd"); [reflexivity | discriminate | reflexivity].
  - rewrite (extract_bare_input (fun s => s) "@Google"); [reflexivity | discriminate | reflexivity].
  - rewrite (extract_bare_input (fun s => s) "MrBeast"); [reflexivity | discriminate | reflexivity].
Defined.

Lemma extract_result_has_no_slash_example :
  includes "Name" "/" = false.
Proof.
  apply (extract_result_has_no_slash (fun s => s) "youtube.com/c/Name/videos" "Name").
  reflexivity.
Defined.

Lemma extract_channel_url_example :
  extractChannelId (fun s => s) "https://m.youtube.com/channel/UC_x5XG1OV2P6uZZ5FSM9TtwEXTRA?x=1"
  = Some "UC_x5XG1OV2P6uZZ5FSM9Ttw"
  /\ extractChannelId (fun s => s) "https://www.youtube.com/channel/UC_x5XG1OV2P6uZZ5FSM9TtwEXTRA"
     = Some "UC_x5XG1OV2P6uZZ5FSM9Ttw".
Proof.
  split; [reflexivity|].
  apply (extract_channel_url (fun s => s) _ "https://www." "UC_x5XG1OV2P6uZZ5FSM9Ttw" "EXTRA");
    [discriminate | simpl; tauto | reflexivity | reflexivity].
Defined.

Lemma extract_handle_url_example :
  extractChannelId (fun s => s) "https://www.youtube.com/@Google/videos" = Some "Google".
Proof.
  apply (extract_handle_url (fun s => s) _ "https://www." "Google" "/videos");
    [discriminate | simpl; tauto | discriminate | reflexivity | reflexivity
    | reflexivity | reflexivity | reflexivity | reflexivity].
Defined.

(** X13. A bare [@handle] whose name starts with [UC] is extracted to
    that name, which [resolveChannelId] then takes for a channel id: it is
    returned as it is and no lookup is made. *)
Theorem handle_with_id_prefix_not_looked_up (net : Net) (trim : string -> string)
  (input handle : string) (w : World) :
  input <> ""%string ->
  bareHandle (trim input) = Some handle ->
  String.prefix "UC" handle = true ->
  extractChannelId trim input = Some handle
  /\ resolveChannelId net handle w = (Ok (Some handle), w).
Proof.
  intros Hne Hbare Hprefix. split; [|exact (resolve_prefixed net handle w Hprefix)].
  unfold extractChannelId.
  replace (String.eqb input "") with false by (symmetry; apply String.eqb_neq; exact Hne).
  assert (Hshape : exists h, trim input = String "@" h /\ allClass handleChar h = true).
  { unfold bareHandle in Hbare. destruct (trim input) as [|c h]; [discriminate|].
    destruct c as [[] [] [] [] [] [] [] []]; try discriminate.
    destruct (allClass handleChar h) eqn:Hall; [|discriminate]. exists h. auto. }
  destruct Hshape as (h & Ht & Hall).
  assert (Hslash : includes (trim input) "/" = false).
  { rewrite Ht. cbn [includes]. rewrite (allClass_without handleChar "/" h eq_refl Hall).
    reflexivity. }
  rewrite (firstCapture_slashfree _ Hslash), Hbare.
  rewrite Ht. unfold isId24. cbn [allClass].
  change (idChar "@") with false. cbn [andb]. rewrite andb_false_r. reflexivity.
Qed.

Lemma handle_with_id_prefix_example :
  extractChannelId (fun s => s) "@UCLA" = Some "UCLA"
  /\ resolveChannelId nobodyNet "UCLA" twoKeys = (Ok (Some "UCLA"), twoKeys).
Proof.
  apply (handle_with_id_prefix_not_looked_up nobodyNet (fun s => s) "@UCLA" "UCLA");
    [discriminate | reflexivity | reflexivity].
Defined.


(** * The dashboard *)

(** ** Key display *)

Lemma substring_split (n : nat) :
  forall s, n <= String.length s ->
            s = (substring 0 n s ++ substringFrom n s)%string.
Proof.
  unfold substringFrom.
  induction n as [|n IH]; intros s Hn.
  - rewrite Nat.sub_0_r. destruct s; simpl; [reflexivity|].
    pose proof (substring_taken s "") as Hsub. rewrite append_empty_r in Hsub.
    rewrite Hsub. reflexivity.
  - destruct s as [|c s]; simpl in Hn; [lia|]. simpl. f_equal. apply IH. lia.
Qed.

Lemma substring_length (n : nat) :
  forall s, n <= String.length s -> String.length (substring 0 n s) = n.
Proof.
  induction n as [|n IH]; intros s Hn; destruct s as [|c s]; simpl in *; try lia; try reflexivity.
  f_equal. apply IH. lia.
Qed.

Lemma substringFrom_length (n : nat) (s : string) :
  n <= String.length s -> String.length (substringFrom n s) = String.length s - n.
Proof.
  intros Hn. pose proof (substring_split n s Hn) as Hsplit.
  apply (f_equal String.length) in Hsplit.
  rewrite length_append, (substring_length n s Hn) in Hsplit. lia.
Qed.

Lemma substringFrom_app (a b : string) (n : nat) :
  substringFrom (String.length a + n) (a ++ b) = substringFrom n b.
Proof.
  unfold substringFrom. rewrite length_append.
  replace (String.length a + String.length b - (String.length a + n))
    with (String.length b - n) by lia.
  induction a as [|c a IH]; simpl; [reflexivity | exact IH].
Qed.

(** X14. A key of 8 characters or more is shown as its first four and
    its last four characters around three dots, and nothing of the middle;
    at exactly 8 characters there is no middle, and the whole key shows. *)
Theorem mask_hides_middle (key : string) :
  8 <= String.length key ->
  exists first middle last,
    key = (first ++ middle ++ last)%string
    /\ String.length first = 4
    /\ String.length last = 4
    /\ String.length middle = String.length key - 8
    /\ maskApiKey key = (first ++ "..." ++ last)%string.
Proof.
  intros Hlen. unfold maskApiKey.
  replace (String.length key <? 8) with false by (symmetry; apply Nat.ltb_ge; exact Hlen).
  pose proof (substring_split 4 key ltac:(lia)) as Hsplit.
  pose proof (substring_length 4 key ltac:(lia)) as Hfirst.
  pose proof (substringFrom_length 4 key ltac:(lia)) as Hrest.
  set (first := substring 0 4 key) in *. set (rest := substringFrom 4 key) in *.
  pose proof (substring_split (String.length rest - 4) rest ltac:(lia)) as Hsplit'.
  exists first, (substring 0 (String.length rest - 4) rest),
         (substringFrom (String.length rest - 4) rest).
  split; [rewrite <- Hsplit'; exact Hsplit|].
  split; [exact Hfirst|].
  split; [rewrite substringFrom_length; lia|].
  split; [rewrite substring_length; lia|].
  do 2 f_equal.
  rewrite Hsplit at 2.
  replace (String.length key - 4) with (String.length first + (String.length rest - 4)) by lia.
  apply substringFrom_app.
Qed.

Lemma mask_hides_middle_example :
  exists first middle last,
    "AIzaSyExampleKey"%string = (first ++ middle ++ last)%string
    /\ String.length first = 4
    /\ String.length last = 4
    /\ String.length middle = String.length "AIzaSyExampleKey" - 8
    /\ maskApiKey "AIzaSyExampleKey" = (first ++ "..." ++ last)%string.
Proof. apply (mask_hides_middle "AIzaSyExampleKey"). simpl. lia. Defined.

(** ** The key manager *)

Lemma existsb_eqb_In (k : string) (l : list string) :
  existsb (String.eqb k) l = true <-> In k l.
Proof.
  rewrite existsb_exists. split.
  - intros (x & Hin & Heq). apply String.eqb_eq in Heq. subst. exact Hin.
  - intros Hin. exists k. split; [exact Hin | apply String.eqb_refl].
Qed.

Lemma filter_absent (k : string) (l : list string) :
  ~ In k l -> filter (fun x => negb (String.eqb x k)) l = l.
Proof.
  induction l as [|x l IH]; intros Hnot; simpl; [reflexivity|].
  destruct (String.eqb_spec x k) as [->|Hne]; simpl.
  - exfalso. apply Hnot. left. reflexivity.
  - f_equal. apply IH. intros Hin. apply Hnot. right. exact Hin.
Qed.

Lemma filter_removes (k : string) (l : list string) :
  ~ In k (filter (fun x => negb (String.eqb x k)) l).
Proof.
  intros Hin. apply filter_In in Hin as [_ Hne].
  rewrite String.eqb_refl in Hne. discriminate.
Qed.

Lemma truthy_Some (s : string) : truthy (Some s) = negb (String.eqb s "").
Proof. destruct s; reflexivity. Qed.

Section KeyManager.

Variable stringifyKeys : list string -> string.
Variable trim : string -> string.

Local Abbreviation handleApiKeysChange := (Settings.handleApiKeysChange stringifyKeys).
Local Abbreviation handleAddKey := (Settings.handleAddKey stringifyKeys trim).
Local Abbreviation handleRemoveKey := (Settings.handleRemoveKey stringifyKeys).

(** X15. [handleAddKey] never duplicates a key.  A key that is blank
    after trimming, or already in the pool, changes nothing: the input
    field, the stored entry and the rotation cursor of the service stay as
    they are.  Any other key is appended, trimmed, to a pool that stays
    free of duplicates, and the input field is cleared. *)
Theorem add_key_without_duplicates (newKey : string) (s : Settings.State) :
  NoDup (Settings.apiKeysState s) ->
  NoDup (Settings.apiKeysState (snd (handleAddKey newKey s)))
  /\ (trim newKey = ""%string \/ In (trim newKey) (Settings.apiKeysState s) ->
      handleAddKey newKey s = (newKey, s))
  /\ (trim newKey <> ""%string -> ~ In (trim newKey) (Settings.apiKeysState s) ->
      handleAddKey newKey s
      = (""%string, handleApiKeysChange (Settings.apiKeysState s ++ [trim newKey]) s)).
Proof.
  intros Hnodup. unfold Settings.handleAddKey. rewrite truthy_Some.
  destruct (String.eqb_spec (trim newKey) "") as [Hblank | Hfull]; cbn [negb andb].
  { split; [exact Hnodup|]. split; [reflexivity | contradiction]. }
  destruct (existsb (String.eqb (trim newKey)) (Settings.apiKeysState s)) eqn:Hmem; cbn [negb].
  - apply existsb_eqb_In in Hmem.
    split; [exact Hnodup|]. split; [reflexivity | contradiction].
  - assert (Hnew : ~ In (trim newKey) (Settings.apiKeysState s)).
    { intros Hin. apply existsb_eqb_In in Hin. congruence. }
    split; [|split; [intros [Hblank | Hin]; contradiction | reflexivity]].
    cbn. apply NoDup_app; [exact Hnodup | repeat constructor; intros [] |].
    intros k Hin [<- | []]. contradiction.
Qed.

End KeyManager.

Lemma add_key_without_duplicates_example :
  NoDup (Settings.apiKeysState
           (snd (Settings.handleAddKey (fun _ => "[]"%string) (fun k => k) "key-1"
                   (Settings.withKeys ["key-1"; "key-2"]%string (Settings.start [])))))
  /\ Settings.handleAddKey (fun _ => "[]"%string) (fun k => k) "key-1"
       (Settings.withKeys ["key-1"; "key-2"]%string (Settings.start []))
     = ("key-1"%string, Settings.withKeys ["key-1"; "key-2"]%string (Settings.start [])).
Proof.
  assert (Hnodup : NoDup ["key-1"; "key-2"]%string).
  { repeat constructor; simpl; intuition discriminate. }
  destruct (add_key_without_duplicates (fun _ => "[]"%string) (fun k => k) "key-1"
              (Settings.withKeys ["key-1"; "key-2"]%string (Settings.start [])) Hnodup)
    as (Hkept & Hsame & _).
  split; [exact Hkept | apply Hsame; right; simpl; tauto].
Defined.

Section KeyChanges.

Variable stringifyKeys : list string -> string.
Variable trim : string -> string.

Local Abbreviation handleApiKeysChange := (Settings.handleApiKeysChange stringifyKeys).
Local Abbreviation handleAddKey := (Settings.handleAddKey stringifyKeys trim).
Local Abbreviation handleRemoveKey := (Settings.handleRemoveKey stringifyKeys).

(** X16. Removing a key that was just added gives the pool back: the
    component shows the pool it showed before, the service holds it too,
    and the rotation starts again at the first key. *)
Theorem add_then_remove_key (newKey : string) (s : Settings.State) :
  trim newKey <> ""%string ->
  ~ In (trim newKey) (Settings.apiKeysState s) ->
  let restored := handleRemoveKey (trim newKey) (snd (handleAddKey newKey s)) in
  Settings.apiKeysState restored = Settings.apiKeysState s
  /\ Settings.service restored = setApiKeys (Settings.apiKeysState s) (Settings.service s)
  /\ Settings.getItem "youtubeApiKeys" (Settings.localStorage restored)
     = Some (stringifyKeys (Settings.apiKeysState s)).
Proof.
  intros Hfull Hnew. unfold Settings.handleAddKey. rewrite truthy_Some.
  replace (String.eqb (trim newKey) "") with false by (symmetry; apply String.eqb_neq; exact Hfull).
  replace (existsb (String.eqb (trim newKey)) (Settings.apiKeysState s)) with false
    by (symmetry; apply not_true_is_false; intros H; apply existsb_eqb_In in H; contradiction).
  cbn. rewrite filter_app. cbn. rewrite String.eqb_refl. cbn.
  rewrite app_nil_r, (filter_absent _ _ Hnew). repeat split; reflexivity.
Qed.

(** X17. A change of the pool reaches the service with the cursor at 0:
    with an empty pool the next call of the fetcher fails with the
    configuration error and no request; otherwise it makes between one and
    [N] requests, the first with the first key of the new pool, whatever
    position the rotation had reached before. *)
Theorem key_change_restarts_rotation (net : Net) (e : Endpoint) (params : Params)
  (newKeys : list string) (s : Settings.State) :
  let w := Settings.service (handleApiKeysChange newKeys s) in
  Settings.serviceInSync (handleApiKeysChange newKeys s)
  /\ (newKeys = [] -> fetchYouTubeAPI net e params 0 w = (Throw NoCredentialsConfigured, w))
  /\ (newKeys <> [] ->
      exists n rest,
        1 <= n <= length newKeys
        /\ snd (fetchYouTubeAPI net e params 0 w) = afterAttempts e params w n
        /\ attemptsTrace e params w n = request e params (nth_error newKeys 0) :: rest).
Proof.
  cbn zeta. split; [split; reflexivity|]. split.
  - intros ->. rewrite fetchYouTubeAPI_eq. reflexivity.
  - intros Hne. cbn [Settings.handleApiKeysChange Settings.store Settings.withKeys Settings.service].
    assert (Hcursor : currentKeyIndex (setApiKeys newKeys (Settings.service s))
                      < length (apiKeys (setApiKeys newKeys (Settings.service s)))).
    { destruct newKeys; [contradiction | simpl; lia]. }
    destruct (fetch_attempts_from net e params _ 0 _ Hcursor eq_refl) as (n & Hle & Hpos & Heq).
    destruct n as [|n]; [cbn in Hpos; destruct newKeys; [contradiction | simpl in Hpos; lia]|].
    exists (S n), (map (fun i => request e params
                                   (nth_error newKeys ((0 + i) mod length newKeys)))
                       (seq 1 n)).
    split; [cbn in Hle; lia|]. split; [exact Heq|].
    unfold attemptsTrace. cbn [seq map setApiKeys apiKeys currentKeyIndex].
    rewrite Nat.Div0.mod_0_l. reflexivity.
Qed.

End KeyChanges.

Lemma add_then_remove_key_example :
  Settings.apiKeysState
    (Settings.handleRemoveKey (fun _ => "[]"%string) "key-2"
       (snd (Settings.handleAddKey (fun _ => "[]"%string) (fun k => k) "key-2"
               (Settings.withKeys ["key-1"]%string (Settings.start [])))))
  = ["key-1"]%string.
Proof.
  apply (add_then_remove_key (fun _ => "[]"%string) (fun k => k) "key-2"
           (Settings.withKeys ["key-1"]%string (Settings.start []))).
  - discriminate.
  - simpl. intuition discriminate.
Defined.

Lemma key_change_restarts_rotation_example :
  currentKeyIndex (Settings.service midRotation) = 1
  /\ Settings.serviceInSync
       (Settings.handleApiKeysChange (fun _ => "[]"%string) ["key-C"; "key-D"]%string
          midRotation)
  /\ exists n rest,
       1 <= n <= 2
       /\ snd (fetchYouTubeAPI quotaNet search [] 0
                 (Settings.service
                    (Settings.handleApiKeysChange (fun _ => "[]"%string)
                       ["key-C"; "key-D"]%string midRotation)))
          = afterAttempts search []
              (Settings.service
                 (Settings.handleApiKeysChange (fun _ => "[]"%string)
                    ["key-C"; "key-D"]%string midRotation)) n
       /\ attemptsTrace search []
            (Settings.service
               (Settings.handleApiKeysChange (fun _ => "[]"%string)
                  ["key-C"; "key-D"]%string midRotation)) n
          = request search [] (Some "key-C"%string) :: rest.
Proof.
  destruct (key_change_restarts_rotation (fun _ => "[]"%string) quotaNet search []
              ["key-C"; "key-D"]%string midRotation) as (Hsync & _ & Hfirst).
  split; [reflexivity|]. split; [exact Hsync|]. apply Hfirst. discriminate.
Defined.

(** ** Persistence across a reload *)

Lemma tryAll_invariant (P : Settings.State -> Prop)
  (steps : list (Settings.State -> Result Settings.State)) :
  Forall (fun step => forall s s', step s = Ok s' -> P s -> P s') steps ->
  forall s, P s -> P (fst (Settings.tryAll steps s)).
Proof.
  induction 1 as [|step steps Hstep _ IH]; intros s Hs; cbn [Settings.tryAll]; [exact Hs|].
  destruct (step s) as [s'|e] eqn:Hrun; [|exact Hs].
  apply IH. exact (Hstep s s' Hrun Hs).
Qed.

Section Reload.

Variable DEFAULT_API_KEYS : list string.
Variable parseKeys : string -> Result (option (list string)).
Variable parseChannels : string -> Result (list Types.ChannelStats).
Variable parseGroups : string -> Result (list Types.ChannelGroup).
Variable parseInt : string -> option Z.
Variable stringifyKeys : list string -> string.

Local Abbreviation mount :=
  (Settings.mount DEFAULT_API_KEYS parseKeys parseChannels parseGroups parseInt).
Local Abbreviation loadChannels := (Settings.loadChannels parseChannels).
Local Abbreviation loadGroups := (Settings.loadGroups parseGroups).
Local Abbreviation loadVideosPerPage := (Settings.loadVideosPerPage parseInt).

Lemma tryAll_cons (step : Settings.State -> Result Settings.State)
  (steps : list (Settings.State -> Result Settings.State)) (s : Settings.State) :
  Settings.tryAll (step :: steps) s
  = match step s with
    | Ok s' => Settings.tryAll steps s'
    | Throw e => (s, Some e)
    end.
Proof. reflexivity. Qed.

(** The later statements of the mount effect leave the keys alone,
    whether they complete or throw. *)
Lemma later_loads_keep_keys (s : Settings.State) :
  let reached := fst (Settings.tryAll [loadChannels; loadGroups; loadVideosPerPage] s) in
  Settings.apiKeysState reached = Settings.apiKeysState s
  /\ Settings.service reached = Settings.service s
  /\ Settings.isSettingsOpen reached = Settings.isSettingsOpen s.
Proof.
  apply (tryAll_invariant
           (fun r => Settings.apiKeysState r = Settings.apiKeysState s
                     /\ Settings.service r = Settings.service s
                     /\ Settings.isSettingsOpen r = Settings.isSettingsOpen s));
    [|repeat split; reflexivity].
  apply Forall_cons; [|apply Forall_cons; [|apply Forall_cons; [|apply Forall_nil]]];
    intros s0 s1 Hstep Hs0.
  - unfold Settings.loadChannels in Hstep.
    destruct (Settings.saved "youtubeTrackedChannels" s0) as [v|];
      [destruct (parseChannels v); [|discriminate]|];
      injection Hstep as <-; exact Hs0.
  - unfold Settings.loadGroups in Hstep.
    destruct (Settings.saved "youtubeChannelGroups" s0) as [v|];
      [destruct (parseGroups v); [|discriminate]|];
      injection Hstep as <-; exact Hs0.
  - unfold Settings.loadVideosPerPage in Hstep.
    destruct (Settings.saved "youtubeVideosPerPage" s0) as [v|];
      injection Hstep as <-; exact Hs0.
Qed.

Lemma mount_after_keys (s s1 : Settings.State) :
  Settings.loadKeys DEFAULT_API_KEYS parseKeys s = Ok s1 ->
  Settings.apiKeysState (mount s) = Settings.apiKeysState s1
  /\ Settings.service (mount s) = Settings.service s1
  /\ Settings.isSettingsOpen (mount s) = Settings.isSettingsOpen s1
  /\ Settings.isLoading (mount s) = false.
Proof.
  intros Hkeys. unfold Settings.mount. rewrite tryAll_cons, Hkeys.
  destruct (later_loads_keep_keys s1) as (Hk & Hs & Ho). cbn zeta in Hk, Hs, Ho.
  destruct (Settings.tryAll [loadChannels; loadGroups; loadVideosPerPage] s1)
    as [reached [e|]]; cbn in *; repeat split; assumption.
Qed.

(** X18. The pool survives a reload, unless it is empty: after
    [handleApiKeysChange keys], a fresh mount on the same storage shows
    and installs [keys] again when there is at least one, whatever the
    other stored entries hold; an emptied pool comes back as the built-in
    keys, with the settings dialog open. *)
Theorem keys_survive_reload (keys : list string) (s : Settings.State) :
  parseKeys (stringifyKeys keys) = Ok (Some keys) ->
  stringifyKeys keys <> ""%string ->
  let reloaded :=
    mount (Settings.start (Settings.localStorage
                             (Settings.handleApiKeysChange stringifyKeys keys s))) in
  Settings.apiKeysState reloaded = match keys with [] => DEFAULT_API_KEYS | _ => keys end
  /\ Settings.service reloaded
     = setApiKeys match keys with [] => DEFAULT_API_KEYS | _ => keys end initial
  /\ Settings.isSettingsOpen reloaded = match keys with [] => true | _ => false end
  /\ Settings.isLoading reloaded = false.
Proof.
  intros Hparse Hfull. cbn zeta.
  set (fresh := Settings.start
                  (Settings.localStorage (Settings.handleApiKeysChange stringifyKeys keys s))).
  assert (Hkeys : Settings.loadKeys DEFAULT_API_KEYS parseKeys fresh
                  = Ok match keys with
                       | [] => Settings.setIsSettingsOpen true
                                 (Settings.withKeys DEFAULT_API_KEYS fresh)
                       | _ => Settings.withKeys keys fresh
                       end).
  { unfold Settings.loadKeys, Settings.saved.
    replace (Settings.getItem "youtubeApiKeys" (Settings.localStorage fresh))
      with (Some (stringifyKeys keys)) by reflexivity.
    rewrite truthy_Some.
    replace (String.eqb (stringifyKeys keys) "") with false
      by (symmetry; apply String.eqb_neq; exact Hfull).
    cbn [negb]. rewrite Hparse. destruct keys; reflexivity. }
  destruct (mount_after_keys _ _ Hkeys) as (Hk & Hs & Ho & Hl).
  rewrite Hk, Hs, Ho, Hl. destruct keys; repeat split; reflexivity.
Qed.

(** X19. A stored pool that does not parse blocks the whole mount
    effect: no key is installed, not even the built-in ones, the channels
    and groups in storage are not loaded, and the only trace is the error
    text; the first call of the service then fails with the configuration
    error without a request. *)
Theorem unreadable_keys_block_mount (storage : Settings.Storage) (savedApiKeys : string)
  (e : Error) (net : Net) (endpoint : Endpoint) (params : Params) :
  Settings.getItem "youtubeApiKeys" storage = Some savedApiKeys ->
  savedApiKeys <> ""%string ->
  parseKeys savedApiKeys = Throw e ->
  mount (Settings.start storage)
  = Settings.setIsLoading false
      (Settings.setError "Could not load saved settings." (Settings.start storage))
  /\ fetchYouTubeAPI net endpoint params 0 (Settings.service (mount (Settings.start storage)))
     = (Throw NoCredentialsConfigured, initial).
Proof.
  intros Hsaved Hfull Hparse.
  assert (Hmount : mount (Settings.start storage)
                   = Settings.setIsLoading false
                       (Settings.setError "Could not load saved settings."
                          (Settings.start storage))).
  { unfold Settings.mount. cbn [Settings.tryAll].
    unfold Settings.loadKeys, Settings.saved. cbn [Settings.localStorage Settings.start].
    rewrite Hsaved, truthy_Some.
    replace (String.eqb savedApiKeys "") with false
      by (symmetry; apply String.eqb_neq; exact Hfull).
    cbn [negb]. rewrite Hparse. reflexivity. }
  split; [exact Hmount|]. rewrite Hmount. rewrite fetchYouTubeAPI_eq. reflexivity.
Qed.

End Reload.

Lemma keys_survive_reload_example :
  Settings.apiKeysState
    (Settings.mount ["built-in"]%string
       (fun saved => if String.eqb saved "[]" then Ok (Some [])
                     else Ok (Some ["key-1"; "key-2"]%string))
       (fun _ => Throw TypeError) (fun _ => Throw TypeError) (fun _ => None)
       (Settings.start
          (Settings.localStorage
             (Settings.handleApiKeysChange
                (fun keys => match keys with [] => "[]" | _ => "[key-1,key-2]" end)%string
                ["key-1"; "key-2"]%string (Settings.start [])))))
  = ["key-1"; "key-2"]%string
  /\ Settings.apiKeysState
       (Settings.mount ["built-in"]%string
          (fun saved => if String.eqb saved "[]" then Ok (Some [])
                        else Ok (Some ["key-1"; "key-2"]%string))
          (fun _ => Throw TypeError) (fun _ => Throw TypeError) (fun _ => None)
          (Settings.start
             (Settings.localStorage
                (Settings.handleApiKeysChange
                   (fun keys => match keys with [] => "[]" | _ => "[key-1,key-2]" end)%string
                   [] midRotation))))
     = ["built-in"]%string.
Proof.
  split.
  - apply (keys_survive_reload ["built-in"]%string
             (fun saved => if String.eqb saved "[]" then Ok (Some [])
                           else Ok (Some ["key-1"; "key-2"]%string))
             (fun _ => Throw TypeError) (fun _ => Throw TypeError) (fun _ => None)
             (fun keys => match keys with [] => "[]" | _ => "[key-1,key-2]" end)%string
             ["key-1"; "key-2"]%string (Settings.start []));
      [reflexivity | discriminate].
  - apply (keys_survive_reload ["built-in"]%string
             (fun saved => if String.eqb saved "[]" then Ok (Some [])
                           else Ok (Some ["key-1"; "key-2"]%string))
             (fun _ => Throw TypeError) (fun _ => Throw TypeError) (fun _ => None)
             (fun keys => match keys with [] => "[]" | _ => "[key-1,key-2]" end)%string
             [] midRotation);
      [reflexivity | discriminate].
Defined.

Lemma unreadable_keys_block_mount_example :
  Settings.apiKeysState
    (Settings.mount ["built-in"]%string
       (fun _ => Throw TypeError) (fun _ => Ok []) (fun _ => Ok []) (fun _ => None)
       (Settings.start [("youtubeApiKeys", "[oops")]%string))
  = [].
Proof.
  destruct (unreadable_keys_block_mount ["built-in"]%string
              (fun _ => Throw TypeError) (fun _ => Ok []) (fun _ => Ok []) (fun _ => None)
              [("youtubeApiKeys", "[oops")]%string "[oops" TypeError quotaNet search [])
    as [Hmount _]; [reflexivity | discriminate | reflexivity |].
  rewrite Hmount. reflexivity.
Defined.

(** ** Channels and groups *)

Section Groups.

Variable stringifyChannels : list Types.ChannelStats -> string.
Variable stringifyGroups : list Types.ChannelGroup -> string.

Local Abbreviation handleRemoveChannel :=
  (Settings.handleRemoveChannel stringifyChannels stringifyGroups).
Local Abbreviation handleSaveGroup := (Settings.handleSaveGroup stringifyGroups).
Local Abbreviation handleDeleteGroup := (Settings.handleDeleteGroup stringifyGroups).

(** X20. [handleRemoveChannel] removes the channel everywhere: no
    tracked channel and no group carries the id afterwards, while the
    groups keep their number, order, ids and names, and both lists are
    written to storage as they then stand. *)
Theorem remove_channel_everywhere (channelId : string) (s : Settings.State) :
  let s' := handleRemoveChannel channelId s in
  (forall c, In c (Settings.trackedChannels s') -> Types.id c <> channelId)
  /\ (forall g, In g (Settings.channelGroups s') -> ~ In channelId (Types.channelIds g))
  /\ map Types.groupId (Settings.channelGroups s') = map Types.groupId (Settings.channelGroups s)
  /\ map Types.groupName (Settings.channelGroups s')
     = map Types.groupName (Settings.channelGroups s)
  /\ Settings.getItem "youtubeTrackedChannels" (Settings.localStorage s')
     = Some (stringifyChannels (Settings.trackedChannels s'))
  /\ Settings.getItem "youtubeChannelGroups" (Settings.localStorage s')
     = Some (stringifyGroups (Settings.channelGroups s')).
Proof.
  cbn. split; [|split; [|split; [|split; [|split; reflexivity]]]].
  - intros c Hin. apply filter_In in Hin as [_ Hne].
    destruct (String.eqb_spec (Types.id c) channelId); [discriminate | assumption].
  - intros g Hin. apply in_map_iff in Hin as (g0 & <- & _). apply filter_removes.
  - rewrite map_map. reflexivity.
  - rewrite map_map. reflexivity.
Qed.

(** X21. Groups refer to tracked channels only: the three handlers
    that rewrite the groups keep this, [handleSaveGroup] provided the ids
    it is handed are ids of tracked channels. *)
Theorem groups_refer_to_tracked (s : Settings.State) :
  Settings.groupsTracked s ->
  (forall channelId, Settings.groupsTracked (handleRemoveChannel channelId s))
  /\ (forall group, Settings.groupsTracked (handleDeleteGroup group s))
  /\ (forall now groupData,
        (forall i, In i (Settings.data_channelIds groupData) ->
                   exists c, In c (Settings.trackedChannels s) /\ Types.id c = i) ->
        Settings.groupsTracked (handleSaveGroup now groupData s)).
Proof.
  intros Hinv. split; [|split].
  - intros channelId g i Hg Hi. cbn in Hg.
    apply in_map_iff in Hg as (g0 & <- & Hg0). cbn in Hi.
    apply filter_In in Hi as [Hi Hne].
    destruct (Hinv g0 i Hg0 Hi) as (c & Hc & Hid). exists c. split; [|exact Hid].
    cbn. apply filter_In. split; [exact Hc|]. rewrite Hid. exact Hne.
  - intros group g i Hg Hi. cbn in Hg. apply filter_In in Hg as [Hg _].
    exact (Hinv g i Hg Hi).
  - intros now groupData Hdata g i Hg Hi. cbn in Hg.
    destruct (truthy (Settings.data_id groupData)).
    + apply in_map_iff in Hg as (g0 & Heq & Hg0).
      destruct (String.eqb (Types.groupId g0) (jsToString (Settings.data_id groupData)));
        subst g; [exact (Hdata i Hi) | exact (Hinv g0 i Hg0 Hi)].
    + apply in_app_iff in Hg as [Hg | [<- | []]];
        [exact (Hinv g i Hg Hi) | exact (Hdata i Hi)].
Qed.

(** X22. A group that was just created is removed again by
    [handleDeleteGroup] on its id, and the groups are as before, provided
    no older group carries the id [group-<now>]; without that, the older
    group is deleted with it. *)
Theorem create_then_delete_group (now : nat) (groupData : Settings.GroupData)
  (s : Settings.State) :
  truthy (Settings.data_id groupData) = false ->
  let created := ("group-" ++ decimal now)%string in
  let s' := handleDeleteGroup created (handleSaveGroup now groupData s) in
  Settings.channelGroups s'
  = filter (fun g => negb (String.eqb (Types.groupId g) created)) (Settings.channelGroups s)
  /\ ((forall g, In g (Settings.channelGroups s) -> Types.groupId g <> created) ->
      Settings.channelGroups s' = Settings.channelGroups s).
Proof.
  intros Hnew. cbn zeta.
  assert (Hgroups : Settings.channelGroups
                      (handleDeleteGroup ("group-" ++ decimal now)
                         (handleSaveGroup now groupData s))
                    = filter (fun g => negb (String.eqb (Types.groupId g)
                                                        ("group-" ++ decimal now)))
                             (Settings.channelGroups s)).
  { cbn. rewrite Hnew, filter_app. cbn. rewrite String.eqb_refl. cbn. apply app_nil_r. }
  split; [exact Hgroups|].
  rewrite Hgroups. clear Hgroups.
  generalize ("group-" ++ decimal now)%string. intros created Hfresh.
  induction (Settings.channelGroups s) as [|g gs IH]; cbn; [reflexivity|].
  destruct (String.eqb_spec (Types.groupId g) created) as [Heq|_].
  - exfalso. exact (Hfresh g (or_introl eq_refl) Heq).
  - cbn. f_equal. apply IH. intros g' Hin. apply Hfresh. right. exact Hin.
Qed.

End Groups.

Lemma threeChannels_tracked : Settings.groupsTracked threeChannels.
Proof.
  intros g i [<- | []] Hi. exists (channelWithId i). split; [|reflexivity].
  cbn in Hi. destruct Hi as [<- | [<- | []]]; cbn; tauto.
Qed.

Lemma remove_channel_everywhere_example :
  map Types.groupId
    (Settings.channelGroups
       (Settings.handleRemoveChannel (fun _ => "[]"%string) (fun _ => "[]"%string) "UC-a"
          threeChannels))
  = map Types.groupId (Settings.channelGroups threeChannels).
Proof.
  apply (remove_channel_everywhere (fun _ => "[]"%string) (fun _ => "[]"%string) "UC-a"
           threeChannels).
Defined.

Lemma groups_refer_to_tracked_example :
  Settings.groupsTracked
    (Settings.handleRemoveChannel (fun _ => "[]"%string) (fun _ => "[]"%string) "UC-a"
       threeChannels).
Proof.
  apply (groups_refer_to_tracked (fun _ => "[]"%string) (fun _ => "[]"%string)).
  exact threeChannels_tracked.
Defined.

Lemma create_then_delete_group_example :
  Settings.channelGroups
    (Settings.handleDeleteGroup (fun _ => "[]"%string) ("group-" ++ decimal 42)
       (Settings.handleSaveGroup (fun _ => "[]"%string) 42
          {| Settings.data_id := None; Settings.data_name := "Rivals";
             Settings.data_channelIds := ["UC-a"]%string |}
          (Settings.start [])))
  = Settings.channelGroups (Settings.start []).
Proof.
  apply (create_then_delete_group (fun _ => "[]"%string) 42
           {| Settings.data_id := None; Settings.data_name := "Rivals";
              Settings.data_channelIds := ["UC-a"]%string |}
           (Settings.start [])).
  - reflexivity.
  - intros g [].
Defined.

(** ** The group dialog *)

Lemma toggle_membership (j i : string) (selected : list string) :
  existsb (String.eqb j) (if existsb (String.eqb i) selected
                          then filter (fun x => negb (String.eqb x i)) selected
                          else selected ++ [i])
  = if String.eqb j i then negb (existsb (String.eqb j) selected)
    else existsb (String.eqb j) selected.
Proof.
  destruct (String.eqb_spec j i) as [->|Hne].
  - destruct (existsb (String.eqb i) selected) eqn:Hmem; cbn [negb].
    + apply not_true_is_false. intros H. apply existsb_eqb_In in H.
      exact (filter_removes _ _ H).
    + rewrite existsb_app, Hmem. cbn. rewrite String.eqb_refl. reflexivity.
  - destruct (existsb (String.eqb i) selected) eqn:Hmem.
    + destruct (existsb (String.eqb j) selected) eqn:Hj.
      * apply existsb_eqb_In. apply filter_In. apply existsb_eqb_In in Hj.
        split; [exact Hj|]. apply negb_true_iff, String.eqb_neq. exact Hne.
      * apply not_true_is_false. intros H. apply existsb_eqb_In in H.
        apply filter_In in H as [H _]. apply existsb_eqb_In in H. congruence.
    + rewrite existsb_app. cbn.
      replace (String.eqb j i) with false by (symmetry; apply String.eqb_neq; exact Hne).
      cbn. apply orb_false_r.
Qed.

Lemma toggle_NoDup (i : string) (selected : list string) :
  NoDup selected ->
  NoDup (if existsb (String.eqb i) selected
         then filter (fun x => negb (String.eqb x i)) selected
         else selected ++ [i]).
Proof.
  intros Hnodup. destruct (existsb (String.eqb i) selected) eqn:Hmem.
  - apply NoDup_filter. exact Hnodup.
  - apply NoDup_app; [exact Hnodup | repeat constructor; intros [] |].
    intros k Hin [<- | []]. apply existsb_eqb_In in Hin. congruence.
Qed.

Lemma newSet_membership (j : string) (xs : list string) :
  existsb (String.eqb j) (Settings.newSet xs) = existsb (String.eqb j) xs.
Proof.
  induction xs as [|x xs IH]; cbn; [reflexivity|].
  destruct (String.eqb_spec j x) as [->|Hne]; cbn; [reflexivity|].
  rewrite <- IH.
  destruct (existsb (String.eqb j) (Settings.newSet xs)) eqn:Hj.
  - apply existsb_eqb_In. apply existsb_eqb_In in Hj. apply filter_In.
    split; [exact Hj|]. apply negb_true_iff, String.eqb_neq. exact Hne.
  - apply not_true_is_false. intros H. apply existsb_eqb_In in H.
    apply filter_In in H as [H _]. apply existsb_eqb_In in H. congruence.
Qed.

Lemma newSet_NoDup (xs : list string) : NoDup (Settings.newSet xs).
Proof.
  induction xs as [|x xs IH]; cbn; constructor.
  - apply filter_removes.
  - apply NoDup_filter. exact IH.
Qed.

Lemma toggles_name (toggles : list string) :
  forall m,
    Settings.name (fold_left (fun m i => Settings.handleToggleChannel i m) toggles m)
    = Settings.name m.
Proof.
  induction toggles as [|i toggles IH]; intros m; cbn [fold_left]; [reflexivity|].
  rewrite IH. reflexivity.
Qed.

Lemma toggles_selection (j : string) (toggles : list string) :
  forall m,
    NoDup (Settings.selectedChannelIds m) ->
    let m' := fold_left (fun m i => Settings.handleToggleChannel i m) toggles m in
    NoDup (Settings.selectedChannelIds m')
    /\ existsb (String.eqb j) (Settings.selectedChannelIds m')
       = xorb (existsb (String.eqb j) (Settings.selectedChannelIds m))
              (Nat.odd (count_occ string_dec toggles j)).
Proof.
  induction toggles as [|i toggles IH]; intros m Hnodup; cbn [fold_left count_occ].
  - split; [exact Hnodup|]. cbn. rewrite xorb_false_r. reflexivity.
  - destruct (IH (Settings.handleToggleChannel i m)
                (toggle_NoDup i _ Hnodup)) as [Hnodup' Hmem].
    split; [exact Hnodup'|]. cbn zeta in Hmem. rewrite Hmem.
    cbn [Settings.handleToggleChannel Settings.selectedChannelIds].
    rewrite toggle_membership.
    destruct (string_dec i j) as [->|Hne].
    + rewrite String.eqb_refl, Nat.odd_succ, <- Nat.negb_odd.
      generalize (existsb (String.eqb j) (Settings.selectedChannelIds m))
                 (Nat.odd (count_occ string_dec toggles j)).
      intros [] []; reflexivity.
    + replace (String.eqb j i) with false
        by (symmetry; apply String.eqb_neq; intros ->; contradiction).
      reflexivity.
Qed.

Section GroupDialog.

Variable trim : string -> string.

(** X23. What the dialog hands to [onSave] after any sequence of
    toggles: nothing when the name is blank; otherwise the trimmed name,
    the id of the group being edited, and the selected ids without
    duplicates, an id being selected exactly when the number of times it
    was toggled is odd for an id outside the group, even for one inside. *)
Theorem dialog_saves_toggled_selection (existingGroup : option Types.ChannelGroup)
  (typed : string) (toggles : list string) :
  let m := fold_left (fun m i => Settings.handleToggleChannel i m) toggles
             {| Settings.name := typed;
                Settings.selectedChannelIds :=
                  Settings.selectedChannelIds (Settings.opened existingGroup) |} in
  (trim typed = ""%string -> Settings.handleSave trim existingGroup m = None)
  /\ (trim typed <> ""%string ->
      exists ids,
        Settings.handleSave trim existingGroup m
        = Some {| Settings.data_id := option_map Types.groupId existingGroup;
                  Settings.data_name := trim typed;
                  Settings.data_channelIds := ids |}
        /\ NoDup ids
        /\ forall i,
             existsb (String.eqb i) ids
             = xorb match existingGroup with
                    | Some g => existsb (String.eqb i) (Types.channelIds g)
                    | None => false
                    end
                    (Nat.odd (count_occ string_dec toggles i))).
Proof.
  cbn zeta. unfold Settings.handleSave. rewrite toggles_name, truthy_Some.
  cbn [Settings.name]. split.
  - intros ->. reflexivity.
  - intros Hfull.
    replace (String.eqb (trim typed) "") with false by (symmetry; apply String.eqb_neq; exact Hfull).
    cbn [negb]. eexists. split; [reflexivity|].
    assert (Hstart : NoDup (Settings.selectedChannelIds (Settings.opened existingGroup))).
    { destruct existingGroup; cbn; [apply newSet_NoDup | constructor]. }
    split.
    + apply (toggles_selection ""%string toggles
               {| Settings.name := typed;
                  Settings.selectedChannelIds :=
                    Settings.selectedChannelIds (Settings.opened existingGroup) |} Hstart).
    + intros i.
      destruct (toggles_selection i toggles
                  {| Settings.name := typed;
                     Settings.selectedChannelIds :=
                       Settings.selectedChannelIds (Settings.opened existingGroup) |} Hstart)
        as [_ Hmem].
      cbn zeta in Hmem. rewrite Hmem. cbn [Settings.selectedChannelIds].
      destruct existingGroup as [g|]; cbn [Settings.opened Settings.selectedChannelIds];
        [rewrite newSet_membership|]; reflexivity.
Qed.

End GroupDialog.

Lemma dialog_saves_toggled_selection_example :
  Settings.handleSave (fun s => s) None
    (fold_left (fun m i => Settings.handleToggleChannel i m) ["UC-a"; "UC-b"; "UC-a"]%string
       {| Settings.name := "Rivals"; Settings.selectedChannelIds := [] |})
  = Some {| Settings.data_id := None; Settings.data_name := "Rivals";
            Settings.data_channelIds := ["UC-b"]%string |}.
Proof.
  destruct (dialog_saves_toggled_selection (fun s => s) None "Rivals"
              ["UC-a"; "UC-b"; "UC-a"]%string) as [_ Hsave].
  destruct (Hsave ltac:(discriminate)) as (ids & Heq & _).
  cbn in Heq. injection Heq as <-. reflexivity.
Defined.

(** ** The single-channel view *)

Lemma messageOr_nonempty (fallback : string) (err : Error) :
  fallback <> ""%string -> SingleView.messageOr fallback err <> ""%string.
Proof.
  intros Hfallback. unfold SingleView.messageOr. rewrite truthy_Some.
  destruct (String.eqb_spec (message err) ""); cbn [negb]; assumption.
Qed.

Lemma costs_nothing (allowed : list Endpoint) (w : World) (bound : nat) :
  costs allowed w w bound.
Proof.
  exists []. rewrite app_nil_r. split; [reflexivity|]. split; [simpl; lia | constructor].
Qed.

Section SingleViewProperties.

Variable net : Net.
Variable trackedChannels : list Types.ChannelStats.
Variable videosPerPage : nat.

Local Abbreviation handleSelectChannel :=
  (SingleView.handleSelectChannel net trackedChannels videosPerPage).
Local Abbreviation handleLoadMore := (SingleView.handleLoadMore net videosPerPage).

(** X24. [handleLoadMore] never drops a video: whatever upstream
    answers, the videos shown before are a prefix of the videos shown
    after, for the same channel and in the same view, at a cost of at most
    [2N] requests.  Without a page token, or while a load is under way, it
    does nothing at all; when the page cannot be fetched the selection,
    with its token, stays as it was and the failure is shown; when the
    page is fetched its videos are appended in order and its token
    replaces the old one. *)
Theorem load_more_appends (s : SingleView.State) (w : World)
  (selected : SingleView.SelectedChannelData) :
  SingleView.selectedChannel s = Some selected ->
  poolInvariant w ->
  let s' := fst (handleLoadMore s w) in
  let w' := snd (handleLoadMore s w) in
  (exists more token,
      SingleView.selectedChannel s'
      = Some {| SingleView.stats := SingleView.stats selected;
                SingleView.videos := SingleView.videos selected ++ more;
                SingleView.pageToken := token |})
  /\ SingleView.view s' = SingleView.view s
  /\ costs [search; videos] w w' (2 * length (apiKeys w))
  /\ (truthy (SingleView.pageToken selected) = false \/ SingleView.isLoadingMore s = true ->
      s' = s /\ w' = w)
  /\ (truthy (SingleView.pageToken selected) = true -> SingleView.isLoadingMore s = false ->
      forall err,
        fst (getChannelVideos net (Types.id (SingleView.stats selected)) videosPerPage
               (SingleView.pageToken selected) w) = Throw err ->
        SingleView.selectedChannel s' = Some selected
        /\ SingleView.isLoadingMore s' = false
        /\ SingleView.error s'
           = SingleView.messageOr "An unknown error occurred while loading more videos." err)
  /\ (truthy (SingleView.pageToken selected) = true -> SingleView.isLoadingMore s = false ->
      forall page,
        fst (getChannelVideos net (Types.id (SingleView.stats selected)) videosPerPage
               (SingleView.pageToken selected) w) = Ok page ->
        SingleView.selectedChannel s'
        = Some {| SingleView.stats := SingleView.stats selected;
                  SingleView.videos := SingleView.videos selected ++ page_videos page;
                  SingleView.pageToken := page_nextPageToken page |}
        /\ SingleView.isLoadingMore s' = false
        /\ SingleView.error s' = ""%string).
Proof.
  intros Hselected Hinv. cbn zeta. unfold SingleView.handleLoadMore. rewrite Hselected.
  assert (Hsame : exists more token,
             Some selected
             = Some {| SingleView.stats := SingleView.stats selected;
                       SingleView.videos := SingleView.videos selected ++ more;
                       SingleView.pageToken := token |}).
  { exists [], (SingleView.pageToken selected). rewrite app_nil_r. destruct selected; reflexivity. }
  destruct (truthy (SingleView.pageToken selected)) eqn:Htoken; cbn [negb orb].
  2:{ cbn [fst snd]. rewrite ?Hselected.
      split; [exact Hsame|]. split; [reflexivity|]. split; [apply costs_nothing|].
      split; [auto|]. split; intros H; discriminate H. }
  destruct (SingleView.isLoadingMore s) eqn:Hbusy.
  { cbn [fst snd]. rewrite ?Hselected.
    split; [exact Hsame|]. split; [reflexivity|]. split; [apply costs_nothing|].
    split; [auto|]. split; intros _ H; discriminate H. }
  pose proof (getChannelVideos_cost net (Types.id (SingleView.stats selected)) videosPerPage
                (SingleView.pageToken selected) w Hinv) as Hcost.
  destruct (getChannelVideos net (Types.id (SingleView.stats selected)) videosPerPage
              (SingleView.pageToken selected) w) as [[videoData | err] w1];
    cbn [fst snd] in *.
  - split; [eexists; eexists; reflexivity|].
    split; [reflexivity|]. split; [exact Hcost|].
    split; [intros [H | H]; discriminate|].
    split; [intros _ _ err H; discriminate|].
    intros _ _ page [= <-]. repeat split; reflexivity.
  - split; [exact Hsame|].
    split; [reflexivity|]. split; [exact Hcost|].
    split; [intros [H | H]; discriminate|].
    split; [|intros _ _ page H; discriminate].
    intros _ _ err' [= <-]. repeat split; reflexivity.
Qed.

(** X25. [handleSelectChannel] does nothing for an id that is not
    tracked.  For a tracked channel it makes at most [2N] requests and ends
    in one of two states: when the first page of the channel's videos is
    fetched, the single view with that page, its token and no error; when
    the fetch fails, the list view with no channel selected and the
    message of the error, or the fallback text, shown. *)
Theorem select_channel_outcomes (channelId : string) (s : SingleView.State) (w : World) :
  poolInvariant w ->
  let s' := fst (handleSelectChannel channelId s w) in
  let w' := snd (handleSelectChannel channelId s w) in
  costs [search; videos] w w' (2 * length (apiKeys w))
  /\ ((forall c, In c trackedChannels -> Types.id c <> channelId) -> s' = s /\ w' = w)
  /\ (forall found,
        find (fun c => String.eqb (Types.id c) channelId) trackedChannels = Some found ->
        (exists page,
            SingleView.view s' = Types.single
            /\ SingleView.selectedChannel s'
               = Some {| SingleView.stats := found;
                         SingleView.videos := page_videos page;
                         SingleView.pageToken := page_nextPageToken page |}
            /\ SingleView.error s' = ""%string)
        \/ (SingleView.view s' = Types.multi
            /\ SingleView.selectedChannel s' = None
            /\ SingleView.error s' <> ""%string))
  /\ (forall found page,
        find (fun c => String.eqb (Types.id c) channelId) trackedChannels = Some found ->
        fst (getChannelVideos net (Types.id found) videosPerPage None w) = Ok page ->
        SingleView.view s' = Types.single
        /\ SingleView.selectedChannel s'
           = Some {| SingleView.stats := found;
                     SingleView.videos := page_videos page;
                     SingleView.pageToken := page_nextPageToken page |}
        /\ SingleView.error s' = ""%string)
  /\ (forall found err,
        find (fun c => String.eqb (Types.id c) channelId) trackedChannels = Some found ->
        fst (getChannelVideos net (Types.id found) videosPerPage None w) = Throw err ->
        SingleView.view s' = Types.multi
        /\ SingleView.selectedChannel s' = None
        /\ SingleView.error s' = SingleView.messageOr "An unknown error occurred." err).
Proof.
  intros Hinv. cbn zeta. unfold SingleView.handleSelectChannel.
  destruct (find (fun c => String.eqb (Types.id c) channelId) trackedChannels)
    as [found|] eqn:Hfind.
  - pose proof (getChannelVideos_cost net (Types.id found) videosPerPage None w Hinv) as Hcost.
    apply find_some in Hfind as [Hin Hid]. apply String.eqb_eq in Hid.
    destruct (getChannelVideos net (Types.id found) videosPerPage None w)
      as [[videoData | err] w1] eqn:Hvideos; cbn [fst snd] in *.
    + split; [exact Hcost|]. split; [intros Hnone; exfalso; exact (Hnone found Hin Hid)|].
      split; [|split].
      * intros found' [= <-]. left. exists videoData. repeat split; reflexivity.
      * intros found' page [= <-] Hpage. rewrite Hvideos in Hpage.
        injection Hpage as <-. repeat split; reflexivity.
      * intros found' err' [= <-] Herr. rewrite Hvideos in Herr. discriminate Herr.
    + split; [exact Hcost|]. split; [intros Hnone; exfalso; exact (Hnone found Hin Hid)|].
      split; [|split].
      * intros found' [= <-]. right. split; [reflexivity|]. split; [reflexivity|].
        apply messageOr_nonempty. discriminate.
      * intros found' page [= <-] Hpage. rewrite Hvideos in Hpage. discriminate Hpage.
      * intros found' err' [= <-] Herr. rewrite Hvideos in Herr.
        injection Herr as <-. repeat split; reflexivity.
  - cbn [fst snd]. split; [apply costs_nothing|]. split; [auto|].
    split; [intros found H; discriminate H|].
    split; intros found ? H; discriminate H.
Qed.

End SingleViewProperties.

Lemma load_more_appends_example :
  SingleView.selectedChannel (fst (SingleView.handleLoadMore pageNet 12 watchingOne twoKeys))
  = Some {| SingleView.stats := channelWithId "UC-a";
            SingleView.videos := [videoStatSample "v0" "5"; videoStatSample "v1" "10";
                                  videoStatSample "v2" "20"];
            SingleView.pageToken := Some "page-2"%string |}
  /\ SingleView.selectedChannel (fst (SingleView.handleLoadMore quotaNet 12 watchingOne twoKeys))
     = Some selectedWithVideo
  /\ costs [search; videos] twoKeys
           (snd (SingleView.handleLoadMore quotaNet 12 watchingOne twoKeys)) 4.
Proof.
  destruct (load_more_appends pageNet 12 watchingOne twoKeys selectedWithVideo)
    as (_ & _ & _ & _ & _ & Hloaded); [reflexivity | left; simpl; lia |].
  destruct (load_more_appends quotaNet 12 watchingOne twoKeys selectedWithVideo)
    as (_ & _ & Hcost & _ & Hfailed & _); [reflexivity | left; simpl; lia |].
  split; [|split; [|exact Hcost]].
  - apply (Hloaded eq_refl eq_refl pageSample). reflexivity.
  - apply (Hfailed eq_refl eq_refl (AllCredentialsExhausted 2)). reflexivity.
Defined.

Lemma select_channel_outcomes_example :
  SingleView.selectedChannel
    (fst (SingleView.handleSelectChannel pageNet (map channelWithId ["UC-a"; "UC-b"]%string) 12
            "UC-b" watchingOne twoKeys))
  = Some {| SingleView.stats := channelWithId "UC-b";
            SingleView.videos := [videoStatSample "v1" "10"; videoStatSample "v2" "20"];
            SingleView.pageToken := Some "page-2"%string |}
  /\ (SingleView.view
        (fst (SingleView.handleSelectChannel quotaNet
                (map channelWithId ["UC-a"; "UC-b"]%string) 12 "UC-b" watchingOne twoKeys))
      = Types.multi
      /\ SingleView.selectedChannel
           (fst (SingleView.handleSelectChannel quotaNet
                   (map channelWithId ["UC-a"; "UC-b"]%string) 12 "UC-b" watchingOne twoKeys))
         = None)
  /\ fst (SingleView.handleSelectChannel quotaNet (map channelWithId ["UC-a"; "UC-b"]%string) 12
            "UC-z" watchingOne twoKeys) = watchingOne.
Proof.
  destruct (select_channel_outcomes pageNet (map channelWithId ["UC-a"; "UC-b"]%string) 12
              "UC-b" watchingOne twoKeys) as (_ & _ & _ & Hloaded & _); [left; simpl; lia|].
  destruct (select_channel_outcomes quotaNet (map channelWithId ["UC-a"; "UC-b"]%string) 12
              "UC-b" watchingOne twoKeys) as (_ & _ & _ & _ & Hfailed); [left; simpl; lia|].
  destruct (select_channel_outcomes quotaNet (map channelWithId ["UC-a"; "UC-b"]%string) 12
              "UC-z" watchingOne twoKeys) as (_ & Hunknown & _); [left; simpl; lia|].
  split; [|split].
  - apply (Hloaded (channelWithId "UC-b") pageSample); reflexivity.
  - destruct (Hfailed (channelWithId "UC-b") (AllCredentialsExhausted 2) eq_refl eq_refl)
      as (Hview & Hnone & _).
    split; [exact Hview | exact Hnone].
  - apply Hunknown. intros c [<- | [<- | []]]; discriminate.
Defined.

(** ** Relative time *)

Lemma checkAges_sound (count : nat) :
  forall start s,
    checkAges count start = true ->
    (start <= s < start + Z.of_nat count)%Z ->
    labelCheck s = true.
Proof.
  induction count as [|count IH]; intros start s Hcheck Hrange; [lia|].
  cbn [checkAges] in Hcheck. apply andb_true_iff in Hcheck as [Hhere Hlater].
  destruct (Z.eq_dec s start) as [->|Hne]; [exact Hhere|].
  apply (IH (start + 1)%Z); [exact Hlater | lia].
Qed.

Lemma ages_checked : checkAges (Z.to_nat 90001) (-3600) = true.
Proof. vm_compute. reflexivity. Qed.

Section RelativeTimeProperties.

Variable now : PrimFloat.float.
Variable dateTime : string -> PrimFloat.float.

(** X26. Up to one day, and for dates up to an hour ahead:
    when the age comes out as [s] whole seconds, [formatRelativeTime]
    shows [s] seconds up to 60 (also when [s] is negative), the whole
    minutes up to 3600 seconds and the whole hours up to 86400, the unit
    always in the plural: 60 seconds are ["60 seconds ago"], one day is
    ["24 hours ago"]. *)
Theorem relative_time_within_a_day (dateString : string) (s : Z) :
  (-3600 <= s <= 86400)%Z ->
  ageInSeconds now dateTime dateString = ofZ s ->
  formatRelativeTime now dateTime dateString
  = (if (s <=? 60)%Z then decimalZ s ++ " seconds ago"
     else if (s <=? 3600)%Z then decimalZ (s / 60) ++ " minutes ago"
     else decimalZ (s / 3600) ++ " hours ago")%string.
Proof.
  intros Hrange Hage.
  pose proof (checkAges_sound _ _ s ages_checked ltac:(lia)) as Hcheck.
  unfold formatRelativeTime. rewrite Hage. unfold labelCheck, ageLabel in Hcheck.
  destruct (relativeParts (ofZ s)) as [count unit].
  unfold numberString.
  destruct (wholeValue count) as [v|]; [|discriminate].
  apply andb_true_iff in Hcheck as [Hv Hunit].
  apply Z.eqb_eq in Hv. apply String.eqb_eq in Hunit. subst v unit.
  destruct (s <=? 60)%Z; [reflexivity|]. destruct (s <=? 3600)%Z; reflexivity.
Qed.

(** X27. A text that is no date is shown as ["NaN seconds ago"],
    whatever the current time. *)
Theorem relative_time_invalid_date (dateString : string) :
  dateTime dateString = PrimFloat.nan ->
  formatRelativeTime now dateTime dateString = "NaN seconds ago"%string.
Proof.
  intros Hdate. unfold formatRelativeTime, ageInSeconds. rewrite Hdate.
  assert (Hsub : PrimFloat.sub now PrimFloat.nan = PrimFloat.nan).
  { apply FloatAxioms.Prim2SF_inj. rewrite FloatAxioms.sub_spec.
    destruct (FloatOps.Prim2SF now); reflexivity. }
  rewrite Hsub. vm_compute. reflexivity.
Qed.

End RelativeTimeProperties.

Lemma relative_time_within_a_day_example :
  formatRelativeTime (ofZ 1700000000000) (fun _ => ofZ 1699999910000) "2023-11-14T22:11:50Z"
  = "1 minutes ago"%string.
Proof.
  apply (relative_time_within_a_day (ofZ 1700000000000) (fun _ => ofZ 1699999910000)
           "2023-11-14T22:11:50Z" 90).
  - lia.
  - vm_compute. reflexivity.
Defined.

Lemma relative_time_invalid_date_example :
  formatRelativeTime (ofZ 1700000000000) (fun _ => PrimFloat.nan) "soon"
  = "NaN seconds ago"%string.
Proof.
  apply (relative_time_invalid_date (ofZ 1700000000000) (fun _ => PrimFloat.nan) "soon").
  reflexivity.
Defined.
